(** * EAMP real-time core: connection registry, subscription index, fan-out,
      client transport and subscription bookkeeping.

    Shallow embedding of
    - [examples/servers/nodejs-express/src/services/websocket.ts]
      (class [WebSocketManager])                       -> [Module Server],
      [Module ServerStats]
    - [packages/javascript-sdk/src/transport/WebSocketTransport.ts]
      (class [WebSocketTransport])                     -> [Module Transport]
    - [packages/javascript-sdk/src/client/EAMPClient.ts]
      (class [EAMPClient])                             -> [Module Client],
      [Module ClientLifecycle], [Module Fetch]
    - the React provider [EAMPProvider]                -> [Module Provider]
    - [packages/javascript-sdk/src/utils/MemoryCache.ts],
      [packages/javascript-sdk/src/transport/HttpTransport.ts] and the
      error classes                                    -> [Module MemoryCache],
      [Module Http], [Module Errors]
    - the utility functions of the React SDK           -> [Module Utils]
    followed by the facts proved about each.

    Modelling conventions.
    - A handler runs to completion (single-threaded event loop), so a
      handler is a function from state to state.  An [async] method is cut
      at its [await]s: the part up to the first [await] is one function,
      each continuation another, and the state records where every pending
      call stands.
    - JavaScript [Map]/[Set] objects are stdpp [gmap]/[gset]; where the
      iteration order of a [Set] can be observed, or a [Set] object is
      shared between closures, it is an insertion-ordered list in an
      explicit heap.
    - Everything the code reads from the outside (the clock, the uuid
      generator, whether a socket write throws) is an explicit argument or
      an explicit field of the socket record.  Logging is left out.
    - A callback or listener supplied by the application is known by its
      identity and by whether a call of it throws; it does not call back
      into the object that calls it. *)

From Stdlib Require Import ZArith.
From stdpp Require Import gmap strings list fin_maps pretty.

(** [ws.readyState] of the [ws] library. *)
Inductive ReadyState := CONNECTING | OPEN | CLOSING | CLOSED.

#[global] Instance ReadyState_eq_dec : EqDecision ReadyState.
Proof. solve_decision. Defined.

(* ===================================================================== *)
(** * Server: [WebSocketManager] *)
(* ===================================================================== *)
Module Server.

(** The part of a [WebSocket] object that [WebSocketManager] observes:
    its [readyState], and whether a call of [ws.send] raises an exception
    (the code wraps the call in [try]/[catch]). *)
Record WebSocket := {
  readyState : ReadyState;
  send_throws : bool;
}.

(** [changeType] of [MetadataUpdateMessage]. *)
Inductive ChangeType := created | updated | deleted | data_updated.

(** interface [MetadataUpdateMessage]; the timestamp is kept as a number and
    the optional [metadata] payload as its JSON text. *)
Record MetadataUpdateMessage := {
  resourceId : string;
  changeType : ChangeType;
  timestamp : Z;
  metadata : option string;
}.

(** Inbound message, after [JSON.parse]: the handlers read [message.type]
    and, for subscription messages, [message.resourceId]. *)
Record WebSocketMessage := {
  type : string;
  msg_resourceId : string;
}.

(** The object literals the server passes to [sendToClient]. *)
Inductive ServerMessage :=
| msg_connected (clientId : string) (timestamp : Z)
| msg_pong
| msg_subscribed (resourceId : string) (timestamp : Z)
| msg_unsubscribed (resourceId : string) (timestamp : Z)
| msg_error (message : string)
| msg_metadata_updated (update : MetadataUpdateMessage).

(** interface [ClientConnection]. *)
Record ClientConnection := {
  id : string;
  ws : WebSocket;
  client_subscriptions : gset string;
  lastSeen : Z;
}.

(** The fields of [WebSocketManager]: [clients], [subscriptions]
    (resourceId -> set of clientIds), and a ghost log [sent] of the
    [client.ws.send] calls that returned normally, oldest first. *)
Record WebSocketManager := {
  clients : gmap string ClientConnection;
  subscriptions : gmap string (gset string);
  sent : list (string * ServerMessage);
}.

(** [config.websocket] *)
Record WebSocketConfig := {
  heartbeatInterval : Z;
  maxConnections : nat;
}.

Definition initial : WebSocketManager :=
  {| clients := ∅; subscriptions := ∅; sent := [] |}.

(** [this.subscriptions.get(resourceId)], with [undefined] read as the
    empty set. *)
Definition subscribersOf (s : WebSocketManager) (resourceId : string) : gset string :=
  default ∅ (subscriptions s !! resourceId).

(** Body of the clean-up loops of [handleUnsubscription] and
    [handleDisconnection]:
<<
      const subscribers = this.subscriptions.get(resourceId);
      if (subscribers) {
        subscribers.delete(clientId);
        if (subscribers.size === 0) this.subscriptions.delete(resourceId);
      }
>> *)
Definition removeSubscriber (clientId resourceId : string)
    (index : gmap string (gset string)) : gmap string (gset string) :=
  match index !! resourceId with
  | None => index
  | Some subscribers =>
      let subscribers' := subscribers ∖ {[clientId]} in
      if decide (size subscribers' = 0%nat)
      then delete resourceId index
      else <[resourceId := subscribers']> index
  end.

(** [handleDisconnection(clientId)] *)
Definition handleDisconnection (clientId : string) (s : WebSocketManager)
    : WebSocketManager :=
  match clients s !! clientId with
  | None => s
  | Some client =>
      {| clients := delete clientId (clients s);
         subscriptions :=
           foldl (fun index resourceId => removeSubscriber clientId resourceId index)
                 (subscriptions s) (elements (client_subscriptions client));
         sent := sent s |}
  end.

(** [sendToClient(clientId, message)] *)
Definition sendToClient (clientId : string) (message : ServerMessage)
    (s : WebSocketManager) : WebSocketManager :=
  match clients s !! clientId with
  | None => s
  | Some client =>
      if decide (readyState (ws client) = OPEN) then
        if send_throws (ws client)
        then handleDisconnection clientId s
        else {| clients := clients s;
                subscriptions := subscriptions s;
                sent := sent s ++ [(clientId, message)] |}
      else s
  end.

(** [handleConnection(ws, req)]; [clientId] is the value of [uuidv4()] and
    [now] the value of [Date.now()]. *)
Definition handleConnection (config : WebSocketConfig)
    (clientId : string) (socket : WebSocket) (now : Z)
    (s : WebSocketManager) : WebSocketManager :=
  if decide (maxConnections config ≤ size (clients s))%nat then s
  else
    let client := {| id := clientId; ws := socket;
                     client_subscriptions := ∅; lastSeen := now |} in
    sendToClient clientId (msg_connected clientId now)
      {| clients := <[clientId := client]> (clients s);
         subscriptions := subscriptions s;
         sent := sent s |}.

(** [handleSubscription(clientId, message)] *)
Definition handleSubscription (now : Z) (clientId : string)
    (message : WebSocketMessage) (s : WebSocketManager) : WebSocketManager :=
  match clients s !! clientId with
  | None => s
  | Some client =>
      let resourceId := msg_resourceId message in
      let client' := {| id := id client; ws := ws client;
                        client_subscriptions := client_subscriptions client ∪ {[resourceId]};
                        lastSeen := lastSeen client |} in
      let index := match subscriptions s !! resourceId with
                   | None => <[resourceId := ∅]> (subscriptions s)
                   | Some _ => subscriptions s
                   end in
      let index' := alter (fun subscribers => subscribers ∪ {[clientId]}) resourceId index in
      sendToClient clientId (msg_subscribed resourceId now)
        {| clients := <[clientId := client']> (clients s);
           subscriptions := index';
           sent := sent s |}
  end.

(** [handleUnsubscription(clientId, message)] *)
Definition handleUnsubscription (now : Z) (clientId : string)
    (message : WebSocketMessage) (s : WebSocketManager) : WebSocketManager :=
  match clients s !! clientId with
  | None => s
  | Some client =>
      let resourceId := msg_resourceId message in
      let client' := {| id := id client; ws := ws client;
                        client_subscriptions := client_subscriptions client ∖ {[resourceId]};
                        lastSeen := lastSeen client |} in
      sendToClient clientId (msg_unsubscribed resourceId now)
        {| clients := <[clientId := client']> (clients s);
           subscriptions := removeSubscriber clientId resourceId (subscriptions s);
           sent := sent s |}
  end.

(** [client.lastSeen = Date.now()] on the registered connection object. *)
Definition touch (now : Z) (clientId : string) (client : ClientConnection)
    (s : WebSocketManager) : WebSocketManager :=
  {| clients := <[clientId := {| id := id client; ws := ws client;
                                 client_subscriptions := client_subscriptions client;
                                 lastSeen := now |}]> (clients s);
     subscriptions := subscriptions s;
     sent := sent s |}.

(** [handleMessage(clientId, data)].  [data] is the outcome of
    [JSON.parse(data.toString())]: [None] when it throws (the [catch]
    branch), [Some message] otherwise. *)
Definition handleMessage (now : Z) (clientId : string)
    (data : option WebSocketMessage) (s : WebSocketManager) : WebSocketManager :=
  match clients s !! clientId with
  | None => s
  | Some client =>
      let s1 := touch now clientId client s in
      match data with
      | Some message =>
          if decide (type message = "ping") then
            sendToClient clientId msg_pong s1
          else if decide (type message = "subscribe") then
            handleSubscription now clientId message s1
          else if decide (type message = "unsubscribe") then
            handleUnsubscription now clientId message s1
          else
            sendToClient clientId
              (msg_error ("Unknown message type: " +:+ type message)) s1
      | None =>
          sendToClient clientId (msg_error "Invalid message format") s1
      end
  end.

(** The [ws.on('pong', ...)] handler installed by [handleConnection]. *)
Definition handlePong (now : Z) (clientId : string) (s : WebSocketManager)
    : WebSocketManager :=
  match clients s !! clientId with
  | None => s
  | Some client => touch now clientId client s
  end.

(** [broadcastMetadataUpdate(update)].  The loop visits the members of the
    subscriber set; the only member a visit can remove from that set is the
    one being visited, so the loop is a fold over the set as it was on
    entry. *)
Definition broadcastMetadataUpdate (update : MetadataUpdateMessage)
    (s : WebSocketManager) : WebSocketManager :=
  match subscriptions s !! resourceId update with
  | None => s
  | Some subscribers =>
      if decide (size subscribers = 0%nat) then s
      else foldl (fun s clientId => sendToClient clientId (msg_metadata_updated update) s)
                 s (elements subscribers)
  end.

(** One run of the [setInterval] callback of [startHeartbeat]:
    connections whose [lastSeen] is older than twice the heartbeat interval
    are terminated and cleaned up ([ws.ping()] on the others leaves the
    manager's state alone). *)
Definition heartbeatTick (config : WebSocketConfig) (now : Z)
    (s : WebSocketManager) : WebSocketManager :=
  let timeout := (heartbeatInterval config * 2)%Z in
  foldl (fun s entry =>
           if decide (timeout < now - lastSeen (snd entry))%Z
           then handleDisconnection (fst entry) s
           else s)
        s (map_to_list (clients s)).

(** What can happen to a manager.  [SocketChanged] is the environment: the
    socket of a registered connection changes its [readyState] or starts or
    stops failing its writes. *)
Inductive Event :=
| Connection (clientId : string) (socket : WebSocket) (now : Z)
| Message (clientId : string) (data : option WebSocketMessage) (now : Z)
| Close (clientId : string)
| SocketError (clientId : string)
| PongFrame (clientId : string) (now : Z)
| Publish (update : MetadataUpdateMessage)
| HeartbeatTick (now : Z)
| SocketChanged (clientId : string) (socket : WebSocket).

Definition socketChanged (clientId : string) (socket : WebSocket)
    (s : WebSocketManager) : WebSocketManager :=
  match clients s !! clientId with
  | None => s
  | Some client =>
      {| clients := <[clientId := {| id := id client; ws := socket;
                                     client_subscriptions := client_subscriptions client;
                                     lastSeen := lastSeen client |}]> (clients s);
         subscriptions := subscriptions s;
         sent := sent s |}
  end.

Definition handle (config : WebSocketConfig) (e : Event) (s : WebSocketManager)
    : WebSocketManager :=
  match e with
  | Connection clientId socket now => handleConnection config clientId socket now s
  | Message clientId data now => handleMessage now clientId data s
  | Close clientId => handleDisconnection clientId s
  | SocketError clientId => handleDisconnection clientId s
  | PongFrame clientId now => handlePong now clientId s
  | Publish update => broadcastMetadataUpdate update s
  | HeartbeatTick now => heartbeatTick config now s
  | SocketChanged clientId socket => socketChanged clientId socket s
  end.

(** [uuidv4()] returns an id that no registered connection has. *)
Definition admissible (e : Event) (s : WebSocketManager) : Prop :=
  match e with
  | Connection clientId _ _ => clients s !! clientId = None
  | _ => True
  end.

Inductive reachable (config : WebSocketConfig) : WebSocketManager -> Prop :=
| reachable_initial : reachable config initial
| reachable_step e s :
    reachable config s -> admissible e s -> reachable config (handle config e s).

(** The subscription index is the union of the registered connections'
    subscription sets. *)
Definition index_matches_registry (s : WebSocketManager) : Prop :=
  forall resourceId clientId,
    clientId ∈ subscribersOf s resourceId <->
    exists client, clients s !! clientId = Some client /\
                   resourceId ∈ client_subscriptions client.

(** No index entry holds an empty subscriber set. *)
Definition no_empty_entries (s : WebSocketManager) : Prop :=
  forall resourceId subscribers,
    subscriptions s !! resourceId = Some subscribers -> subscribers <> ∅.

Definition consistent (s : WebSocketManager) : Prop :=
  index_matches_registry s /\ no_empty_entries s.

(** [sendToClient] reaches [client.ws.send] and the call throws. *)
Definition sendFails (s : WebSocketManager) (clientId : string) : bool :=
  match clients s !! clientId with
  | None => false
  | Some client =>
      bool_decide (readyState (ws client) = OPEN) && send_throws (ws client)
  end.

(** [sendToClient] reaches [client.ws.send] and the call returns. *)
Definition sendSucceeds (s : WebSocketManager) (clientId : string) : bool :=
  match clients s !! clientId with
  | None => false
  | Some client =>
      bool_decide (readyState (ws client) = OPEN) && negb (send_throws (ws client))
  end.

(** Members of an index entry, with a missing entry read as the empty set. *)
Definition members (index : gmap string (gset string)) (resourceId : string)
    : gset string :=
  default ∅ (index !! resourceId).

Definition entries_nonempty (index : gmap string (gset string)) : Prop :=
  forall resourceId subscribers,
    index !! resourceId = Some subscribers -> subscribers <> ∅.

(** The loop of [broadcastMetadataUpdate] over the visited ids [l]. *)
Definition fanOut (message : ServerMessage) (l : list string) (s : WebSocketManager)
    : WebSocketManager :=
  foldl (fun s clientId => sendToClient clientId message s) s l.

(** ** A concrete registry

    A registry with two open connections, [alice] whose socket fails its
    writes and [bob] whose socket accepts them, both subscribed to
    ["sales-chart-2024"], and [carol] whose socket is closing. *)
Definition demo_config : WebSocketConfig :=
  {| heartbeatInterval := 30000; maxConnections := 1000 |}.

Definition good_socket : WebSocket := {| readyState := OPEN; send_throws := false |}.
Definition bad_socket : WebSocket := {| readyState := OPEN; send_throws := true |}.
Definition closing_socket : WebSocket := {| readyState := CLOSING; send_throws := false |}.

Definition subscribe_to (resourceId : string) : option WebSocketMessage :=
  Some {| type := "subscribe"; msg_resourceId := resourceId |}.

Definition demo_events : list Event :=
  [ Connection "alice" good_socket 1;
    Connection "bob" good_socket 2;
    Connection "carol" good_socket 3;
    Message "alice" (subscribe_to "sales-chart-2024") 4;
    Message "bob" (subscribe_to "sales-chart-2024") 5;
    Message "carol" (subscribe_to "sales-chart-2024") 6;
    SocketChanged "alice" bad_socket;
    SocketChanged "carol" closing_socket ].

Definition demo_state : WebSocketManager :=
  foldl (fun s e => handle demo_config e s) initial demo_events.

Definition demo_update : MetadataUpdateMessage :=
  {| resourceId := "sales-chart-2024"; changeType := updated;
     timestamp := 7; metadata := Some "{}" |}.

End Server.


(* ===================================================================== *)
(** * Client transport: [WebSocketTransport] *)
(* ===================================================================== *)
Module Transport.

(** An outbound message object.  [EAMPClient] sends
    [{ action, resourceId }], the heartbeat sends [{ type: 'ping' }]. *)
Record WireMessage := {
  type : option string;
  action : option string;
  resourceId : option string;
}.

#[global] Instance WireMessage_eq_dec : EqDecision WireMessage.
Proof. solve_decision. Defined.

Definition ping : WireMessage :=
  {| type := Some "ping"; action := None; resourceId := None |}.

(** An inbound message after [JSON.parse]: the fields the client reads.
    [metadata] is the raw payload, [None] when absent (falsy). *)
Record WebSocketMessage := {
  in_type : string;
  in_resourceId : string;
  in_changeType : string;
  in_timestamp : string;
  in_metadata : option string;
}.

(** How one call of [ws.send] ends: it returns or throws, and leaves the
    socket in [stateAfter]. *)
Record SendOutcome := {
  throws : bool;
  stateAfter : ReadyState;
}.

Inductive PromiseState := Pending | Fulfilled | Rejected.

(** A [WebSocket] object of the [ws] library, as the transport uses it.
    [script] fixes how the next calls of [ws.send] end (past its end a
    call returns and leaves [readyState] alone); [written] logs the
    messages [ws.send] accepted and [closeCalls] the codes passed to
    [ws.close]; [opened] is the promise returned by the [connect()] call
    that created the socket. *)
Record Socket := {
  readyState : ReadyState;
  script : list SendOutcome;
  written : list WireMessage;
  closeCalls : list Z;
  opened : PromiseState;
}.

Definition newSocket : Socket :=
  {| readyState := CONNECTING; script := []; written := [];
     closeCalls := []; opened := Pending |}.

(** [ws.send(JSON.stringify(message))]: [true] when the call throws. *)
Definition ws_send (message : WireMessage) (sock : Socket) : bool * Socket :=
  match script sock with
  | [] =>
      (false, {| readyState := readyState sock; script := [];
                 written := written sock ++ [message];
                 closeCalls := closeCalls sock; opened := opened sock |})
  | outcome :: rest =>
      if throws outcome
      then (true, {| readyState := stateAfter outcome; script := rest;
                     written := written sock;
                     closeCalls := closeCalls sock; opened := opened sock |})
      else (false, {| readyState := stateAfter outcome; script := rest;
                      written := written sock ++ [message];
                      closeCalls := closeCalls sock; opened := opened sock |})
  end.

(** [ws.close(code, reason)]: the call is logged; a socket that is not yet
    closed starts closing. *)
Definition ws_close (code : Z) (sock : Socket) : Socket :=
  {| readyState := match readyState sock with CLOSED => CLOSED | _ => CLOSING end;
     script := script sock; written := written sock;
     closeCalls := closeCalls sock ++ [code]; opened := opened sock |}.

Definition set_readyState (st : ReadyState) (sock : Socket) : Socket :=
  {| readyState := st; script := script sock; written := written sock;
     closeCalls := closeCalls sock; opened := opened sock |}.

Definition set_script (sc : list SendOutcome) (sock : Socket) : Socket :=
  {| readyState := readyState sock; script := sc; written := written sock;
     closeCalls := closeCalls sock; opened := opened sock |}.

(** Settling a promise: only a pending promise changes. *)
Definition settle (outcome : PromiseState) (sock : Socket) : Socket :=
  {| readyState := readyState sock; script := script sock;
     written := written sock; closeCalls := closeCalls sock;
     opened := match opened sock with Pending => outcome | st => st end |}.

(** The errors the transport emits on its ['error'] event. *)
Inductive TransportError :=
| InvalidMessageFormat                 (* "Invalid WebSocket message format: ..." *)
| WebSocketError                       (* "WebSocket error: ..." *)
| FailedToReconnect (attempts : nat).  (* "Failed to reconnect after N attempts" *)

(** type [WebSocketTransportEvents] *)
Inductive TransportEvent :=
| ev_connected
| ev_disconnected
| ev_message (m : WebSocketMessage)
| ev_error (e : TransportError).

(** Where a call of the async function [reconnect()] stands. *)
Inductive CallState :=
| Sleeping (delay : Z)        (* suspended at [await this.sleep(delay)] *)
| Connecting (socket : nat)   (* suspended at [await this.connect()] *)
| Failed                      (* [connect()] rejected, [catch] block not yet run *)
| Returned.

(** The fields of [WebSocketTransport].  [ws] points into [sockets], the
    socket objects created so far.  [timers] is the set of armed timers of
    the runtime, [calls] the [reconnect()] calls made so far, [nextId] the
    next unused timer handle or call number, and [emitted] the events
    emitted to the listeners, oldest first. *)
Record WebSocketTransport := {
  ws : option nat;
  sockets : list Socket;
  reconnectAttempts : nat;
  isReconnecting : bool;
  messageQueue : list WireMessage;
  heartbeatInterval : option nat;
  heartbeatTimeoutId : option nat;
  timers : gset nat;
  calls : gmap nat CallState;
  nextId : nat;
  emitted : list TransportEvent;
}.

Definition maxReconnectAttempts : nat := 5.
Definition reconnectDelay : Z := 1000.

(** [new WebSocketTransport(url)] *)
Definition initial : WebSocketTransport :=
  {| ws := None; sockets := []; reconnectAttempts := 0; isReconnecting := false;
     messageQueue := []; heartbeatInterval := None; heartbeatTimeoutId := None;
     timers := ∅; calls := ∅; nextId := 0; emitted := [] |}.

(** Field updates. *)
Definition set_ws (v : option nat) (t : WebSocketTransport) :=
  {| ws := v; sockets := sockets t; reconnectAttempts := reconnectAttempts t;
     isReconnecting := isReconnecting t; messageQueue := messageQueue t;
     heartbeatInterval := heartbeatInterval t;
     heartbeatTimeoutId := heartbeatTimeoutId t; timers := timers t;
     calls := calls t; nextId := nextId t; emitted := emitted t |}.

Definition set_sockets (v : list Socket) (t : WebSocketTransport) :=
  {| ws := ws t; sockets := v; reconnectAttempts := reconnectAttempts t;
     isReconnecting := isReconnecting t; messageQueue := messageQueue t;
     heartbeatInterval := heartbeatInterval t;
     heartbeatTimeoutId := heartbeatTimeoutId t; timers := timers t;
     calls := calls t; nextId := nextId t; emitted := emitted t |}.

Definition set_reconnectAttempts (v : nat) (t : WebSocketTransport) :=
  {| ws := ws t; sockets := sockets t; reconnectAttempts := v;
     isReconnecting := isReconnecting t; messageQueue := messageQueue t;
     heartbeatInterval := heartbeatInterval t;
     heartbeatTimeoutId := heartbeatTimeoutId t; timers := timers t;
     calls := calls t; nextId := nextId t; emitted := emitted t |}.

Definition set_isReconnecting (v : bool) (t : WebSocketTransport) :=
  {| ws := ws t; sockets := sockets t; reconnectAttempts := reconnectAttempts t;
     isReconnecting := v; messageQueue := messageQueue t;
     heartbeatInterval := heartbeatInterval t;
     heartbeatTimeoutId := heartbeatTimeoutId t; timers := timers t;
     calls := calls t; nextId := nextId t; emitted := emitted t |}.

Definition set_messageQueue (v : list WireMessage) (t : WebSocketTransport) :=
  {| ws := ws t; sockets := sockets t; reconnectAttempts := reconnectAttempts t;
     isReconnecting := isReconnecting t; messageQueue := v;
     heartbeatInterval := heartbeatInterval t;
     heartbeatTimeoutId := heartbeatTimeoutId t; timers := timers t;
     calls := calls t; nextId := nextId t; emitted := emitted t |}.

Definition set_heartbeatInterval (v : option nat) (t : WebSocketTransport) :=
  {| ws := ws t; sockets := sockets t; reconnectAttempts := reconnectAttempts t;
     isReconnecting := isReconnecting t; messageQueue := messageQueue t;
     heartbeatInterval := v;
     heartbeatTimeoutId := heartbeatTimeoutId t; timers := timers t;
     calls := calls t; nextId := nextId t; emitted := emitted t |}.

Definition set_heartbeatTimeoutId (v : option nat) (t : WebSocketTransport) :=
  {| ws := ws t; sockets := sockets t; reconnectAttempts := reconnectAttempts t;
     isReconnecting := isReconnecting t; messageQueue := messageQueue t;
     heartbeatInterval := heartbeatInterval t;
     heartbeatTimeoutId := v; timers := timers t;
     calls := calls t; nextId := nextId t; emitted := emitted t |}.

Definition set_timers (v : gset nat) (t : WebSocketTransport) :=
  {| ws := ws t; sockets := sockets t; reconnectAttempts := reconnectAttempts t;
     isReconnecting := isReconnecting t; messageQueue := messageQueue t;
     heartbeatInterval := heartbeatInterval t;
     heartbeatTimeoutId := heartbeatTimeoutId t; timers := v;
     calls := calls t; nextId := nextId t; emitted := emitted t |}.

Definition set_calls (v : gmap nat CallState) (t : WebSocketTransport) :=
  {| ws := ws t; sockets := sockets t; reconnectAttempts := reconnectAttempts t;
     isReconnecting := isReconnecting t; messageQueue := messageQueue t;
     heartbeatInterval := heartbeatInterval t;
     heartbeatTimeoutId := heartbeatTimeoutId t; timers := timers t;
     calls := v; nextId := nextId t; emitted := emitted t |}.

Definition set_nextId (v : nat) (t : WebSocketTransport) :=
  {| ws := ws t; sockets := sockets t; reconnectAttempts := reconnectAttempts t;
     isReconnecting := isReconnecting t; messageQueue := messageQueue t;
     heartbeatInterval := heartbeatInterval t;
     heartbeatTimeoutId := heartbeatTimeoutId t; timers := timers t;
     calls := calls t; nextId := v; emitted := emitted t |}.

(** [this.emit(event, ...)] *)
Definition emit (e : TransportEvent) (t : WebSocketTransport) :=
  {| ws := ws t; sockets := sockets t; reconnectAttempts := reconnectAttempts t;
     isReconnecting := isReconnecting t; messageQueue := messageQueue t;
     heartbeatInterval := heartbeatInterval t;
     heartbeatTimeoutId := heartbeatTimeoutId t; timers := timers t;
     calls := calls t; nextId := nextId t; emitted := emitted t ++ [e] |}.

(** The socket object [this.ws] refers to. *)
Definition currentSocket (t : WebSocketTransport) : option Socket :=
  match ws t with
  | Some k => sockets t !! k
  | None => None
  end.

(** Apply [f] to the socket object number [k]. *)
Definition onSocket (k : nat) (f : Socket -> Socket) (t : WebSocketTransport) :=
  match sockets t !! k with
  | Some sock => set_sockets (<[k := f sock]> (sockets t)) t
  | None => t
  end.

(** [isConnected()] *)
Definition isConnected (t : WebSocketTransport) : bool :=
  match currentSocket t with
  | Some sock => bool_decide (readyState sock = OPEN)
  | None => false
  end.

(** [startHeartbeat()]: [setInterval] returns the fresh handle. *)
Definition startHeartbeat (t : WebSocketTransport) : WebSocketTransport :=
  let h := nextId t in
  set_heartbeatInterval (Some h)
    (set_timers (timers t ∪ {[h]}) (set_nextId (S h) t)).

(** [resetHeartbeatTimeout()] *)
Definition resetHeartbeatTimeout (t : WebSocketTransport) : WebSocketTransport :=
  match heartbeatTimeoutId t with
  | Some h => set_heartbeatTimeoutId None (set_timers (timers t ∖ {[h]}) t)
  | None => t
  end.

(** [stopHeartbeat()] *)
Definition stopHeartbeat (t : WebSocketTransport) : WebSocketTransport :=
  let t1 := match heartbeatInterval t with
            | Some h => set_heartbeatInterval None (set_timers (timers t ∖ {[h]}) t)
            | None => t
            end in
  resetHeartbeatTimeout t1.

(** The loop of [flushMessageQueue()] on the socket [this.ws]:
    returns what is left of the queue. *)
Fixpoint flushLoop (queue : list WireMessage) (sock : Socket)
    : list WireMessage * Socket :=
  match queue with
  | [] => ([], sock)
  | message :: rest =>
      if bool_decide (readyState sock = OPEN) then
        let (threw, sock') := ws_send message sock in
        if threw then (message :: rest, sock')
        else flushLoop rest sock'
      else (queue, sock)
  end.

(** [flushMessageQueue()] *)
Definition flushMessageQueue (t : WebSocketTransport) : WebSocketTransport :=
  match ws t with
  | Some k =>
      match sockets t !! k with
      | Some sock =>
          let (queue', sock') := flushLoop (messageQueue t) sock in
          set_messageQueue queue' (set_sockets (<[k := sock']> (sockets t)) t)
      | None => t
      end
  | None => t
  end.

(** [reconnect()] up to its first [await]; returns the number of the call. *)
Definition reconnect (t : WebSocketTransport) : nat * WebSocketTransport :=
  let call := nextId t in
  let t := set_nextId (S call) t in
  if isReconnecting t || bool_decide (maxReconnectAttempts ≤ reconnectAttempts t)
  then (call, set_calls (<[call := Returned]> (calls t)) t)
  else
    let attempts := S (reconnectAttempts t) in
    let delay := Z.min (reconnectDelay * 2 ^ (Z.of_nat attempts - 1)) 30000 in
    (call, set_calls (<[call := Sleeping delay]> (calls t))
             (set_reconnectAttempts attempts (set_isReconnecting true t))).

(** [connect()] up to the point where the promise is returned: [None] when
    the transport is connected (the promise is already resolved),
    [Some k] when socket number [k] was created and the promise waits for
    its ['open'] or ['error'] event.  (The [WebSocket] constructor is taken
    to return.) *)
Definition connect (t : WebSocketTransport) : option nat * WebSocketTransport :=
  if isConnected t then (None, t)
  else
    let k := length (sockets t) in
    (Some k, set_ws (Some k) (set_sockets (sockets t ++ [newSocket]) t)).

(** [reconnect()] resumed after [await this.sleep(delay)]. *)
Definition afterSleep (call : nat) (t : WebSocketTransport) : WebSocketTransport :=
  match calls t !! call with
  | Some (Sleeping _) =>
      match connect t with
      | (None, t') => set_calls (<[call := Returned]> (calls t')) t'
      | (Some k, t') => set_calls (<[call := Connecting k]> (calls t')) t'
      end
  | _ => t
  end.

(** The [catch] block of [reconnect()], run when [connect()] rejected. *)
Definition afterConnectFailed (call : nat) (t : WebSocketTransport)
    : WebSocketTransport :=
  match calls t !! call with
  | Some Failed =>
      let t := set_calls (<[call := Returned]> (calls t)) t in
      if bool_decide (maxReconnectAttempts ≤ reconnectAttempts t) then
        emit (ev_error (FailedToReconnect maxReconnectAttempts))
             (set_isReconnecting false t)
      else snd (reconnect t)
  | _ => t
  end.

(** Settle the [reconnect()] calls that wait for socket [k]. *)
Definition settleCalls (k : nat) (outcome : CallState)
    (cs : gmap nat CallState) : gmap nat CallState :=
  (fun st => match st with
             | Connecting k' => if bool_decide (k' = k) then outcome else st
             | _ => st
             end) <$> cs.

(** The ['open'] handler that [connect()] installs on socket [k].  The
    library has set the socket's [readyState] to OPEN; [sc] is how the
    socket's writes will end. *)
Definition onOpen (k : nat) (sc : list SendOutcome) (t : WebSocketTransport)
    : WebSocketTransport :=
  match sockets t !! k with
  | None => t
  | Some _ =>
      let t := onSocket k (fun sock => set_script sc (set_readyState OPEN sock)) t in
      let t := set_reconnectAttempts 0 t in
      let t := set_isReconnecting false t in
      let t := startHeartbeat t in
      let t := flushMessageQueue t in
      let t := emit ev_connected t in
      (* resolve() *)
      set_calls (settleCalls k Returned (calls t)) (onSocket k (settle Fulfilled) t)
  end.

(** The ['message'] handler; [data] is the outcome of [JSON.parse]. *)
Definition onMessage (k : nat) (data : option WebSocketMessage)
    (t : WebSocketTransport) : WebSocketTransport :=
  match sockets t !! k with
  | None => t
  | Some _ =>
      match data with
      | Some m =>
          if decide (in_type m = "pong") then resetHeartbeatTimeout t
          else emit (ev_message m) t
      | None => emit (ev_error InvalidMessageFormat) t
      end
  end.

(** The ['close'] handler; the library has set [readyState] to CLOSED. *)
Definition onClose (k : nat) (code : Z) (t : WebSocketTransport)
    : WebSocketTransport :=
  match sockets t !! k with
  | None => t
  | Some _ =>
      let t := onSocket k (set_readyState CLOSED) t in
      let t := stopHeartbeat t in
      let t := emit ev_disconnected t in
      if bool_decide (code ≠ 1000%Z) && negb (isReconnecting t)
         && bool_decide (reconnectAttempts t < maxReconnectAttempts)
      then snd (reconnect t)
      else t
  end.

(** The two ['error'] handlers of socket [k], in the order they were
    installed: the one of [setupEventHandlers] emits, the one of
    [connect()] rejects the promise. *)
Definition onError (k : nat) (t : WebSocketTransport) : WebSocketTransport :=
  match sockets t !! k with
  | None => t
  | Some sock =>
      let t := emit (ev_error WebSocketError) t in
      match opened sock with
      | Pending =>
          set_calls (settleCalls k Failed (calls t)) (onSocket k (settle Rejected) t)
      | _ => t
      end
  end.

(** How a call of [send] ends. *)
Inductive SendResult :=
| SendReturned
| SendThrew                    (* NetworkError "Failed to send WebSocket message" *)
| SendAwaits (call : nat).     (* suspended at [await this.reconnect()] *)

(** [send(message)] *)
Definition send (m : WireMessage) (t : WebSocketTransport)
    : SendResult * WebSocketTransport :=
  if isConnected t then
    match ws t, currentSocket t with
    | Some k, Some sock =>
        let (threw, sock') := ws_send m sock in
        (if threw then SendThrew else SendReturned,
         set_sockets (<[k := sock']> (sockets t)) t)
    | _, _ => (SendReturned, t)
    end
  else
    let t := set_messageQueue (messageQueue t ++ [m]) t in
    if isReconnecting t then (SendReturned, t)
    else let (call, t') := reconnect t in (SendAwaits call, t').

(** [disconnect()] *)
Definition disconnect (t : WebSocketTransport) : WebSocketTransport :=
  let t := stopHeartbeat t in
  let t := match ws t with
           | Some k => set_ws None (onSocket k (ws_close 1000) t)
           | None => t
           end in
  set_reconnectAttempts 0 (set_isReconnecting false (set_messageQueue [] t)).

(** The [setInterval] callback of [startHeartbeat], for the timer [h]. *)
Definition onHeartbeatInterval (h : nat) (t : WebSocketTransport)
    : WebSocketTransport :=
  if bool_decide (h ∈ timers t) && isConnected t then
    match ws t, currentSocket t with
    | Some k, Some sock =>
        let (threw, sock') := ws_send ping sock in
        let t := set_sockets (<[k := sock']> (sockets t)) t in
        if threw then t
        else
          let h' := nextId t in
          set_heartbeatTimeoutId (Some h')
            (set_timers (timers t ∪ {[h']}) (set_nextId (S h') t))
    | _, _ => t
    end
  else t.

(** The [setTimeout] callback armed by the heartbeat: no pong arrived. *)
Definition onHeartbeatTimeout (h : nat) (t : WebSocketTransport)
    : WebSocketTransport :=
  if bool_decide (h ∈ timers t) then
    let t := set_timers (timers t ∖ {[h]}) t in
    match ws t with
    | Some k => onSocket k (ws_close 1001) t
    | None => t
    end
  else t.

(** What can happen to a transport: events of its sockets, timers that
    fire, continuations of [reconnect()] that run, and calls of its public
    methods. *)
Inductive Event :=
| SocketOpen (k : nat) (sc : list SendOutcome)
| SocketMessage (k : nat) (data : option WebSocketMessage)
| SocketError (k : nat)
| SocketClose (k : nat) (code : Z)
| SleepElapsed (call : nat)
| CatchRuns (call : nat)
| HeartbeatInterval (h : nat)
| HeartbeatTimeout (h : nat)
| CallConnect
| CallSend (m : WireMessage)
| CallDisconnect.

Definition handle (e : Event) (t : WebSocketTransport) : WebSocketTransport :=
  match e with
  | SocketOpen k sc => onOpen k sc t
  | SocketMessage k data => onMessage k data t
  | SocketError k => onError k t
  | SocketClose k code => onClose k code t
  | SleepElapsed call => afterSleep call t
  | CatchRuns call => afterConnectFailed call t
  | HeartbeatInterval h => onHeartbeatInterval h t
  | HeartbeatTimeout h => onHeartbeatTimeout h t
  | CallConnect => snd (connect t)
  | CallSend m => snd (send m t)
  | CallDisconnect => disconnect t
  end.

Definition run (events : list Event) (t : WebSocketTransport) : WebSocketTransport :=
  foldl (fun t e => handle e t) t events.

(** The timer handles the transport holds. *)
Definition heldTimers (t : WebSocketTransport) : gset nat :=
  match heartbeatInterval t with Some h => {[h]} | None => ∅ end ∪
  match heartbeatTimeoutId t with Some h => {[h]} | None => ∅ end.

(** A call of [ws.send] that returns and leaves the socket OPEN. *)
Definition accepted : SendOutcome := {| throws := false; stateAfter := OPEN |}.

(** ** Concrete transports *)

Definition demo_message (r : string) : WireMessage :=
  {| type := None; action := Some "subscribe"; resourceId := Some r |}.

(** Three [send] calls on a fresh transport queue their messages and start
    a reconnection; after the sleep a socket is created. *)
Definition demo_connecting : WebSocketTransport :=
  run [CallSend (demo_message "a"); CallSend (demo_message "b");
       CallSend (demo_message "c"); SleepElapsed 0] initial.

(** A transport connected on socket 0. *)
Definition demo_open : WebSocketTransport :=
  run [CallConnect; SocketOpen 0 []] initial.

(** The connection drops with code 1006; the retry sleeps, creates
    socket 1, and that connection attempt fails (['error'], then ['close']
    with code 1006, then the [catch] block of [reconnect()] runs). *)
Definition demo_drop : list Event :=
  [SocketClose 0 1006; SleepElapsed 1; SocketError 1; SocketClose 1 1006;
   CatchRuns 1].

(** No [reconnect()] call is going to do anything any more. *)
Definition noRetryPending (t : WebSocketTransport) : Prop :=
  forall call st, calls t !! call = Some st -> st = Returned.

(** The events that are not an explicit [connect()] or [disconnect()] call
    and not the opening of a socket. *)
Definition quiet (e : Event) : bool :=
  match e with
  | SocketOpen _ _ | CallConnect | CallDisconnect => false
  | _ => true
  end.

(** The transport emitted its fatal "Failed to reconnect" error. *)
Definition gaveUp (t : WebSocketTransport) : Prop :=
  exists n, ev_error (FailedToReconnect n) ∈ emitted t.

(** At most one attempt is counted, and none while no reconnection is
    going on. *)
Definition boundedAttempts (t : WebSocketTransport) : Prop :=
  reconnectAttempts t <= 1 /\
  (isReconnecting t = false -> reconnectAttempts t = 0).



End Transport.

(* ===================================================================== *)
(** * Client: [EAMPClient] *)
(* ===================================================================== *)
Module Client.

Import Transport.

(** A validated [EAMPMetadata] value, kept as its JSON text. *)
Abbreviation EAMPMetadata := string (only parsing).

(** type [MetadataUpdate] *)
Record MetadataUpdate := {
  upd_resourceId : string;
  upd_changeType : string;
  upd_timestamp : string;
  upd_metadata : option EAMPMetadata;
}.

(** A listener registered with [client.on('metadataUpdated', fn)]:
    [lid] identifies the function, [throwsOn update] tells whether the call
    [fn(update)] ends with an exception. *)
Record Listener := {
  lid : nat;
  throwsOn : MetadataUpdate -> bool;
}.

Inductive ClientError :=
| TransportFailure (e : TransportError)   (* an error forwarded from the transport *)
| InvalidUpdateMessage.                   (* ValidationError "Invalid update message: ..." *)

(** What the client does that its environment can see, in order: cache
    writes, calls of [metadataUpdated] listeners (with the cache entry of
    the update's resource at the time of the call), and the other events
    it emits. *)
Inductive Observation :=
| CacheSet (resourceId : string) (metadata : EAMPMetadata)
| ListenerCalled (lid : nat) (update : MetadataUpdate) (cached : option EAMPMetadata)
| EmittedConnected
| EmittedDisconnected
| EmittedError (e : ClientError).

(** Where a call of the async methods [subscribe] / [unsubscribe] stands. *)
Inductive CallState :=
| SubscribeAtConnect (resourceId : string) (socket : option nat)
    (* at [await this.wsTransport.connect()]; [None]: the promise is
       already resolved, [Some k]: it waits for socket [k] *)
| SubscribeAtSend (resourceId : string) (result : SendResult)
    (* at [await this.wsTransport.send(...)] *)
| UnsubscribeAtSend (resourceId : string) (result : SendResult)
| Resolved
| Threw.

(** The fields of [EAMPClient].  [cache] is [None] when [cacheEnabled] is
    false, otherwise the entries of the [MemoryCache] (expiry bookkeeping
    left out); [listeners] are the [metadataUpdated] listeners in the order
    they were registered. *)
Record EAMPClient := {
  baseURL : option string;
  wsTransport : option WebSocketTransport;
  cache : option (gmap string EAMPMetadata);
  subscriptions : gset string;
  listeners : list Listener;
  calls : gmap nat CallState;
  nextCall : nat;
  observed : list Observation;
}.

(** [new EAMPClient(options)] *)
Definition create (url : option string) (cacheEnabled : bool)
    (ls : list Listener) : EAMPClient :=
  {| baseURL := url; wsTransport := None;
     cache := if cacheEnabled then Some ∅ else None;
     subscriptions := ∅; listeners := ls; calls := ∅; nextCall := 0;
     observed := [] |}.

Definition set_wsTransport (v : option WebSocketTransport) (c : EAMPClient) :=
  {| baseURL := baseURL c; wsTransport := v; cache := cache c;
     subscriptions := subscriptions c; listeners := listeners c;
     calls := calls c; nextCall := nextCall c; observed := observed c |}.

Definition set_cache (v : option (gmap string EAMPMetadata)) (c : EAMPClient) :=
  {| baseURL := baseURL c; wsTransport := wsTransport c; cache := v;
     subscriptions := subscriptions c; listeners := listeners c;
     calls := calls c; nextCall := nextCall c; observed := observed c |}.

Definition set_subscriptions (v : gset string) (c : EAMPClient) :=
  {| baseURL := baseURL c; wsTransport := wsTransport c; cache := cache c;
     subscriptions := v; listeners := listeners c;
     calls := calls c; nextCall := nextCall c; observed := observed c |}.

Definition set_call (call : nat) (st : CallState) (c : EAMPClient) :=
  {| baseURL := baseURL c; wsTransport := wsTransport c; cache := cache c;
     subscriptions := subscriptions c; listeners := listeners c;
     calls := <[call := st]> (calls c); nextCall := nextCall c;
     observed := observed c |}.

Definition observe (o : Observation) (c : EAMPClient) :=
  {| baseURL := baseURL c; wsTransport := wsTransport c; cache := cache c;
     subscriptions := subscriptions c; listeners := listeners c;
     calls := calls c; nextCall := nextCall c;
     observed := observed c ++ [o] |}.

(** A new call of an async method, in state [st]. *)
Definition newCall (st : CallState) (c : EAMPClient) : nat * EAMPClient :=
  (nextCall c,
   {| baseURL := baseURL c; wsTransport := wsTransport c; cache := cache c;
      subscriptions := subscriptions c; listeners := listeners c;
      calls := <[nextCall c := st]> (calls c); nextCall := S (nextCall c);
      observed := observed c |}).

(** [this.cache.get(resourceId)] (entry present). *)
Definition cached (resourceId : string) (c : EAMPClient) : option EAMPMetadata :=
  match cache c with
  | Some entries => entries !! resourceId
  | None => None
  end.

(** [this.emit('metadataUpdated', update)] as [eventemitter3] runs it: the
    listeners are called in registration order, and an exception thrown by
    a listener leaves [emit] at once.  Returns [true] when a listener
    threw. *)
Fixpoint emitMetadataUpdated (ls : list Listener) (update : MetadataUpdate)
    (c : EAMPClient) : bool * EAMPClient :=
  match ls with
  | [] => (false, c)
  | l :: rest =>
      let c := observe (ListenerCalled (lid l) update
                          (cached (upd_resourceId update) c)) c in
      if throwsOn l update then (true, c)
      else emitMetadataUpdated rest update c
  end.

Section WithSchema.

(** [EAMPMetadataSchema.parse]: [None] when it throws. *)
Variable EAMPMetadataSchema_parse : string -> option EAMPMetadata.

(** The ['message'] listener installed by [setupWebSocketHandlers]. *)
Definition onTransportMessage (m : WebSocketMessage) (c : EAMPClient) : EAMPClient :=
  if decide (in_type m = "metadata_updated") then
    let parsed :=
      match in_metadata m with
      | Some raw =>
          match EAMPMetadataSchema_parse raw with
          | Some metadata => Some (Some metadata)
          | None => None                       (* [parse] throws *)
          end
      | None => Some None
      end in
    match parsed with
    | None => observe (EmittedError InvalidUpdateMessage) c
    | Some metadata =>
        let update := {| upd_resourceId := in_resourceId m;
                         upd_changeType := in_changeType m;
                         upd_timestamp := in_timestamp m;
                         upd_metadata := metadata |} in
        let c := match cache c, metadata with
                 | Some entries, Some value =>
                     observe (CacheSet (in_resourceId m) value)
                       (set_cache (Some (<[in_resourceId m := value]> entries)) c)
                 | _, _ => c
                 end in
        let (threw, c) := emitMetadataUpdated (listeners c) update c in
        if threw then observe (EmittedError InvalidUpdateMessage) c else c
    end
  else c.

(** The listeners that [setupWebSocketHandlers] installs on the transport. *)
Definition onTransportEvent (e : TransportEvent) (c : EAMPClient) : EAMPClient :=
  match e with
  | ev_connected => observe EmittedConnected c
  | ev_disconnected => observe EmittedDisconnected c
  | ev_message m => onTransportMessage m c
  | ev_error err => observe (EmittedError (TransportFailure err)) c
  end.

(** Run a step of the transport and hand the events it emitted to the
    client's listeners.  (The listeners do not touch the transport, so
    running them after the transport's handler is the same as running them
    inside it.) *)
Definition withTransport (f : WebSocketTransport -> WebSocketTransport)
    (c : EAMPClient) : EAMPClient :=
  match wsTransport c with
  | None => c
  | Some t =>
      let t' := f t in
      foldl (fun c e => onTransportEvent e c)
            (set_wsTransport (Some t') c)
            (drop (length (emitted t)) (emitted t'))
  end.

Definition subscribeMessage (r : string) : WireMessage :=
  {| type := None; action := Some "subscribe"; resourceId := Some r |}.

Definition unsubscribeMessage (r : string) : WireMessage :=
  {| type := None; action := Some "unsubscribe"; resourceId := Some r |}.

(** [subscribe(resourceId)] up to its first [await]; returns the number of
    the call. *)
Definition subscribe (r : string) (c : EAMPClient) : nat * EAMPClient :=
  if decide (r = "") then newCall Threw c
  else if decide (r ∈ subscriptions c) then newCall Resolved c
  else
    let c := match wsTransport c, baseURL c with
             | None, Some url =>
                 if decide (url = "") then c
                 else set_wsTransport (Some Transport.initial) c
             | _, _ => c
             end in
    match wsTransport c with
    | None => newCall Threw c
    | Some t =>
        let (k, t') := connect t in
        newCall (SubscribeAtConnect r k) (set_wsTransport (Some t') c)
    end.

(** [subscribe] resumed after [await this.wsTransport.connect()]: the call
    of [send], up to the [await] on its result. *)
Definition subscribeSend (call : nat) (r : string) (c : EAMPClient) : EAMPClient :=
  match wsTransport c with
  | None => c
  | Some t =>
      let (result, t') := send (subscribeMessage r) t in
      withTransport (fun _ => t') (set_call call (SubscribeAtSend r result) c)
  end.

(** Whether the promise of a [send] call has settled, and how:
    [Some true] resolved, [Some false] rejected, [None] still pending. *)
Definition sendSettled (result : SendResult) (c : EAMPClient) : option bool :=
  match result with
  | SendReturned => Some true
  | SendThrew => Some false
  | SendAwaits rcall =>
      match wsTransport c with
      | Some t =>
          match Transport.calls t !! rcall with
          | Some Returned => Some true
          | _ => None
          end
      | None => None
      end
  end.

(** [unsubscribe(resourceId)] up to its first [await]. *)
Definition unsubscribe (r : string) (c : EAMPClient) : nat * EAMPClient :=
  if decide (r = "") then newCall Resolved c
  else if decide (r ∈ subscriptions c) then
    match wsTransport c with
    | Some t =>
        if isConnected t then
          let (result, t') := send (unsubscribeMessage r) t in
          newCall (UnsubscribeAtSend r result)
                  (withTransport (fun _ => t') c)
        else newCall Resolved (set_subscriptions (subscriptions c ∖ {[r]}) c)
    | None => newCall Resolved (set_subscriptions (subscriptions c ∖ {[r]}) c)
    end
  else newCall Resolved c.

(** The continuation of a suspended call, run when the promise it awaits
    has settled (otherwise nothing happens). *)
Definition resume (call : nat) (c : EAMPClient) : EAMPClient :=
  match calls c !! call with
  | Some (SubscribeAtConnect r None) => subscribeSend call r c
  | Some (SubscribeAtConnect r (Some k)) =>
      match wsTransport c with
      | Some t =>
          match opened <$> sockets t !! k with
          | Some Fulfilled => subscribeSend call r c
          | Some Rejected => set_call call Threw c
          | _ => c
          end
      | None => c
      end
  | Some (SubscribeAtSend r result) =>
      match sendSettled result c with
      | Some true =>
          set_call call Resolved (set_subscriptions (subscriptions c ∪ {[r]}) c)
      | Some false => set_call call Threw c
      | None => c
      end
  | Some (UnsubscribeAtSend r result) =>
      match sendSettled result c with
      | Some true =>
          set_call call Resolved (set_subscriptions (subscriptions c ∖ {[r]}) c)
      | Some false => set_call call Threw c
      | None => c
      end
  | _ => c
  end.

(** What can happen to a client. *)
Inductive Event :=
| OfTransport (e : Transport.Event)
| Subscribe (resourceId : string)
| Unsubscribe (resourceId : string)
| Resume (call : nat).

Definition handle (e : Event) (c : EAMPClient) : EAMPClient :=
  match e with
  | OfTransport e => withTransport (Transport.handle e) c
  | Subscribe r => snd (subscribe r c)
  | Unsubscribe r => snd (unsubscribe r c)
  | Resume call => resume call c
  end.

Definition run (events : list Event) (c : EAMPClient) : EAMPClient :=
  foldl (fun c e => handle e c) c events.

End WithSchema.

(** ** Notions used to state the claims *)

(** The listeners one [emit('metadataUpdated', update)] calls: those
    before the first one that throws, and that one. *)
Fixpoint calledListeners (ls : list Listener) (update : MetadataUpdate)
    : list Listener :=
  match ls with
  | [] => []
  | l :: rest =>
      l :: (if throwsOn l update then [] else calledListeners rest update)
  end.

Definition someThrows (ls : list Listener) (update : MetadataUpdate) : bool :=
  existsb (fun l => throwsOn l update) ls.

(** Every registered listener was called with [update]. *)
Definition everyListenerCalled (c : EAMPClient) (update : MetadataUpdate) : Prop :=
  forall l, l ∈ listeners c ->
    exists v, ListenerCalled (lid l) update v ∈ observed c.

(** The messages written so far to socket number [k] of the transport. *)
Definition writtenOn (k : nat) (c : EAMPClient) : list WireMessage :=
  match wsTransport c with
  | Some t => default [] (written <$> sockets t !! k)
  | None => []
  end.

(** Socket [k] carries exactly one subscribe message for every subscribed
    resourceId. *)
Definition resubscribed (k : nat) (c : EAMPClient) : Prop :=
  forall r, r ∈ subscriptions c ->
    length (filter (fun m => m = subscribeMessage r) (writtenOn k c)) = 1.

(** ** Concrete clients *)

Definition demo_parse (raw : string) : option EAMPMetadata :=
  if decide (raw = "") then None else Some raw.

(** A client that subscribed to three resources on socket 0. *)
Definition demo_subscribed : EAMPClient :=
  run demo_parse
    [ Subscribe "r1"; OfTransport (SocketOpen 0 []); Resume 0; Resume 0;
      Subscribe "r2"; Resume 1; Resume 1;
      Subscribe "r3"; Resume 2; Resume 2 ]
    (create (Some "http://localhost:3000") true []).

(** Socket 0 closes with code 1006, the retry sleeps, socket 1 is created
    and opens. *)
Definition demo_reconnect : list Event :=
  [ OfTransport (SocketClose 0 1006); OfTransport (SleepElapsed 1);
    OfTransport (SocketOpen 1 []) ].

(** The same client after socket 0 closed with code 1006 and the retry
    created socket 1, and its transport. *)
Definition demo_reconnecting : EAMPClient :=
  run demo_parse [ OfTransport (SocketClose 0 1006); OfTransport (SleepElapsed 1) ]
      demo_subscribed.

Definition demo_reconnecting_transport : WebSocketTransport :=
  default Transport.initial (wsTransport demo_reconnecting).

(** The same client once socket 1 has opened. *)
Definition demo_reconnected : EAMPClient :=
  run demo_parse demo_reconnect demo_subscribed.

(** Three listeners; the second one throws. *)
Definition demo_listeners : list Listener :=
  [ {| lid := 1; throwsOn := fun _ => false |};
    {| lid := 2; throwsOn := fun _ => true |};
    {| lid := 3; throwsOn := fun _ => false |} ].

Definition demo_update_message : WebSocketMessage :=
  {| in_type := "metadata_updated"; in_resourceId := "r1";
     in_changeType := "updated"; in_timestamp := "2024-01-01T00:00:00Z";
     in_metadata := Some "{...}" |}.

Definition demo_update : MetadataUpdate :=
  {| upd_resourceId := "r1"; upd_changeType := "updated";
     upd_timestamp := "2024-01-01T00:00:00Z"; upd_metadata := Some "{...}" |}.

End Client.

(* ===================================================================== *)
(** * React provider: [EAMPProvider] *)
(* ===================================================================== *)
Module Provider.

Import Transport.

(** A JavaScript [Set] of callbacks, in insertion order.  A callback is
    identified by a number (the identity of the function object). *)
Abbreviation CallbackSet := (list nat) (only parsing).

(** [callbacks.add(callback)] *)
Definition set_add (callback : nat) (callbacks : CallbackSet) : CallbackSet :=
  if decide (callback ∈ callbacks) then callbacks else callbacks ++ [callback].

(** [callbacks.delete(callback)] *)
Definition set_delete (callback : nat) (callbacks : CallbackSet) : CallbackSet :=
  filter (fun x => x ≠ callback) callbacks.

(** What the provider did that can be seen from outside, in order. *)
Inductive Observation :=
| Sent (m : WireMessage)                       (* [client.ws.send(JSON.stringify(m))] *)
| CallbackCalled (callback : nat) (metadata : string)
| ConsoleError.                                (* "Error parsing WebSocket message" *)

(** The state the provider's functions work on.  [ws] is what the
    expression [client.ws] yields: [None] for [undefined], otherwise the
    socket's [readyState].  [messageListeners] counts the ['message']
    listeners the effect has added to that socket.  [heap] holds the [Set]
    objects created so far, and [subscriptions]
    ([subscriptionsRef.current]) maps a resourceId to the address of its
    [Set] in [heap]. *)
Record EAMPProvider := {
  ws : option ReadyState;
  messageListeners : nat;
  heap : list CallbackSet;
  subscriptions : gmap string nat;
  trace : list Observation;
}.

(** The provider at its first render.  [client] is
    [new EAMPClient(options)] (l.26).  The class [EAMPClient] declares the
    members [options], [httpTransport], [wsTransport], [cache] and
    [subscriptions] (see [Client.EAMPClient]) and extends [EventEmitter];
    neither has a member [ws], and no code assigns one.  So [client.ws] is
    [undefined] for the client the provider works with, and nothing the
    provider does changes that. *)
Definition initial : EAMPProvider :=
  {| ws := None; messageListeners := 0; heap := []; subscriptions := ∅;
     trace := [] |}.

(** The function [subscribe] returns: it has captured [resourceId], the
    [Set] object [callbacks] (by address) and [callback]. *)
Record Handle := {
  h_resourceId : string;
  h_callbacks : nat;
  h_callback : nat;
}.

Definition subscribeMessage (r : string) : WireMessage :=
  {| type := Some "subscribe"; action := None; resourceId := Some r |}.

Definition unsubscribeMessage (r : string) : WireMessage :=
  {| type := Some "unsubscribe"; action := None; resourceId := Some r |}.

Definition observe (o : Observation) (p : EAMPProvider) : EAMPProvider :=
  {| ws := ws p; messageListeners := messageListeners p; heap := heap p;
     subscriptions := subscriptions p; trace := trace p ++ [o] |}.

(** [if (client.ws && client.ws.readyState === WebSocket.OPEN)
       client.ws.send(JSON.stringify(m))] *)
Definition sendIfOpen (m : WireMessage) (p : EAMPProvider) : EAMPProvider :=
  match ws p with
  | Some OPEN => observe (Sent m) p
  | _ => p
  end.

(** [subscribe(resourceId, callback)] *)
Definition subscribe (r : string) (callback : nat) (p : EAMPProvider)
    : Handle * EAMPProvider :=
  let p := match subscriptions p !! r with
           | Some _ => p
           | None =>
               sendIfOpen (subscribeMessage r)
                 {| ws := ws p; messageListeners := messageListeners p;
                    heap := heap p ++ [[]];
                    subscriptions := <[r := length (heap p)]> (subscriptions p);
                    trace := trace p |}
           end in
  match subscriptions p !! r with
  | Some a =>
      ({| h_resourceId := r; h_callbacks := a; h_callback := callback |},
       {| ws := ws p; messageListeners := messageListeners p;
          heap := alter (set_add callback) a (heap p);
          subscriptions := subscriptions p; trace := trace p |})
  | None => ({| h_resourceId := r; h_callbacks := 0; h_callback := callback |}, p)
  end.

(** The function returned by [subscribe], called. *)
Definition release (h : Handle) (p : EAMPProvider) : EAMPProvider :=
  let p := {| ws := ws p; messageListeners := messageListeners p;
              heap := alter (set_delete (h_callback h)) (h_callbacks h) (heap p);
              subscriptions := subscriptions p; trace := trace p |} in
  match heap p !! h_callbacks h with
  | Some [] =>
      sendIfOpen (unsubscribeMessage (h_resourceId h))
        {| ws := ws p; messageListeners := messageListeners p; heap := heap p;
           subscriptions := delete (h_resourceId h) (subscriptions p);
           trace := trace p |}
  | _ => p
  end.

(** [unsubscribe(resourceId)] *)
Definition unsubscribe (r : string) (p : EAMPProvider) : EAMPProvider :=
  match subscriptions p !! r with
  | Some _ =>
      sendIfOpen (unsubscribeMessage r)
        {| ws := ws p; messageListeners := messageListeners p; heap := heap p;
           subscriptions := delete r (subscriptions p); trace := trace p |}
  | None => p
  end.

(** [callbacks.forEach(callback => callback(metadata))]: the callbacks are
    called in insertion order; an exception leaves the loop.  [throwsOn]
    tells which calls end with an exception.  Returns [true] when a
    callback threw. *)
Fixpoint forEach (throwsOn : nat -> string -> bool) (callbacks : CallbackSet)
    (metadata : string) (p : EAMPProvider) : bool * EAMPProvider :=
  match callbacks with
  | [] => (false, p)
  | callback :: rest =>
      let p := observe (CallbackCalled callback metadata) p in
      if throwsOn callback metadata then (true, p)
      else forEach throwsOn rest metadata p
  end.

(** The function the effect passes to
    [client.ws.addEventListener('message', ...)] (l.48-61), called with an
    event.  [data] is the outcome of [JSON.parse(event.data)]: the
    message's [type], [resourceId] and [metadata], or [None] when parsing
    throws. *)
Definition messageListener (throwsOn : nat -> string -> bool)
    (data : option (string * string * string)) (p : EAMPProvider) : EAMPProvider :=
  match data with
  | None => observe ConsoleError p
  | Some (msg_type, r, metadata) =>
      if decide (msg_type = "metadata_updated") then
        match subscriptions p !! r with
        | Some a =>
            match heap p !! a with
            | Some callbacks =>
                let (threw, p') := forEach throwsOn callbacks metadata p in
                if threw then observe ConsoleError p' else p'
            | None => p
            end
        | None => p
        end
      else p
  end.

(** The effect (l.31-62), run after a render.  Without [autoConnect] it
    returns at once.  The listeners are added only under [if (client.ws)];
    the ['message'] listener is an anonymous function, so every run that
    gets there adds one more.  [client.connect] is [undefined] as well
    ([EAMPClient] has no such method), so the effect connects nothing. *)
Definition effect (autoConnect : bool) (p : EAMPProvider) : EAMPProvider :=
  if autoConnect then
    match ws p with
    | Some _ =>
        {| ws := ws p; messageListeners := S (messageListeners p); heap := heap p;
           subscriptions := subscriptions p; trace := trace p |}
    | None => p
    end
  else p.

(** A ['message'] event of the socket [client.ws]: the listeners added to
    it run.  Without a socket there is no such event. *)
Definition onMessage (throwsOn : nat -> string -> bool)
    (data : option (string * string * string)) (p : EAMPProvider) : EAMPProvider :=
  match ws p with
  | Some _ => Nat.iter (messageListeners p) (messageListener throwsOn data) p
  | None => p
  end.

(** What can happen to a provider: its effect runs, a component calls one
    of the functions of the context value or a function [subscribe]
    returned, and the socket [client.ws] reports a message. *)
Inductive Event :=
| EffectRuns (autoConnect : bool)
| CallSubscribe (resourceId : string) (callback : nat)
| CallRelease (h : Handle)
| CallUnsubscribe (resourceId : string)
| SocketMessage (data : option (string * string * string)).

Definition handle (throwsOn : nat -> string -> bool) (e : Event)
    (p : EAMPProvider) : EAMPProvider :=
  match e with
  | EffectRuns autoConnect => effect autoConnect p
  | CallSubscribe r callback => snd (subscribe r callback p)
  | CallRelease h => release h p
  | CallUnsubscribe r => unsubscribe r p
  | SocketMessage data => onMessage throwsOn data p
  end.

Definition run (throwsOn : nat -> string -> bool) (events : list Event)
    (p : EAMPProvider) : EAMPProvider :=
  foldl (fun p e => handle throwsOn e p) p events.

(** [N] calls of [subscribe] for one resourceId, first to last. *)
Fixpoint subscribeAll (r : string) (callbacks : list nat) (p : EAMPProvider)
    : list Handle * EAMPProvider :=
  match callbacks with
  | [] => ([], p)
  | callback :: rest =>
      let (h, p) := subscribe r callback p in
      let (hs, p) := subscribeAll r rest p in
      (h :: hs, p)
  end.



(** ** Notions used to state the claims *)

(** The handle [subscribe] returns for [callback] when the [Set] of the
    resource lives at address [a]. *)
Definition handleOf (r : string) (a : nat) (callback : nat) : Handle :=
  {| h_resourceId := r; h_callbacks := a; h_callback := callback |}.


(** No callback has been called. *)
Definition noCallbackCalled (p : EAMPProvider) : Prop :=
  forall callback metadata, CallbackCalled callback metadata ∉ trace p.

End Provider.

(* ===================================================================== *)
(** * Server: [WebSocketManager.getStats] *)
(* ===================================================================== *)
Module ServerStats.

Import Server.

(** The object [getStats()] returns. *)
Record Stats := {
  connectedClients : nat;
  totalSubscriptions : nat;
  resourcesWithSubscriptions : nat;
}.

(** [getStats()]: [totalSubscriptions] is summed over the registered
    connections. *)
Definition getStats (s : WebSocketManager) : Stats :=
  {| connectedClients := size (clients s);
     totalSubscriptions :=
       map_fold (fun _ client total => total + size (client_subscriptions client))
                0 (clients s);
     resourcesWithSubscriptions := size (subscriptions s) |}.

(** The number of (resource, subscriber) pairs the index holds. *)
Definition indexedPairs (s : WebSocketManager) : nat :=
  map_fold (fun _ (subscribers : gset string) total => total + size subscribers)
           0 (subscriptions s).

End ServerStats.

(* ===================================================================== *)
(** * Client transport: transports with more than one socket *)
(* ===================================================================== *)
Module TransportScenario.

Import Transport.

(** On a connected transport the heartbeat pings (timer 0), no pong
    arrives and the timeout (timer 1) closes socket 0 with code 1001; while
    that socket is still closing, a [send] queues its message and starts a
    reconnection (call 2), which creates socket 1; socket 1 opens.  The
    ['close'] event of socket 0 has not been delivered yet. *)
Definition demo_replaced : WebSocketTransport :=
  run [HeartbeatInterval 0; HeartbeatTimeout 1; CallSend (demo_message "a");
       SleepElapsed 2; SocketOpen 1 []] demo_open.

(** [connect()] is called twice before any socket has opened (two sockets
    are created, [this.ws] is the second), and the first socket opens. *)
Definition demo_two_connects : WebSocketTransport :=
  run [CallConnect; CallConnect; SocketOpen 0 []] initial.




End TransportScenario.

(* ===================================================================== *)
(** * Client: [EAMPClient.unsubscribeAll] and [EAMPClient.disconnect] *)
(* ===================================================================== *)
Module ClientLifecycle.

Import Transport Client.

Definition set_listeners (v : list Listener) (c : EAMPClient) : EAMPClient :=
  {| baseURL := baseURL c; wsTransport := wsTransport c; cache := cache c;
     subscriptions := subscriptions c; listeners := v;
     calls := calls c; nextCall := nextCall c; observed := observed c |}.

Section WithSchema.

Variable EAMPMetadataSchema_parse : string -> option EAMPMetadata.

(** [resourceIds.map(id => this.unsubscribe(id))]: the calls are started in
    turn, each running up to its first [await]; returns their numbers. *)
Definition startAll (resourceIds : list string) (c : EAMPClient)
    : list nat * EAMPClient :=
  foldl (fun acc r =>
           let (call, c') := unsubscribe EAMPMetadataSchema_parse r (snd acc) in
           (fst acc ++ [call], c'))
        ([], c) resourceIds.

(** How [Promise.all] over the calls [started] stands: [Some true] when
    every call has resolved, [Some false] when one has thrown, [None]
    while neither is the case. *)
Definition allSettled (started : list nat) (c : EAMPClient) : option bool :=
  if existsb (fun call => match calls c !! call with
                          | Some Threw => true
                          | _ => false
                          end) started
  then Some false
  else if forallb (fun call => match calls c !! call with
                               | Some Resolved => true
                               | _ => false
                               end) started
  then Some true
  else None.

(** [unsubscribeAll()].  Every promise the started calls await is settled
    by the time it is awaited ([send] on a connected transport does not
    wait), so their continuations run, in the order the calls were
    started, before anything else happens to the client.  The ids are
    taken in the order [elements] lists them (the model of the [Set] does
    not keep the insertion order).  Returns how [Promise.all] ends. *)
Definition unsubscribeAll (c : EAMPClient) : option bool * EAMPClient :=
  let (started, c) := startAll (elements (subscriptions c)) c in
  let c := foldl (fun c call => resume EAMPMetadataSchema_parse call c) c started in
  (allSettled started c, c).

(** [disconnect()]: [Some true] when it resolves, [Some false] when it
    rejects (at [await this.unsubscribeAll()]). *)
Definition disconnect (c : EAMPClient) : option bool * EAMPClient :=
  let (outcome, c) := unsubscribeAll c in
  match outcome with
  | Some true =>
      let c := withTransport EAMPMetadataSchema_parse Transport.disconnect c in
      (* removeAllListeners(); emit('disconnected') *)
      (Some true, observe EmittedDisconnected (set_listeners [] c))
  | _ => (outcome, c)
  end.



End WithSchema.

(** The transport points to the same socket as before, every socket has
    the [close] calls it had, and the heartbeat timers are as they were. *)
Definition connectionUntouched (c c' : EAMPClient) : Prop :=
  match wsTransport c, wsTransport c' with
  | Some t, Some t' =>
      ws t' = ws t /\
      closeCalls <$> sockets t' = closeCalls <$> sockets t /\
      heartbeatInterval t' = heartbeatInterval t /\
      timers t' = timers t
  | None, None => True
  | _, _ => False
  end.

(** [demo_subscribed] with a socket whose next write throws and leaves the
    socket OPEN. *)
Definition demo_failing_write : EAMPClient :=
  set_wsTransport
    (option_map (onSocket 0 (set_script [{| throws := true; stateAfter := OPEN |}]))
                (wsTransport demo_subscribed))
    demo_subscribed.


End ClientLifecycle.

(* ===================================================================== *)
(** * SDK errors: [utils/errors] *)
(* ===================================================================== *)
Module Errors.

(** A thrown value.  [EAMPClientError] stands for the class and its
    subclasses, which differ in their [code]; [SyntaxError] is what
    [JSON.parse] / [response.json()] throw on malformed text; every other
    exception ([TypeError], [ZodError], ...) is an [OtherError]. *)
Inductive Error :=
| EAMPClientError (message : string) (code : string)
| SyntaxError (message : string)
| OtherError (message : string).

(** [new EAMPClientError(message)]: the default [code]. *)
Definition defaultError (message : string) : Error :=
  EAMPClientError message "EAMP_ERROR".

Definition ResourceNotFoundError (message : string) : Error :=
  EAMPClientError message "RESOURCE_NOT_FOUND".

Definition ValidationError (message : string) : Error :=
  EAMPClientError message "VALIDATION_ERROR".

Definition NetworkError (message : string) : Error :=
  EAMPClientError message "NETWORK_ERROR".

(** [error.message] *)
Definition message_of (e : Error) : string :=
  match e with
  | EAMPClientError message _ => message
  | SyntaxError message => message
  | OtherError message => message
  end.

(** [error instanceof EAMPClientError] *)
Definition isEAMPClientError (e : Error) : bool :=
  match e with
  | EAMPClientError _ _ => true
  | _ => false
  end.

(** The outcome of an expression that may throw. *)
Definition Result (A : Type) : Type := A + Error.

(** [try { body } catch (error) { handler(error) }] *)
Definition try_catch {A} (body : Result A) (handler : Error -> Result A) : Result A :=
  match body with
  | inl a => inl a
  | inr error => handler error
  end.

End Errors.

(* ===================================================================== *)
(** * [MemoryCache] *)
(* ===================================================================== *)
Module MemoryCache.

Section WithValue.

Variable T : Type.

(** interface [CacheEntry<T>] *)
Record CacheEntry := {
  value : T;
  expiresAt : Z;
  createdAt : Z;
  lastAccessed : Z;
  accessCount : nat;
}.

(** The fields of [MemoryCache]: the [Map] of entries and the default
    time to live, in milliseconds.  (The interval timer that calls
    [cleanup] periodically is the environment's business: it shows up as
    calls of [cleanup].) *)
Record MemoryCache := {
  cache : gmap string CacheEntry;
  ttl : Z;
}.

(** [new MemoryCache(ttl)], with the default of five minutes. *)
Definition create (ttl : option Z) : MemoryCache :=
  {| cache := ∅; ttl := default 300000%Z ttl |}.

(** [get(key)]; [now] is the value of [Date.now()] during the call. *)
Definition get (now : Z) (key : string) (c : MemoryCache) : option T * MemoryCache :=
  match cache c !! key with
  | None => (None, c)
  | Some entry =>
      if decide (expiresAt entry < now)%Z then
        (None, {| cache := delete key (cache c); ttl := ttl c |})
      else
        (Some (value entry),
         {| cache := <[key := {| value := value entry;
                                 expiresAt := expiresAt entry;
                                 createdAt := createdAt entry;
                                 lastAccessed := now;
                                 accessCount := S (accessCount entry) |}]> (cache c);
            ttl := ttl c |})
  end.

(** [set(key, value, customTTL)] *)
Definition set (now : Z) (key : string) (v : T) (customTTL : option Z)
    (c : MemoryCache) : MemoryCache :=
  let ttl' := default (ttl c) customTTL in
  {| cache := <[key := {| value := v; expiresAt := (now + ttl')%Z;
                          createdAt := now; lastAccessed := now;
                          accessCount := 0 |}]> (cache c);
     ttl := ttl c |}.

(** [has(key)]: [this.get(key) !== null], with the effects of [get]. *)
Definition has (now : Z) (key : string) (c : MemoryCache) : bool * MemoryCache :=
  let (v, c') := get now key c in
  (match v with Some _ => true | None => false end, c').

(** [delete(key)] *)
Definition delete (key : string) (c : MemoryCache) : bool * MemoryCache :=
  (match cache c !! key with Some _ => true | None => false end,
   {| cache := base.delete key (cache c); ttl := ttl c |}).

(** [clear()] *)
Definition clear (c : MemoryCache) : MemoryCache :=
  {| cache := ∅; ttl := ttl c |}.

(** [size()] *)
Definition size (c : MemoryCache) : nat := base.size (cache c).

(** One round of the loop of [cleanup()], for the entry [(key, entry)]. *)
Definition cleanupStep (now : Z) (key : string) (entry : CacheEntry)
    (acc : nat * MemoryCache) : nat * MemoryCache :=
  if decide (expiresAt entry < now)%Z then
    (S (fst acc),
     {| cache := base.delete key (cache (snd acc)); ttl := ttl (snd acc) |})
  else acc.

(** [cleanup()]: the loop visits the entries the [Map] holds on entry;
    deleting the entry being visited does not disturb the iteration.
    Returns [removedCount]. *)
Definition cleanup (now : Z) (c : MemoryCache) : nat * MemoryCache :=
  map_fold (cleanupStep now) (0, c) (cache c).

(** Successive calls of [get(key)], at the times [times]. *)
Fixpoint getMany (times : list Z) (key : string) (c : MemoryCache) : MemoryCache :=
  match times with
  | [] => c
  | now :: rest => getMany rest key (snd (get now key c))
  end.

End WithValue.

Arguments value {T}.
Arguments expiresAt {T}.
Arguments createdAt {T}.
Arguments lastAccessed {T}.
Arguments accessCount {T}.
Arguments cache {T}.
Arguments ttl {T}.
Arguments get {T}.
Arguments set {T}.
Arguments has {T}.
Arguments delete {T}.
Arguments clear {T}.
Arguments size {T}.
Arguments cleanupStep {T}.
Arguments cleanup {T}.
Arguments getMany {T}.

(** A cache with a default TTL of 300000 ms holding ["a"] (set at time 0)
    and ["b"] (set at time 1000 with a TTL of 500 ms). *)
Definition demo_cache : MemoryCache string :=
  set 1000 "b" "B" (Some 500%Z) (set 0 "a" "A" None (create string None)).

End MemoryCache.

(* ===================================================================== *)
(** * [HttpTransport] *)
(* ===================================================================== *)
Module Http.

Import Errors.

(** How [response.json()] ends. *)
Inductive JsonOutcome :=
| JsonValue (data : string)          (* the parsed value, kept as its text *)
| JsonSyntaxError (message : string) (* the body is not JSON *)
| JsonFails (message : string).      (* reading the body fails *)

(** The part of a [fetch] [Response] the client reads. *)
Record Response := {
  ok : bool;
  status : Z;
  statusText : string;
  json : JsonOutcome;
}.

(** How one call of [makeRequest] goes, as far as the environment decides
    it: [fetch] resolves with a response, is aborted by the timeout,
    rejects with a [TypeError] or with something else; or an exception is
    thrown before [fetch] is reached ([new URL], [JSON.stringify]). *)
Inductive AttemptOutcome :=
| Responds (response : Response)
| Aborted
| FetchTypeError (message : string)
| FetchRejects (message : string)
| ThrowsBeforeFetch (message : string).

(** The options [HttpTransport] reads. *)
Record Options := {
  baseURL : option string;
  timeout : Z;
  retryAttempts : nat;
}.

(** [makeRequest(method, path, body)] *)
Definition makeRequest (options : Options) (outcome : AttemptOutcome)
    : Result Response :=
  match baseURL options with
  | None => inr (defaultError "Base URL is required for HTTP transport")
  | Some url =>
      if decide (url = "") then
        inr (defaultError "Base URL is required for HTTP transport")
      else
        match outcome with
        | ThrowsBeforeFetch message => inr (OtherError message)
        | Responds response => inl response
        | Aborted =>
            inr (NetworkError ("Request timeout after " +:+ pretty (timeout options)
                               +:+ "ms"))
        | FetchTypeError message => inr (NetworkError ("Network error: " +:+ message))
        | FetchRejects message => inr (NetworkError ("Request failed: " +:+ message))
        end
  end.

(** The test of [request] for errors that are not retried. *)
Definition notRetried (error : Error) : bool :=
  match error with
  | EAMPClientError _ code =>
      bool_decide (code = "RESOURCE_NOT_FOUND") || bool_decide (code = "VALIDATION_ERROR")
  | _ => false
  end.

(** The delay slept after the failed attempt number [attempt]. *)
Definition backoff (attempt : nat) : Z :=
  Z.min (1000 * 2 ^ Z.of_nat attempt) 10000.

(** The loop of [request], from attempt number [attempt] on, with
    [remaining = retryAttempts - attempt].  [env attempt] is how attempt
    number [attempt] goes; [slept] collects the delays passed to [sleep].
    Returns the response or the error thrown, and the delays slept. *)
Fixpoint requestLoop (options : Options) (env : nat -> AttemptOutcome)
    (remaining attempt : nat) (slept : list Z) : Result Response * list Z :=
  match makeRequest options (env attempt) with
  | inl response => (inl response, slept)
  | inr error =>
      if notRetried error then (inr error, slept)
      else
        match remaining with
        | 0 => (inr error, slept)
        | S remaining' =>
            requestLoop options env remaining' (S attempt) (slept ++ [backoff attempt])
        end
  end.

(** [request(method, path, body)], for a whole number of [retryAttempts]. *)
Definition request (options : Options) (env : nat -> AttemptOutcome)
    : Result Response * list Z :=
  requestLoop options env (retryAttempts options) 0 [].

(** [get(path)]; [post], [put] and [delete] delegate to [request] in the
    same way. *)
Definition get (options : Options) (env : nat -> AttemptOutcome)
    : Result Response * list Z :=
  request options env.

(** The options [ClientOptionsSchema] fills in by default, for a base URL. *)
Definition defaultOptions (url : option string) : Options :=
  {| baseURL := url; timeout := 30000; retryAttempts := 3 |}.

Definition demo_response : Response :=
  {| ok := true; status := 200; statusText := "OK"; json := JsonValue "{...}" |}.

(** A network on which the first two attempts time out and the third
    gets a response. *)
Definition demo_env (attempt : nat) : AttemptOutcome :=
  if decide (attempt < 2) then Aborted else Responds demo_response.

End Http.

(* ===================================================================== *)
(** * [EAMPClient]: fetching metadata *)
(* ===================================================================== *)
Module Fetch.

Import Errors Http.

(** A validated [EAMPMetadata] value, kept as its JSON text. *)
Abbreviation EAMPMetadata := string (only parsing).

(** The fields of [EAMPClient] that [getMetadata] and [refreshMetadata]
    work on: the options and the cache ([None] when [cacheEnabled] is
    false). *)
Record EAMPClient := {
  options : Options;
  cache : option (MemoryCache.MemoryCache EAMPMetadata);
}.

(** [new EAMPClient(options)] *)
Definition create (options : Options) (cacheEnabled : bool) (cacheTTL : option Z)
    : EAMPClient :=
  {| options := options;
     cache := if cacheEnabled then Some (MemoryCache.create EAMPMetadata cacheTTL)
              else None |}.

Section WithSchemas.

(** [EAMPMetadataSchema.parse] and [EAMPErrorSchema.parse]: the parsed
    value, or the error thrown. *)
Variable EAMPMetadataSchema_parse : string -> Result EAMPMetadata.
Variable EAMPErrorSchema_parse : string -> Result (string * string).

(** [await response.json()] *)
Definition readJson (response : Response) : Result string :=
  match json response with
  | JsonValue data => inl data
  | JsonSyntaxError message => inr (SyntaxError message)
  | JsonFails message => inr (OtherError message)
  end.

(** The branch of [getMetadata] for a response that is not [ok] and not a
    404; it always throws:
<<
        try {
          const errorData = await response.json();
          const parsedError = EAMPErrorSchema.parse(errorData);
          throw new EAMPClientError(parsedError.error.message, parsedError.error.code);
        } catch {
          throw new NetworkError(`HTTP ${response.status}: ${response.statusText}`);
        }
>> *)
Definition errorResponse (response : Response) : Result EAMPMetadata :=
  try_catch
    (match readJson response with
     | inr error => inr error
     | inl errorData =>
         match EAMPErrorSchema_parse errorData with
         | inr error => inr error
         | inl (message, code) => inr (EAMPClientError message code)
         end
     end)
    (fun _ => inr (NetworkError ("HTTP " +:+ pretty (status response) +:+ ": "
                                 +:+ statusText response))).

(** The body of the outer [try] of [getMetadata], from the response on, up
    to the value that is cached and returned. *)
Definition readMetadata (resourceId : string) (response : Response)
    : Result EAMPMetadata :=
  if negb (ok response) then
    if decide (status response = 404%Z) then
      inr (ResourceNotFoundError ("Resource not found: " +:+ resourceId))
    else errorResponse response
  else
    match readJson response with
    | inr error => inr error
    | inl data => EAMPMetadataSchema_parse data
    end.

(** The outer [catch] of [getMetadata]. *)
Definition rethrow (error : Error) : Result EAMPMetadata :=
  if isEAMPClientError error then inr error
  else
    match error with
    | SyntaxError _ => inr (ValidationError "Invalid JSON response from server")
    | _ => inr (NetworkError ("Failed to fetch metadata: " +:+ message_of error))
    end.

(** The cache check at the start of [getMetadata]:
<<
    if (this.cache) {
      const cached = this.cache.get(resourceId);
      if (cached) return cached;
    }
>>
    [Some cached] when it returns. *)
Definition lookupCache (now : Z) (resourceId : string) (c : EAMPClient)
    : option EAMPMetadata * EAMPClient :=
  match cache c with
  | Some entries =>
      let (cached, entries') := MemoryCache.get now resourceId entries in
      (cached, {| options := options c; cache := Some entries' |})
  | None => (None, c)
  end.

(** [if (this.cache) this.cache.set(resourceId, metadata)] *)
Definition storeInCache (now : Z) (resourceId : string) (metadata : EAMPMetadata)
    (c : EAMPClient) : EAMPClient :=
  {| options := options c;
     cache := match cache c with
              | Some entries =>
                  Some (MemoryCache.set now resourceId metadata None entries)
              | None => None
              end |}.

(** [getMetadata(resourceId)].  [now] is the time of the cache look-up,
    [now'] the time at which the fetched value is cached, and [env] how
    the attempts of the HTTP request go.  Returns the value or the error
    thrown, the delays slept by the request, and the client. *)
Definition getMetadata (now now' : Z) (resourceId : string)
    (env : nat -> AttemptOutcome) (c : EAMPClient)
    : Result EAMPMetadata * list Z * EAMPClient :=
  if decide (resourceId = "") then
    (inr (defaultError "Resource ID is required"), [], c)
  else
    let (hit, c) := lookupCache now resourceId c in
    match hit with
    | Some cached => (inl cached, [], c)
    | None =>
        let (fetched, slept) := Http.get (options c) env in
        let body :=
          match fetched with
          | inr error => inr error
          | inl response => readMetadata resourceId response
          end in
        match try_catch body rethrow with
        | inl metadata => (inl metadata, slept, storeInCache now' resourceId metadata c)
        | inr error => (inr error, slept, c)
        end
    end.

(** [refreshMetadata(resourceId)] *)
Definition refreshMetadata (now now' : Z) (resourceId : string)
    (env : nat -> AttemptOutcome) (c : EAMPClient)
    : Result EAMPMetadata * list Z * EAMPClient :=
  let c := {| options := options c;
              cache := match cache c with
                       | Some entries => Some (snd (MemoryCache.delete resourceId entries))
                       | None => None
                       end |} in
  getMetadata now now' resourceId env c.

(** [clearCache()] *)
Definition clearCache (c : EAMPClient) : EAMPClient :=
  {| options := options c;
     cache := match cache c with
              | Some entries => Some (MemoryCache.clear entries)
              | None => None
              end |}.

End WithSchemas.

(** The codes an [EAMPClientError] thrown by [getMetadata] can carry. *)
Definition getMetadataCodes : list string :=
  ["EAMP_ERROR"; "RESOURCE_NOT_FOUND"; "NETWORK_ERROR"; "VALIDATION_ERROR"].

(** Schemas for the examples: every text but the empty one is valid
    metadata; an error body is valid when it is ["{error}"]. *)
Definition demo_parse (data : string) : Result EAMPMetadata :=
  if decide (data = "") then inr (OtherError "Required") else inl data.

Definition demo_parseError (data : string) : Result (string * string) :=
  if decide (data = "{error}") then inl ("Too many requests", "RATE_LIMIT_ERROR")
  else inr (OtherError "Required").

Definition demo_client : EAMPClient :=
  create (defaultOptions (Some "http://localhost:3000")) true None.

(** A server that answers 429 with a well-formed EAMP error body. *)
Definition demo_rate_limited : Response :=
  {| ok := false; status := 429; statusText := "Too Many Requests";
     json := JsonValue "{error}" |}.

End Fetch.

(* ===================================================================== *)
(** * Utility functions of the React SDK *)
(* ===================================================================== *)
Module Utils.

(** [text.substring(0, n)] for a whole number [n]: a negative bound counts
    as 0, a bound past the end as the length.  (A character of the Rocq
    string stands for a UTF-16 code unit.) *)
Definition substring0 (n : Z) (text : string) : string :=
  String.substring 0 (Z.to_nat n) text.

(** [truncateText(text, maxLength)], for a whole number [maxLength]. *)
Definition truncateText (text : string) (maxLength : Z) : string :=
  if decide (Z.of_nat (String.length text) <= maxLength)%Z then text
  else substring0 (maxLength - 3) text +:+ "...".

End Utils.
(* ===================================================================== *)
(** * Facts about the server *)
(* ===================================================================== *)
Module ServerFacts.
Import Server.

Lemma members_removeSubscriber index c r r' c' :
  c' ∈ members (removeSubscriber c r index) r' <->
  c' ∈ members index r' /\ ~ (r' = r /\ c' = c).
Proof.
  unfold members, removeSubscriber.
  destruct (index !! r) as [subscribers|] eqn:Hr.
  - case_decide as Hsz.
    + apply size_empty_inv in Hsz. apply leibniz_equiv in Hsz.
      destruct (decide (r' = r)) as [->|Hne].
      * rewrite lookup_delete_eq, Hr. simpl. set_solver.
      * rewrite lookup_delete_ne by done. naive_solver.
    + destruct (decide (r' = r)) as [->|Hne].
      * rewrite lookup_insert_eq, Hr. simpl. set_solver.
      * rewrite lookup_insert_ne by done. naive_solver.
  - destruct (decide (r' = r)) as [->|Hne].
    + rewrite Hr. simpl. set_solver.
    + naive_solver.
Qed.

Lemma entries_nonempty_removeSubscriber index c r :
  entries_nonempty index -> entries_nonempty (removeSubscriber c r index).
Proof.
  intros Hne r' subscribers'. unfold removeSubscriber.
  destruct (index !! r) as [subscribers|] eqn:Hr; [|by apply Hne].
  case_decide as Hsz.
  - destruct (decide (r' = r)) as [->|Hd].
    + by rewrite lookup_delete_eq.
    + rewrite lookup_delete_ne by done. apply Hne.
  - destruct (decide (r' = r)) as [->|Hd].
    + rewrite lookup_insert_eq. intros [= <-] Hempty.
      apply Hsz. rewrite Hempty. apply size_empty.
    + rewrite lookup_insert_ne by done. apply Hne.
Qed.

Lemma members_remove_all c (l : list string) : forall index r' c',
  c' ∈ members (foldl (fun index resourceId => removeSubscriber c resourceId index) index l) r' <->
  c' ∈ members index r' /\ ~ (r' ∈ l /\ c' = c).
Proof.
  induction l as [|r l IH]; intros index r' c'; simpl.
  - set_solver.
  - rewrite IH, members_removeSubscriber. rewrite elem_of_cons. naive_solver.
Qed.

Lemma entries_nonempty_remove_all c (l : list string) : forall index,
  entries_nonempty index ->
  entries_nonempty (foldl (fun index resourceId => removeSubscriber c resourceId index) index l).
Proof.
  induction l as [|r l IH]; intros index H; simpl; [done|].
  apply IH. by apply entries_nonempty_removeSubscriber.
Qed.

Lemma subscribersOf_members s r : subscribersOf s r = members (subscriptions s) r.
Proof. reflexivity. Qed.

(** Effect of [handleDisconnection] on the registry. *)
Lemma handleDisconnection_clients c s c' :
  clients (handleDisconnection c s) !! c' =
  if decide (c' = c) then None else clients s !! c'.
Proof.
  unfold handleDisconnection.
  destruct (clients s !! c) as [client|] eqn:Hc; simpl.
  - case_decide as Hd; [subst; apply lookup_delete_eq|by apply lookup_delete_ne].
  - case_decide; congruence.
Qed.

Lemma handleDisconnection_sent c s : sent (handleDisconnection c s) = sent s.
Proof. unfold handleDisconnection. by destruct (clients s !! c). Qed.

(** Effect of [handleDisconnection] on the index: only the pairs of the
    disconnected connection go away. *)
Lemma handleDisconnection_members c s r c' :
  c' ∈ subscribersOf (handleDisconnection c s) r <->
  c' ∈ subscribersOf s r /\
  ~ (c' = c /\ exists client, clients s !! c = Some client /\
                              r ∈ client_subscriptions client).
Proof.
  unfold handleDisconnection.
  destruct (clients s !! c) as [client|] eqn:Hc.
  - rewrite !subscribersOf_members. simpl. rewrite members_remove_all.
    rewrite elem_of_elements. naive_solver.
  - naive_solver.
Qed.

Lemma handleDisconnection_consistent c s :
  consistent s -> consistent (handleDisconnection c s).
Proof.
  intros [Hidx Hne]. split.
  - intros r c'. rewrite handleDisconnection_members, handleDisconnection_clients.
    rewrite (Hidx r c'). case_decide as Hd.
    + subst c'. naive_solver.
    + naive_solver.
  - unfold handleDisconnection. destruct (clients s !! c); [|done].
    unfold no_empty_entries. simpl. by apply entries_nonempty_remove_all.
Qed.

(** [consistent] only looks at the index and at the subscription set of
    each registered connection. *)
Lemma consistent_ext s s' :
  subscriptions s' = subscriptions s ->
  (forall c, client_subscriptions <$> clients s' !! c =
             client_subscriptions <$> clients s !! c) ->
  consistent s -> consistent s'.
Proof.
  intros Hsub Hcl [Hidx Hne]. split.
  - intros r c. unfold subscribersOf. rewrite Hsub.
    specialize (Hidx r c). unfold subscribersOf in Hidx. rewrite Hidx.
    specialize (Hcl c).
    destruct (clients s' !! c) as [a|], (clients s !! c) as [b|];
      simpl in Hcl; try discriminate; [|naive_solver].
    injection Hcl as Hcl. split; intros (x & [= <-] & Hx); eexists; split; eauto; congruence.
  - unfold no_empty_entries. rewrite Hsub. exact Hne.
Qed.

Lemma sendToClient_spec c m s :
  sendToClient c m s =
  if sendFails s c then handleDisconnection c s
  else if sendSucceeds s c
       then {| clients := clients s; subscriptions := subscriptions s;
               sent := sent s ++ [(c, m)] |}
       else s.
Proof.
  unfold sendToClient, sendFails, sendSucceeds.
  destruct (clients s !! c) as [client|]; [|done].
  case_decide as Hopen.
  - rewrite bool_decide_eq_true_2 by done. simpl. by destruct (send_throws (ws client)).
  - rewrite bool_decide_eq_false_2 by done. done.
Qed.

Lemma sendToClient_consistent c m s :
  consistent s -> consistent (sendToClient c m s).
Proof.
  intros H. rewrite sendToClient_spec.
  destruct (sendFails s c); [by apply handleDisconnection_consistent|].
  destruct (sendSucceeds s c); [|done].
  by apply (consistent_ext s).
Qed.

Lemma handleConnection_consistent config c socket now s :
  clients s !! c = None -> consistent s ->
  consistent (handleConnection config c socket now s).
Proof.
  intros Hfresh [Hidx Hne]. unfold handleConnection.
  case_decide; [done|]. apply sendToClient_consistent. split.
  - intros r c'. unfold subscribersOf. simpl.
    specialize (Hidx r c'). unfold subscribersOf in Hidx. rewrite Hidx.
    destruct (decide (c' = c)) as [->|Hd].
    + rewrite lookup_insert_eq, Hfresh. split.
      * intros (? & [=] & _).
      * intros (? & [= <-] & Hin). simpl in Hin. set_solver.
    + by rewrite lookup_insert_ne.
  - exact Hne.
Qed.

Lemma handleSubscription_consistent now c message s :
  consistent s -> consistent (handleSubscription now c message s).
Proof.
  intros [Hidx Hne]. unfold handleSubscription.
  destruct (clients s !! c) as [client|] eqn:Hc; [|done].
  apply sendToClient_consistent.
  set (r := msg_resourceId message).
  assert (Hmem : forall r' c',
    c' ∈ members (alter (fun subscribers : gset string => subscribers ∪ {[c]}) r
           (match subscriptions s !! r with
            | None => <[r := ∅]> (subscriptions s)
            | Some _ => subscriptions s
            end)) r' <->
    c' ∈ members (subscriptions s) r' \/ (r' = r /\ c' = c)).
  { intros r' c'. unfold members. rewrite lookup_alter.
    destruct (decide (r = r')) as [<-|Hd].
    - destruct (subscriptions s !! r) as [old|] eqn:Hr.
      + rewrite Hr. simpl. set_solver.
      + rewrite lookup_insert_eq. simpl. set_solver.
    - destruct (subscriptions s !! r) as [old|] eqn:Hr.
      + naive_solver.
      + rewrite lookup_insert_ne by done. naive_solver. }
  split.
  - intros r' c'. rewrite subscribersOf_members. simpl. rewrite Hmem.
    specialize (Hidx r' c'). rewrite subscribersOf_members in Hidx. rewrite Hidx.
    destruct (decide (c' = c)) as [->|Hd].
    + rewrite lookup_insert_eq, Hc. split.
      * intros [(x & [= <-] & Hin)|[-> _]]; eexists; split; eauto; simpl; set_solver.
      * intros (x & [= <-] & Hin). simpl in Hin.
        apply elem_of_union in Hin as [Hin|Hin]; [left; eauto|].
        right. set_solver.
    + rewrite lookup_insert_ne by done. naive_solver.
  - intros r' subscribers'. simpl. rewrite lookup_alter.
    destruct (decide (r = r')) as [<-|Hd].
    + destruct (subscriptions s !! r) as [old|] eqn:Hr.
      * rewrite Hr. simpl. intros [= <-]. set_solver.
      * rewrite lookup_insert_eq. simpl. intros [= <-]. set_solver.
    + destruct (subscriptions s !! r) as [old|] eqn:Hr.
      * apply Hne.
      * rewrite lookup_insert_ne by done. apply Hne.
Qed.

Lemma handleUnsubscription_consistent now c message s :
  consistent s -> consistent (handleUnsubscription now c message s).
Proof.
  intros [Hidx Hne]. unfold handleUnsubscription.
  destruct (clients s !! c) as [client|] eqn:Hc; [|done].
  apply sendToClient_consistent. split.
  - intros r' c'. rewrite subscribersOf_members. simpl.
    rewrite members_removeSubscriber.
    specialize (Hidx r' c'). rewrite subscribersOf_members in Hidx. rewrite Hidx.
    destruct (decide (c' = c)) as [->|Hd].
    + rewrite lookup_insert_eq, Hc. split.
      * intros [(x & [= <-] & Hin) Hnot]. eexists; split; eauto. simpl.
        apply elem_of_difference. split; [done|]. set_solver.
      * intros (x & [= <-] & Hin). simpl in Hin.
        apply elem_of_difference in Hin as [Hin Hnot].
        split; [eauto|]. set_solver.
    + rewrite lookup_insert_ne by done. naive_solver.
  - unfold no_empty_entries. simpl. by apply entries_nonempty_removeSubscriber.
Qed.

Lemma touch_consistent now c client s :
  clients s !! c = Some client -> consistent s -> consistent (touch now c client s).
Proof.
  intros Hc. apply consistent_ext; [done|]. intros c'. simpl.
  destruct (decide (c' = c)) as [->|Hd].
  - by rewrite lookup_insert_eq, Hc.
  - by rewrite lookup_insert_ne.
Qed.

Lemma handleMessage_consistent now c data s :
  consistent s -> consistent (handleMessage now c data s).
Proof.
  intros H. unfold handleMessage.
  destruct (clients s !! c) as [client|] eqn:Hc; [|done].
  pose proof (touch_consistent now c client s Hc H) as H1.
  destruct data as [message|].
  - repeat case_decide.
    + by apply sendToClient_consistent.
    + by apply handleSubscription_consistent.
    + by apply handleUnsubscription_consistent.
    + by apply sendToClient_consistent.
  - by apply sendToClient_consistent.
Qed.

Lemma broadcastMetadataUpdate_consistent update s :
  consistent s -> consistent (broadcastMetadataUpdate update s).
Proof.
  intros H. unfold broadcastMetadataUpdate.
  destruct (subscriptions s !! resourceId update) as [subscribers|]; [|done].
  case_decide; [done|].
  revert s H. induction (elements subscribers) as [|c l IH]; intros s H; simpl; [done|].
  apply IH. by apply sendToClient_consistent.
Qed.

Lemma heartbeatTick_consistent config now s :
  consistent s -> consistent (heartbeatTick config now s).
Proof.
  intros H. unfold heartbeatTick.
  generalize (map_to_list (clients s)). intros l.
  revert s H. induction l as [|entry l IH]; intros s H; simpl; [done|].
  apply IH. case_decide; [by apply handleDisconnection_consistent|done].
Qed.

Lemma handle_consistent config e s :
  admissible e s -> consistent s -> consistent (handle config e s).
Proof.
  intros Hadm H. destruct e; simpl in *.
  - by apply handleConnection_consistent.
  - by apply handleMessage_consistent.
  - by apply handleDisconnection_consistent.
  - by apply handleDisconnection_consistent.
  - unfold handlePong. destruct (clients s !! clientId) eqn:Hc; [|done].
    by apply touch_consistent.
  - by apply broadcastMetadataUpdate_consistent.
  - by apply heartbeatTick_consistent.
  - unfold socketChanged. destruct (clients s !! clientId) as [client|] eqn:Hc; [|done].
    revert H. apply consistent_ext; [done|]. intros c'. simpl.
    destruct (decide (c' = clientId)) as [->|Hd].
    + by rewrite lookup_insert_eq, Hc.
    + by rewrite lookup_insert_ne.
Qed.

Lemma initial_consistent : consistent initial.
Proof.
  split.
  - intros r c. unfold subscribersOf. simpl. rewrite !lookup_empty. simpl.
    split; [set_solver|]. intros (? & [=] & _).
  - intros r subscribers. simpl. by rewrite lookup_empty.
Qed.

Lemma reachable_consistent config s : reachable config s -> consistent s.
Proof.
  induction 1 as [|e s Hr IH Hadm]; [apply initial_consistent|].
  by apply handle_consistent.
Qed.

(** ** The fan-out loop, one visit at a time *)

Lemma sendToClient_clients c m s c' :
  clients (sendToClient c m s) !! c' =
  if bool_decide (c' = c) && sendFails s c then None else clients s !! c'.
Proof.
  rewrite sendToClient_spec. destruct (sendFails s c) eqn:Hf.
  - rewrite handleDisconnection_clients. rewrite andb_true_r.
    case_decide; [by rewrite bool_decide_eq_true_2|by rewrite bool_decide_eq_false_2].
  - rewrite andb_false_r. by destruct (sendSucceeds s c).
Qed.

Lemma sendToClient_sendSucceeds c m s c' :
  sendSucceeds (sendToClient c m s) c' = sendSucceeds s c'.
Proof.
  unfold sendSucceeds at 1. rewrite sendToClient_clients.
  destruct (bool_decide (c' = c) && sendFails s c) eqn:Hb; [|done].
  apply andb_true_iff in Hb as [Heq Hf]. apply bool_decide_eq_true in Heq. subst c'.
  unfold sendFails in Hf. unfold sendSucceeds.
  destruct (clients s !! c) as [client|]; [|done].
  apply andb_true_iff in Hf as [-> ->]. done.
Qed.

Lemma sendToClient_sendFails c m s c' :
  sendFails (sendToClient c m s) c' = negb (bool_decide (c' = c)) && sendFails s c'.
Proof.
  unfold sendFails at 1. rewrite sendToClient_clients.
  case_bool_decide as Heq; simpl.
  - subst c'. destruct (sendFails s c) eqn:Hf; [done|]. exact Hf.
  - done.
Qed.

Lemma sendToClient_sent c m s :
  sent (sendToClient c m s) =
  sent s ++ (if sendSucceeds s c then [(c, m)] else []).
Proof.
  rewrite sendToClient_spec. destruct (sendFails s c) eqn:Hf.
  - rewrite handleDisconnection_sent.
    assert (sendSucceeds s c = false) as ->; [|by rewrite app_nil_r].
    unfold sendFails in Hf. unfold sendSucceeds.
    destruct (clients s !! c) as [client|]; [|done].
    apply andb_true_iff in Hf as [-> ->]. done.
  - destruct (sendSucceeds s c); [done|by rewrite app_nil_r].
Qed.

Lemma sendToClient_members c m s r c' :
  c' ∈ subscribersOf (sendToClient c m s) r <->
  c' ∈ subscribersOf s r /\
  ~ (c' = c /\ sendFails s c = true /\
     exists client, clients s !! c = Some client /\ r ∈ client_subscriptions client).
Proof.
  rewrite sendToClient_spec. destruct (sendFails s c) eqn:Hf.
  - rewrite handleDisconnection_members. naive_solver.
  - destruct (sendSucceeds s c); naive_solver.
Qed.

Lemma fanOut_sendSucceeds m l : forall s c',
  sendSucceeds (fanOut m l s) c' = sendSucceeds s c'.
Proof.
  induction l as [|c l IH]; intros s c'; simpl; [done|].
  unfold fanOut in *. simpl. by rewrite IH, sendToClient_sendSucceeds.
Qed.

Lemma fanOut_clients m l : forall s c',
  clients (fanOut m l s) !! c' =
  if bool_decide (c' ∈ l) && sendFails s c' then None else clients s !! c'.
Proof.
  induction l as [|c l IH]; intros s c'.
  - simpl. done.
  - unfold fanOut in *. simpl. rewrite IH.
    rewrite sendToClient_sendFails, sendToClient_clients.
    destruct (decide (c' = c)) as [->|Hd].
    + rewrite (bool_decide_eq_true_2 (c = c)) by done. simpl.
      rewrite andb_false_r.
      rewrite (bool_decide_eq_true_2 (c ∈ c :: l)) by (apply elem_of_cons; by left).
      simpl. done.
    + rewrite (bool_decide_eq_false_2 (c' = c)) by done. simpl.
      erewrite bool_decide_ext; [done|]. rewrite elem_of_cons. naive_solver.
Qed.

Lemma fanOut_sent m l : forall s,
  sent (fanOut m l s) =
  sent s ++ ((fun c => (c, m)) <$> filter (fun c => sendSucceeds s c = true) l).
Proof.
  induction l as [|c l IH]; intros s.
  - simpl. by rewrite app_nil_r.
  - unfold fanOut in *. simpl. rewrite IH, sendToClient_sent, <- app_assoc. f_equal.
    rewrite filter_cons.
    assert (Hfil : filter (fun c0 => sendSucceeds (sendToClient c m s) c0 = true) l =
                   filter (fun c0 => sendSucceeds s c0 = true) l).
    { apply list_filter_iff. intros x. by rewrite sendToClient_sendSucceeds. }
    rewrite Hfil. destruct (sendSucceeds s c) eqn:Hs.
    + rewrite decide_True by done. done.
    + rewrite decide_False by done. done.
Qed.

Lemma fanOut_members m l : forall s r c',
  c' ∈ subscribersOf (fanOut m l s) r <->
  c' ∈ subscribersOf s r /\
  ~ (c' ∈ l /\ sendFails s c' = true /\
     exists client, clients s !! c' = Some client /\ r ∈ client_subscriptions client).
Proof.
  induction l as [|c l IH]; intros s r c'.
  - simpl. split; [|naive_solver]. intros H. split; [done|].
    intros [Hin _]. by apply not_elem_of_nil in Hin.
  - unfold fanOut in *. simpl. rewrite IH, sendToClient_members.
    rewrite sendToClient_sendFails, sendToClient_clients, elem_of_cons.
    destruct (decide (c' = c)) as [->|Hd].
    + rewrite (bool_decide_eq_true_2 (c = c)) by done. simpl. naive_solver.
    + rewrite (bool_decide_eq_false_2 (c' = c)) by done. simpl. naive_solver.
Qed.

Lemma broadcastMetadataUpdate_fanOut update s :
  broadcastMetadataUpdate update s =
  fanOut (msg_metadata_updated update)
         (elements (subscribersOf s (resourceId update))) s.
Proof.
  unfold broadcastMetadataUpdate, subscribersOf.
  destruct (subscriptions s !! resourceId update) as [subscribers|]; simpl.
  - case_decide as Hsz; [|done].
    apply size_empty_inv in Hsz. apply leibniz_equiv in Hsz. subst.
    by rewrite elements_empty.
  - by rewrite elements_empty.
Qed.

(** ** The heartbeat sweep leaves fresh connections alone *)

Lemma heartbeat_sweep_keeps config now c (l : list (string * ClientConnection)) :
  forall s,
  (forall client, (c, client) ∈ l ->
     ~ (heartbeatInterval config * 2 < now - lastSeen client)%Z) ->
  clients (foldl (fun s entry =>
                    if decide (heartbeatInterval config * 2 < now - lastSeen (snd entry))%Z
                    then handleDisconnection (fst entry) s else s) s l) !! c
  = clients s !! c.
Proof.
  induction l as [|[c0 client0] l IH]; intros s Hfresh; simpl; [done|].
  rewrite IH.
  - case_decide as Hstale; [|done].
    rewrite handleDisconnection_clients. case_decide as Heq; [|done].
    subst c0. exfalso. apply (Hfresh client0); [|done]. apply elem_of_cons. by left.
  - intros client Hin. apply Hfresh. apply elem_of_cons. by right.
Qed.

Lemma heartbeatTick_keeps config now c s :
  (forall client, clients s !! c = Some client ->
     (now - lastSeen client <= heartbeatInterval config * 2)%Z) ->
  clients (heartbeatTick config now s) !! c = clients s !! c.
Proof.
  intros H. unfold heartbeatTick. apply heartbeat_sweep_keeps.
  intros client Hin. apply elem_of_map_to_list in Hin.
  specialize (H client Hin). lia.
Qed.

(** ** Claims about the server *)

Lemma demo_state_reachable : reachable demo_config demo_state.
Proof.
  unfold demo_state, demo_events. cbn [foldl].
  repeat (apply reachable_step; [|vm_compute; done]).
  apply reachable_initial.
Qed.

(** C2. At every reachable state of the server the subscription index is
    the union, over the registered connections, of each connection's
    subscription set, and no index entry holds an empty set; a disconnect
    removes the connection and every one of its index entries in that one
    step, and neither a disconnect nor an unsubscribe leaves an empty entry
    behind. *)
Theorem C2_index_is_union_of_connection_sets config s :
  reachable config s ->
  index_matches_registry s /\ no_empty_entries s /\
  (forall clientId,
     let s' := handleDisconnection clientId s in
     clients s' !! clientId = None /\
     (forall resourceId, clientId ∉ subscribersOf s' resourceId) /\
     index_matches_registry s' /\ no_empty_entries s') /\
  (forall now clientId message,
     let s' := handleUnsubscription now clientId message s in
     index_matches_registry s' /\ no_empty_entries s').
Proof.
  intros Hr. pose proof (reachable_consistent _ _ Hr) as Hc.
  destruct Hc as [Hidx Hne].
  split; [done|]. split; [done|]. split.
  - intros clientId s'. subst s'.
    destruct (handleDisconnection_consistent clientId s (conj Hidx Hne)) as [Hidx' Hne'].
    repeat split; try done.
    + rewrite handleDisconnection_clients. by rewrite decide_True.
    + intros resourceId Hin. apply handleDisconnection_members in Hin as [Hin Hnot].
      apply Hidx in Hin. naive_solver.
    + apply Hidx'.
    + apply Hidx'.
  - intros now clientId message s'. subst s'.
    by apply (handleUnsubscription_consistent now clientId message s).
Qed.

Lemma C2_index_is_union_of_connection_sets_witness :
  index_matches_registry demo_state /\ no_empty_entries demo_state /\
  (forall clientId,
     let s' := handleDisconnection clientId demo_state in
     clients s' !! clientId = None /\
     (forall resourceId, clientId ∉ subscribersOf s' resourceId) /\
     index_matches_registry s' /\ no_empty_entries s') /\
  (forall now clientId message,
     let s' := handleUnsubscription now clientId message demo_state in
     index_matches_registry s' /\ no_empty_entries s').
Proof.
  apply (C2_index_is_union_of_connection_sets demo_config demo_state).
  unfold demo_state, demo_events. cbn [foldl].
  repeat (apply reachable_step; [|vm_compute; done]).
  apply reachable_initial.
Defined.

(** C3. When [publish] reaches a subscriber whose socket write throws, that
    connection is removed from the registry and from every index entry;
    every connection whose own write does not throw keeps its registry
    record and its index entries; and the loop is not cut short: the update
    is handed, once each, to exactly the subscribers whose socket is open
    and accepts the write. *)
Theorem C3_publish_isolates_failed_send s update failed :
  consistent s ->
  failed ∈ subscribersOf s (resourceId update) ->
  sendFails s failed = true ->
  let s' := broadcastMetadataUpdate update s in
  (clients s' !! failed = None /\
   forall r, failed ∉ subscribersOf s' r) /\
  (forall c, sendFails s c = false ->
     clients s' !! c = clients s !! c /\
     forall r, c ∈ subscribersOf s' r <-> c ∈ subscribersOf s r) /\
  sent s' = sent s ++
    ((fun c => (c, msg_metadata_updated update)) <$>
       filter (fun c => sendSucceeds s c = true)
              (elements (subscribersOf s (resourceId update)))) /\
  (forall c, c ∈ subscribersOf s (resourceId update) ->
     sendSucceeds s c = true ->
     (c, msg_metadata_updated update) ∈ sent s') /\
  consistent s'.
Proof.
  intros Hc Hin Hfail s'. subst s'.
  pose proof (broadcastMetadataUpdate_consistent update s Hc) as Hc'.
  rewrite broadcastMetadataUpdate_fanOut in *.
  assert (Hin' : failed ∈ elements (subscribersOf s (resourceId update)))
    by by apply elem_of_elements.
  split; [split|split; [|split; [|split]]].
  - rewrite fanOut_clients, Hfail, bool_decide_eq_true_2 by done. done.
  - intros r Hr. apply fanOut_members in Hr as [Hr Hnot].
    apply Hnot. split; [done|]. split; [done|].
    destruct Hc as [Hidx _]. by apply Hidx.
  - intros c Hok. split.
    + rewrite fanOut_clients, Hok, andb_false_r. done.
    + intros r. rewrite fanOut_members. rewrite Hok. naive_solver.
  - apply fanOut_sent.
  - intros c Hsub Hok. rewrite fanOut_sent. apply elem_of_app. right.
    apply list_elem_of_fmap. exists c. split; [done|].
    apply list_elem_of_filter. split; [done|]. by apply elem_of_elements.
  - done.
Qed.

Lemma C3_publish_isolates_failed_send_witness :
  let s' := broadcastMetadataUpdate demo_update demo_state in
  (clients s' !! "alice" = None /\
   forall r, "alice" ∉ subscribersOf s' r) /\
  (forall c, sendFails demo_state c = false ->
     clients s' !! c = clients demo_state !! c /\
     forall r, c ∈ subscribersOf s' r <-> c ∈ subscribersOf demo_state r) /\
  sent s' = sent demo_state ++
    ((fun c => (c, msg_metadata_updated demo_update)) <$>
       filter (fun c => sendSucceeds demo_state c = true)
              (elements (subscribersOf demo_state (resourceId demo_update)))) /\
  (forall c, c ∈ subscribersOf demo_state (resourceId demo_update) ->
     sendSucceeds demo_state c = true ->
     (c, msg_metadata_updated demo_update) ∈ sent s') /\
  consistent s'.
Proof.
  apply (C3_publish_isolates_failed_send demo_state demo_update "alice").
  - exact (reachable_consistent _ _ demo_state_reachable).
  - apply (bool_decide_unpack _). vm_compute. exact I.
  - vm_compute. reflexivity.
Defined.

(** What the concrete publish delivers: [bob] alone receives the update,
    [alice] is cleaned up and [carol], whose socket is closing, is skipped
    and stays registered. *)
Example demo_publish_outcome :
  let s' := broadcastMetadataUpdate demo_update demo_state in
  sent s' = sent demo_state ++ [("bob", msg_metadata_updated demo_update)] /\
  dom (clients s') = {[ "bob"; "carol" ]} /\
  subscribersOf s' "sales-chart-2024" = {[ "bob"; "carol" ]}.
Proof. vm_compute. repeat split. Qed.

(** C10. [sendToClient] on an id that is not registered, or whose socket is
    not OPEN, returns the manager unchanged (registry, index and the log
    of writes); so a publish leaves such a subscriber registered and
    indexed and writes nothing to it. *)
Theorem C10_send_to_absent_or_not_open_is_noop s clientId message :
  (clients s !! clientId = None \/
   exists client, clients s !! clientId = Some client /\
                  readyState (ws client) <> OPEN) ->
  sendToClient clientId message s = s /\
  forall update,
    let s' := broadcastMetadataUpdate update s in
    clients s' !! clientId = clients s !! clientId /\
    (forall r, clientId ∈ subscribersOf s' r <-> clientId ∈ subscribersOf s r) /\
    (forall m, (clientId, m) ∈ sent s' -> (clientId, m) ∈ sent s).
Proof.
  intros H.
  assert (Hf : sendFails s clientId = false /\ sendSucceeds s clientId = false).
  { unfold sendFails, sendSucceeds. destruct H as [->|(client & -> & Hns)]; [done|].
    by rewrite bool_decide_eq_false_2. }
  destruct Hf as [Hf Hs]. split.
  - by rewrite sendToClient_spec, Hf, Hs.
  - intros update s'. subst s'. rewrite broadcastMetadataUpdate_fanOut.
    split; [|split].
    + by rewrite fanOut_clients, Hf, andb_false_r.
    + intros r. rewrite fanOut_members, Hf. naive_solver.
    + intros m. rewrite fanOut_sent. intros Hin.
      apply elem_of_app in Hin as [Hin|Hin]; [done|].
      apply list_elem_of_fmap in Hin as (c & [= <- _] & Hc).
      apply list_elem_of_filter in Hc as [Hc _]. congruence.
Qed.

Lemma C10_send_to_absent_or_not_open_is_noop_witness :
  sendToClient "carol" msg_pong demo_state = demo_state /\
  forall update,
    let s' := broadcastMetadataUpdate update demo_state in
    clients s' !! "carol" = clients demo_state !! "carol" /\
    (forall r, "carol" ∈ subscribersOf s' r <-> "carol" ∈ subscribersOf demo_state r) /\
    (forall m, ("carol", m) ∈ sent s' -> ("carol", m) ∈ sent demo_state).
Proof.
  apply (C10_send_to_absent_or_not_open_is_noop demo_state "carol" msg_pong).
  right. eexists. split; [vm_compute; reflexivity|]. simpl. discriminate.
Defined.

(** The registry record of the sender after [handleMessage]: gone when the
    reply could not be written, otherwise the old record with [lastSeen]
    set to the time of receipt (and, for subscription messages, its
    subscription set updated). *)
Lemma handleMessage_sender now c data s client :
  clients s !! c = Some client ->
  exists subs',
    clients (handleMessage now c data s) !! c =
    if sendFails s c then None
    else Some {| id := id client; ws := ws client;
                 client_subscriptions := subs'; lastSeen := now |}.
Proof.
  intros Hc.
  assert (Hsend : forall m X subs',
    clients X !! c = Some {| id := id client; ws := ws client;
                             client_subscriptions := subs'; lastSeen := now |} ->
    clients (sendToClient c m X) !! c =
    if sendFails s c then None
    else Some {| id := id client; ws := ws client;
                 client_subscriptions := subs'; lastSeen := now |}).
  { intros m X subs' HX. rewrite sendToClient_clients.
    rewrite bool_decide_eq_true_2 by done. simpl.
    assert (sendFails X c = sendFails s c) as ->.
    { unfold sendFails. by rewrite HX, Hc. }
    by rewrite HX. }
  unfold handleMessage. rewrite Hc.
  assert (H1 : clients (touch now c client s) !! c =
               Some {| id := id client; ws := ws client;
                       client_subscriptions := client_subscriptions client;
                       lastSeen := now |}).
  { simpl. apply lookup_insert_eq. }
  destruct data as [message|].
  - repeat case_decide.
    + eexists. by apply Hsend.
    + unfold handleSubscription. rewrite H1. eexists. apply Hsend.
      simpl. apply lookup_insert_eq.
    + unfold handleUnsubscription. rewrite H1. eexists. apply Hsend.
      simpl. apply lookup_insert_eq.
    + eexists. by apply Hsend.
  - eexists. by apply Hsend.
Qed.

(** C9. Whatever a registered connection sends (ping, subscribe,
    unsubscribe, an unknown type, or bytes that are not JSON), its
    [lastSeen] is set to the time of receipt: after the handler the
    connection is either gone (its reply could not be written, so it was
    cleaned up) or carries [lastSeen = now]; it stays registered when its
    socket does not fail the write; and a heartbeat sweep that runs within
    twice the heartbeat interval of that message does not remove it. *)
Theorem C9_any_message_refreshes_lastSeen config now clientId data s client :
  clients s !! clientId = Some client ->
  let s' := handleMessage now clientId data s in
  (forall client', clients s' !! clientId = Some client' -> lastSeen client' = now) /\
  (sendFails s clientId = false ->
     exists client', clients s' !! clientId = Some client' /\ lastSeen client' = now) /\
  (forall now', (now' - now <= heartbeatInterval config * 2)%Z ->
     clients (heartbeatTick config now' s') !! clientId = clients s' !! clientId).
Proof.
  intros Hc s'. subst s'.
  destruct (handleMessage_sender now clientId data s client Hc) as [subs' Hs].
  assert (Hseen : forall client',
    clients (handleMessage now clientId data s) !! clientId = Some client' ->
    lastSeen client' = now).
  { intros client'. rewrite Hs. destruct (sendFails s clientId); [done|].
    by intros [= <-]. }
  split; [exact Hseen|]. split.
  - intros Hok. rewrite Hs, Hok. eauto.
  - intros now' Hfresh. apply heartbeatTick_keeps.
    intros client' Hc'. rewrite (Hseen client' Hc'). done.
Qed.

Lemma C9_any_message_refreshes_lastSeen_witness :
  let s' := handleMessage 99 "bob" None demo_state in
  (forall client', clients s' !! "bob" = Some client' -> lastSeen client' = 99%Z) /\
  (sendFails demo_state "bob" = false ->
     exists client', clients s' !! "bob" = Some client' /\ lastSeen client' = 99%Z) /\
  (forall now', (now' - 99 <= heartbeatInterval demo_config * 2)%Z ->
     clients (heartbeatTick demo_config now' s') !! "bob" = clients s' !! "bob").
Proof.
  eapply (C9_any_message_refreshes_lastSeen demo_config 99 "bob" None demo_state).
  vm_compute. reflexivity.
Defined.

(** Messages of every kind, on the concrete registry: the sender's
    [lastSeen] moves from its old value to the time of receipt. *)
Example demo_lastSeen_refreshed :
  lastSeen <$> clients demo_state !! "bob" = Some 5%Z /\
  Forall (fun data =>
            lastSeen <$> clients (handleMessage 99 "bob" data demo_state) !! "bob"
            = Some 99%Z)
    [ None;
      Some {| type := "ping"; msg_resourceId := "" |};
      Some {| type := "subscribe"; msg_resourceId := "r" |};
      Some {| type := "unsubscribe"; msg_resourceId := "r" |};
      Some {| type := "no-such-type"; msg_resourceId := "" |} ].
Proof. split; [by vm_compute|]. repeat constructor. Qed.

End ServerFacts.

(* ===================================================================== *)
(** * Facts about the client transport *)
(* ===================================================================== *)
Module TransportFacts.
Import Transport TransportScenario.

Ltac unfold_setters :=
  unfold emit, set_ws, set_sockets, set_reconnectAttempts, set_isReconnecting,
    set_messageQueue, set_heartbeatInterval, set_heartbeatTimeoutId,
    set_timers, set_calls, set_nextId in *.

(** Reduce the projections of field updates, and nothing else. *)
Ltac tsimpl :=
  cbn [ws sockets reconnectAttempts isReconnecting messageQueue
       heartbeatInterval heartbeatTimeoutId timers calls nextId emitted
       fst snd emit set_ws set_sockets set_reconnectAttempts set_isReconnecting
       set_messageQueue set_heartbeatInterval set_heartbeatTimeoutId
       set_timers set_calls set_nextId startHeartbeat] in *.

Lemma transport_ext (a b : WebSocketTransport) :
  ws a = ws b -> sockets a = sockets b ->
  reconnectAttempts a = reconnectAttempts b ->
  isReconnecting a = isReconnecting b ->
  messageQueue a = messageQueue b ->
  heartbeatInterval a = heartbeatInterval b ->
  heartbeatTimeoutId a = heartbeatTimeoutId b ->
  timers a = timers b -> calls a = calls b -> nextId a = nextId b ->
  emitted a = emitted b -> a = b.
Proof. destruct a, b; simpl; intros; by subst. Qed.

(** ** Timers *)

Lemma stopHeartbeat_spec t :
  stopHeartbeat t =
  {| ws := ws t; sockets := sockets t; reconnectAttempts := reconnectAttempts t;
     isReconnecting := isReconnecting t; messageQueue := messageQueue t;
     heartbeatInterval := None; heartbeatTimeoutId := None;
     timers := timers t ∖ heldTimers t;
     calls := calls t; nextId := nextId t; emitted := emitted t |}.
Proof.
  unfold stopHeartbeat, resetHeartbeatTimeout, heldTimers. unfold_setters.
  destruct t as [w ss ra ir q hi ht tm cs ni em]; simpl.
  destruct hi as [h|], ht as [h'|]; simpl; f_equal; set_solver.
Qed.

(** ** Sockets *)

Lemma onSocket_spec k f t :
  onSocket k f t =
  {| ws := ws t;
     sockets := match sockets t !! k with
                | Some sock => <[k := f sock]> (sockets t)
                | None => sockets t
                end;
     reconnectAttempts := reconnectAttempts t;
     isReconnecting := isReconnecting t; messageQueue := messageQueue t;
     heartbeatInterval := heartbeatInterval t;
     heartbeatTimeoutId := heartbeatTimeoutId t; timers := timers t;
     calls := calls t; nextId := nextId t; emitted := emitted t |}.
Proof.
  unfold onSocket. unfold_setters. destruct (sockets t !! k); [done|].
  by destruct t.
Qed.

(** ** [reconnect] *)

(** A call of [reconnect()] that passes its guard raises the attempt
    counter by one and sleeps for [min(1000 * 2^attempt, 30000)], where
    [attempt] is the counter before the call. *)
Lemma reconnect_schedules t :
  isReconnecting t = false ->
  reconnectAttempts t < maxReconnectAttempts ->
  let t' := snd (reconnect t) in
  calls t' !! fst (reconnect t) =
    Some (Sleeping (Z.min (reconnectDelay * 2 ^ Z.of_nat (reconnectAttempts t)) 30000)) /\
  reconnectAttempts t' = S (reconnectAttempts t) /\
  isReconnecting t' = true.
Proof.
  intros Hir Hlt. unfold reconnect. unfold_setters.
  cbn -[Z.of_nat Z.pow Z.mul Z.min]. rewrite Hir.
  rewrite bool_decide_eq_false_2 by (unfold maxReconnectAttempts in *; lia).
  cbn -[Z.of_nat Z.pow Z.mul Z.min].
  rewrite lookup_insert_eq. repeat split.
  by replace (Z.of_nat (S (reconnectAttempts t)) - 1)%Z
    with (Z.of_nat (reconnectAttempts t)) by lia.
Qed.

(** The delays of the first five attempts. *)
Example reconnect_delays :
  map (fun attempt => Z.min (reconnectDelay * 2 ^ Z.of_nat attempt) 30000)
      [0; 1; 2; 3; 4; 5]%nat
  = [1000; 2000; 4000; 8000; 16000; 30000]%Z.
Proof. reflexivity. Qed.

(** A call of [reconnect()] while [isReconnecting] is set does nothing but
    return. *)
Lemma reconnect_guarded t :
  isReconnecting t = true ->
  snd (reconnect t) =
  set_calls (<[nextId t := Returned]> (calls t)) (set_nextId (S (nextId t)) t).
Proof. intros Hir. unfold reconnect. unfold_setters. simpl. by rewrite Hir. Qed.

(** ** [disconnect] *)


(** ** C8: entering OPEN *)

(** The flush writes a prefix of the queue, in queue order, and leaves the
    rest of the queue as it was. *)
Lemma flushLoop_prefix q : forall sock,
  exists flushed,
    q = flushed ++ fst (flushLoop q sock) /\
    written (snd (flushLoop q sock)) = written sock ++ flushed /\
    closeCalls (snd (flushLoop q sock)) = closeCalls sock /\
    opened (snd (flushLoop q sock)) = opened sock.
Proof.
  induction q as [|m q IH]; intros sock; simpl.
  - exists []. split_and!; by rewrite ?app_nil_r.
  - case_bool_decide as Hopen; [|exists []; split_and!; by rewrite ?app_nil_r].
    unfold ws_send. destruct (script sock) as [|outcome rest].
    + destruct (IH {| readyState := readyState sock; script := [];
                      written := written sock ++ [m];
                      closeCalls := closeCalls sock; opened := opened sock |})
        as (flushed & Hq & Hw & Hc & Ho).
      exists (m :: flushed). simpl in *. rewrite <- Hq, Hw, Hc, Ho.
      split_and!; try done. by rewrite <- app_assoc.
    + destruct (throws outcome).
      * exists []. split_and!; by rewrite ?app_nil_r.
      * destruct (IH {| readyState := stateAfter outcome; script := rest;
                        written := written sock ++ [m];
                        closeCalls := closeCalls sock; opened := opened sock |})
          as (flushed & Hq & Hw & Hc & Ho).
        exists (m :: flushed). simpl in *. rewrite <- Hq, Hw, Hc, Ho.
        split_and!; try done. by rewrite <- app_assoc.
Qed.

(** While the socket accepts the writes, the flush moves on. *)
Lemma flushLoop_accepted pre : forall post sock rest,
  readyState sock = OPEN ->
  script sock = replicate (length pre) accepted ++ rest ->
  flushLoop (pre ++ post) sock =
  flushLoop post {| readyState := OPEN; script := rest;
                    written := written sock ++ pre;
                    closeCalls := closeCalls sock; opened := opened sock |}.
Proof.
  induction pre as [|m pre IH]; intros post sock rest Hopen Hscript; simpl in *.
  - rewrite app_nil_r. destruct sock; simpl in *. by subst.
  - rewrite Hopen, bool_decide_eq_true_2 by done.
    unfold ws_send. rewrite Hscript. simpl.
    rewrite (IH post _ rest); simpl; [|done|done].
    by rewrite <- app_assoc.
Qed.

(** A write that throws puts its message back at the head of the queue and
    ends the flush. *)
Lemma flushLoop_aborts pre m post sock st rest :
  readyState sock = OPEN ->
  script sock = replicate (length pre) accepted ++
                {| throws := true; stateAfter := st |} :: rest ->
  flushLoop (pre ++ m :: post) sock =
  (m :: post, {| readyState := st; script := rest;
                 written := written sock ++ pre;
                 closeCalls := closeCalls sock; opened := opened sock |}).
Proof.
  intros Hopen Hscript. rewrite (flushLoop_accepted pre _ sock _ Hopen Hscript).
  reflexivity.
Qed.

(** The ['open'] handler, when the socket that opens is [this.ws]. *)
Lemma onOpen_current t k sc sock :
  ws t = Some k -> sockets t !! k = Some sock ->
  onOpen k sc t =
  let r := flushLoop (messageQueue t) (set_script sc (set_readyState OPEN sock)) in
  {| ws := Some k;
     sockets := <[k := settle Fulfilled (snd r)]> (sockets t);
     reconnectAttempts := 0; isReconnecting := false;
     messageQueue := fst r;
     heartbeatInterval := Some (nextId t);
     heartbeatTimeoutId := heartbeatTimeoutId t;
     timers := timers t ∪ {[nextId t]};
     calls := settleCalls k Returned (calls t);
     nextId := S (nextId t);
     emitted := emitted t ++ [ev_connected] |}.
Proof.
  intros Hws Hs. pose proof (lookup_lt_Some _ _ _ Hs) as Hlt.
  unfold onOpen. rewrite Hs.
  set (t1 := set_isReconnecting false (set_reconnectAttempts 0
     (onSocket k (fun sock0 => set_script sc (set_readyState OPEN sock0)) t))).
  assert (H1 : sockets (startHeartbeat t1) !! k =
               Some (set_script sc (set_readyState OPEN sock))).
  { subst t1. rewrite onSocket_spec. tsimpl. rewrite Hs.
    by apply list_lookup_insert_eq. }
  unfold flushMessageQueue.
  assert (H2 : ws (startHeartbeat t1) = Some k).
  { subst t1. rewrite onSocket_spec. by tsimpl. }
  rewrite H2, H1.
  assert (Hq : messageQueue (startHeartbeat t1) = messageQueue t).
  { subst t1. rewrite onSocket_spec. by tsimpl. }
  assert (Hss : sockets (startHeartbeat t1) =
                <[k := set_script sc (set_readyState OPEN sock)]> (sockets t)).
  { subst t1. rewrite onSocket_spec. tsimpl. by rewrite Hs. }
  rewrite Hq.
  destruct (flushLoop _ _) as [queue' sock'] eqn:Hflush.
  rewrite onSocket_spec. tsimpl. rewrite Hss.
  rewrite list_lookup_insert_eq by (by rewrite length_insert).
  rewrite !list_insert_insert_eq.
  subst t1. rewrite onSocket_spec.
  apply transport_ext; by tsimpl.
Qed.

(** A transport whose socket has just been created by [connect()], with
    three messages waiting in the queue. *)
Lemma demo_connecting_current :
  ws demo_connecting = Some 0 /\ sockets demo_connecting !! 0 = Some newSocket.
Proof. by vm_compute. Qed.

(** C8. When the current socket opens, the handler sets the
    reconnect-attempt counter to 0, arms the heartbeat interval timer, and
    flushes the pending queue in FIFO order: what it writes to the socket is
    a prefix of the queue and what it leaves queued is the rest, in the
    original order.  If every write is accepted the queue ends empty; if
    the write of a message throws, that message is back at the head of the
    queue, the messages behind it follow in their original order, and no
    further write is attempted. *)
Theorem C8_open_resets_and_flushes_fifo t k sc sock :
  ws t = Some k -> sockets t !! k = Some sock ->
  let t' := onOpen k sc t in
  reconnectAttempts t' = 0 /\
  (heartbeatInterval t' = Some (nextId t) /\ nextId t ∈ timers t') /\
  (exists flushed sock',
     sockets t' !! k = Some sock' /\
     messageQueue t = flushed ++ messageQueue t' /\
     written sock' = written sock ++ flushed) /\
  (forall rest,
     sc = replicate (length (messageQueue t)) accepted ++ rest ->
     messageQueue t' = [] /\
     exists sock', sockets t' !! k = Some sock' /\
                   written sock' = written sock ++ messageQueue t) /\
  (forall pre m post st rest,
     messageQueue t = pre ++ m :: post ->
     sc = replicate (length pre) accepted ++
          {| throws := true; stateAfter := st |} :: rest ->
     messageQueue t' = m :: post /\
     exists sock', sockets t' !! k = Some sock' /\
                   written sock' = written sock ++ pre /\
                   script sock' = rest).
Proof.
  intros Hws Hs t'. subst t'. rewrite (onOpen_current t k sc sock Hws Hs).
  pose proof (lookup_lt_Some _ _ _ Hs) as Hlt.
  cbn zeta. tsimpl. split; [done|]. split; [split; [done|set_solver]|].
  split; [|split].
  - destruct (flushLoop_prefix (messageQueue t)
                (set_script sc (set_readyState OPEN sock)))
      as (flushed & Hq & Hw & _).
    exists flushed. eexists. split; [by apply list_lookup_insert_eq|].
    split; [exact Hq|]. exact Hw.
  - intros rest ->.
    pose proof (flushLoop_accepted (messageQueue t) []
                  (set_script (replicate (length (messageQueue t)) accepted ++ rest)
                     (set_readyState OPEN sock)) rest eq_refl eq_refl) as Hf.
    rewrite app_nil_r in Hf. rewrite Hf. simpl. split; [done|].
    eexists. split; [by apply list_lookup_insert_eq|]. done.
  - intros pre m post st rest Hq ->. rewrite Hq.
    rewrite (flushLoop_aborts pre m post
               (set_script (replicate (length pre) accepted ++
                            {| throws := true; stateAfter := st |} :: rest)
                  (set_readyState OPEN sock)) st rest eq_refl eq_refl). simpl.
    split; [done|].
    eexists. split; [by apply list_lookup_insert_eq|]. done.
Qed.

Lemma C8_open_resets_and_flushes_fifo_witness :
  let sc := [accepted; {| throws := true; stateAfter := OPEN |}] in
  let t' := onOpen 0 sc demo_connecting in
  reconnectAttempts t' = 0 /\
  (heartbeatInterval t' = Some (nextId demo_connecting) /\
   nextId demo_connecting ∈ timers t') /\
  (exists flushed sock',
     sockets t' !! 0 = Some sock' /\
     messageQueue demo_connecting = flushed ++ messageQueue t' /\
     written sock' = written newSocket ++ flushed) /\
  (forall rest,
     sc = replicate (length (messageQueue demo_connecting)) accepted ++ rest ->
     messageQueue t' = [] /\
     exists sock', sockets t' !! 0 = Some sock' /\
                   written sock' = written newSocket ++ messageQueue demo_connecting) /\
  (forall pre m post st rest,
     messageQueue demo_connecting = pre ++ m :: post ->
     sc = replicate (length pre) accepted ++
          {| throws := true; stateAfter := st |} :: rest ->
     messageQueue t' = m :: post /\
     exists sock', sockets t' !! 0 = Some sock' /\
                   written sock' = written newSocket ++ pre /\
                   script sock' = rest).
Proof.
  apply (C8_open_resets_and_flushes_fifo demo_connecting 0 _ newSocket).
  - vm_compute. reflexivity.
  - vm_compute. reflexivity.
Defined.

(** The concrete flush: the first message is written, the write of the
    second throws, so the second and third stay queued in their order. *)
Example demo_flush_aborts :
  let t' := onOpen 0 [accepted; {| throws := true; stateAfter := OPEN |}]
                   demo_connecting in
  messageQueue demo_connecting = [demo_message "a"; demo_message "b"; demo_message "c"] /\
  (written <$> sockets t' !! 0) = Some [demo_message "a"] /\
  messageQueue t' = [demo_message "b"; demo_message "c"] /\
  reconnectAttempts t' = 0 /\ isReconnecting t' = false.
Proof. vm_compute. repeat split. Qed.

(** ** C6: the retry chain *)

Lemma settleCalls_noRetry k outcome cs :
  (forall call st, cs !! call = Some st -> st = Returned) ->
  settleCalls k outcome cs = cs.
Proof.
  intros H. apply map_eq. intros call. unfold settleCalls. rewrite lookup_fmap.
  destruct (cs !! call) as [st|] eqn:Hc; [|done]. simpl.
  by rewrite (H call st Hc).
Qed.

(** Once [isReconnecting] is set and no [reconnect()] call is pending,
    nothing short of an explicit [connect()], a [disconnect()] or a socket
    that opens gets the transport out of that state: no socket is created,
    the attempt counter stays, and the fatal error is not emitted. *)
Ltac use_gave :=
  match goal with
  | H : forall u e', emitted u = _ -> _ |- _ =>
      eapply H; [tsimpl; reflexivity|intros ?; discriminate]
  end.

Lemma stuck_step e t :
  isReconnecting t = true -> noRetryPending t -> quiet e = true ->
  let t' := handle e t in
  isReconnecting t' = true /\ noRetryPending t' /\
  length (sockets t') = length (sockets t) /\
  reconnectAttempts t' = reconnectAttempts t /\
  (gaveUp t' -> gaveUp t).
Proof.
  intros Hir Hnone Hq.
  assert (Hgave : forall u e', emitted u = emitted t ++ [e'] ->
                    (forall n, e' <> ev_error (FailedToReconnect n)) ->
                    gaveUp u -> gaveUp t).
  { intros u e' Hu Hne [n Hin]. exists n. rewrite Hu in Hin.
    apply elem_of_app in Hin as [Hin|Hin]; [done|].
    apply list_elem_of_singleton in Hin. by destruct (Hne n). }
  destruct e; try discriminate; simpl.
  - (* message *)
    unfold onMessage. destruct (sockets t !! k); [|done].
    destruct data as [m|].
    + case_decide.
      * unfold resetHeartbeatTimeout. destruct (heartbeatTimeoutId t); by tsimpl.
      * tsimpl. split_and!; try done. by use_gave.
    + tsimpl. split_and!; try done. by use_gave.
  - (* error *)
    unfold onError. destruct (sockets t !! k) as [sock|] eqn:Hs; [|done].
    destruct (opened sock).
    + rewrite onSocket_spec. tsimpl. rewrite Hs.
      rewrite settleCalls_noRetry by done.
      split_and!; try done; [by rewrite length_insert|by use_gave].
    + tsimpl. split_and!; try done. by use_gave.
    + tsimpl. split_and!; try done. by use_gave.
  - (* close *)
    unfold onClose. destruct (sockets t !! k) as [sock|] eqn:Hs; [|done].
    rewrite stopHeartbeat_spec, onSocket_spec. tsimpl. rewrite Hir, Hs.
    rewrite andb_false_r. simpl.
    split_and!; try done; [by rewrite length_insert|by use_gave].
  - (* the sleep of a pending call elapses: there is none *)
    unfold afterSleep. destruct (calls t !! call) as [st|] eqn:Hc; [|done].
    by rewrite (Hnone call st Hc).
  - (* the catch block of a pending call runs: there is none *)
    unfold afterConnectFailed. destruct (calls t !! call) as [st|] eqn:Hc; [|done].
    by rewrite (Hnone call st Hc).
  - (* heartbeat interval *)
    unfold onHeartbeatInterval.
    destruct (bool_decide (h ∈ timers t) && isConnected t); [|done].
    destruct (ws t) as [k|]; [|done].
    destruct (currentSocket t) as [sock|] eqn:Hs; [|done].
    destruct (ws_send ping sock) as [threw sock'].
    destruct threw; tsimpl; split_and!; try done; by rewrite length_insert.
  - (* heartbeat timeout *)
    unfold onHeartbeatTimeout. case_bool_decide; [|done]. tsimpl.
    destruct (ws t) as [k|]; [|done].
    rewrite onSocket_spec. tsimpl.
    destruct (sockets t !! k); split_and!; try done. by rewrite length_insert.
  - (* send *)
    unfold send. destruct (isConnected t).
    + destruct (ws t) as [k|]; [|done].
      destruct (currentSocket t) as [sock|]; [|done].
      destruct (ws_send m sock) as [threw sock'].
      tsimpl. split_and!; try done. by rewrite length_insert.
    + tsimpl. rewrite Hir. by tsimpl.
Qed.

Lemma stuck_forever es : forall t,
  isReconnecting t = true -> noRetryPending t -> forallb quiet es = true ->
  let t' := run es t in
  isReconnecting t' = true /\ noRetryPending t' /\
  length (sockets t') = length (sockets t) /\
  reconnectAttempts t' = reconnectAttempts t /\
  (gaveUp t' -> gaveUp t).
Proof.
  induction es as [|e es IH]; intros t Hir Hnone Hq; simpl in *; [done|].
  apply andb_true_iff in Hq as [Hq Hqs].
  destruct (stuck_step e t Hir Hnone Hq) as (Hir' & Hnone' & Hlen & Hatt & Hgave).
  destruct (IH (handle e t) Hir' Hnone' Hqs) as (H1 & H2 & H3 & H4 & H5).
  unfold run in *. simpl in *. split_and!; try done; [congruence|congruence|tauto].
Qed.

(** ** The fatal error is out of reach *)

Lemma reconnect_bounded t :
  boundedAttempts t ->
  boundedAttempts (snd (reconnect t)) /\ emitted (snd (reconnect t)) = emitted t.
Proof.
  intros [Hle Hzero]. unfold reconnect, boundedAttempts. tsimpl.
  destruct (isReconnecting t) eqn:Hir; cbn [orb]; tsimpl.
  - rewrite Hir. split_and!; done.
  - specialize (Hzero eq_refl).
    case_bool_decide as Hmax; tsimpl.
    + rewrite Hir. split_and!; done.
    + rewrite Hzero. split_and!; [lia|done|done].
Qed.

Lemma flushMessageQueue_keeps t :
  reconnectAttempts (flushMessageQueue t) = reconnectAttempts t /\
  isReconnecting (flushMessageQueue t) = isReconnecting t /\
  emitted (flushMessageQueue t) = emitted t.
Proof.
  unfold flushMessageQueue. destruct (ws t) as [k|]; [|done].
  destruct (sockets t !! k) as [sock|]; [|done].
  by destruct (flushLoop (messageQueue t) sock).
Qed.

Lemma onOpen_flags k sc t sock :
  sockets t !! k = Some sock ->
  reconnectAttempts (onOpen k sc t) = 0 /\
  isReconnecting (onOpen k sc t) = false /\
  emitted (onOpen k sc t) = emitted t ++ [ev_connected].
Proof.
  intros Hs. unfold onOpen. rewrite Hs. rewrite !onSocket_spec. tsimpl.
  match goal with |- context [flushMessageQueue ?u] =>
    destruct (flushMessageQueue_keeps u) as (H1 & H2 & H3) end.
  rewrite H1, H2, H3. by tsimpl.
Qed.

Lemma bounded_step e t :
  boundedAttempts t -> ~ gaveUp t ->
  boundedAttempts (handle e t) /\ ~ gaveUp (handle e t).
Proof.
  intros Hb Hgave.
  assert (Hsame : forall u, emitted u = emitted t -> ~ gaveUp u).
  { intros u Hu [n Hin]. apply Hgave. exists n. by rewrite <- Hu. }
  assert (Hplus : forall u e', emitted u = emitted t ++ [e'] ->
                    (forall n, e' <> ev_error (FailedToReconnect n)) -> ~ gaveUp u).
  { intros u e' Hu Hne [n Hin]. rewrite Hu in Hin.
    apply elem_of_app in Hin as [Hin|Hin]; [apply Hgave; by exists n|].
    apply list_elem_of_singleton in Hin. by destruct (Hne n). }
  pose proof Hb as [Hle Hzero].
  destruct e; simpl.
  - (* open *)
    destruct (sockets t !! k) as [sock|] eqn:Hs.
    + destruct (onOpen_flags k sc t sock Hs) as (H1 & H2 & H3).
      split; [split; [lia|done]|].
      eapply Hplus; [exact H3|intros ?; discriminate].
    + unfold onOpen. by rewrite Hs.
  - (* message *)
    unfold onMessage. destruct (sockets t !! k); [|done].
    destruct data as [m|].
    + case_decide.
      * unfold resetHeartbeatTimeout. destruct (heartbeatTimeoutId t); split; try done;
          by apply Hsame.
      * split; [done|]. eapply Hplus; [by tsimpl|intros ?; discriminate].
    + split; [done|]. eapply Hplus; [by tsimpl|intros ?; discriminate].
  - (* error *)
    unfold onError. destruct (sockets t !! k) as [sock|] eqn:Hs; [|done].
    destruct (opened sock);
      (split; [rewrite ?onSocket_spec; done
              |eapply Hplus; [rewrite ?onSocket_spec; by tsimpl
                             |intros ?; discriminate]]).
  - (* close *)
    unfold onClose. destruct (sockets t !! k) as [sock|] eqn:Hs; [|done].
    set (u := emit ev_disconnected _).
    assert (Hu : boundedAttempts u).
    { subst u. rewrite stopHeartbeat_spec, onSocket_spec. done. }
    assert (Hue : emitted u = emitted t ++ [ev_disconnected]).
    { subst u. rewrite stopHeartbeat_spec, onSocket_spec. done. }
    destruct (_ && _).
    + destruct (reconnect_bounded u Hu) as [H1 H2]. split; [done|].
      eapply Hplus; [by rewrite H2|intros ?; discriminate].
    + split; [done|]. eapply Hplus; [done|intros ?; discriminate].
  - (* sleep elapsed *)
    unfold afterSleep. destruct (calls t !! call) as [[| | |]|]; try done.
    unfold connect. destruct (isConnected t); tsimpl; split; try done; by apply Hsame.
  - (* catch block *)
    unfold afterConnectFailed. destruct (calls t !! call) as [[| | |]|]; try done.
    tsimpl. rewrite bool_decide_eq_false_2 by (unfold maxReconnectAttempts; lia).
    set (u := set_calls _ t).
    destruct (reconnect_bounded u Hb) as [H1 H2]. split; [done|].
    apply Hsame. by rewrite H2.
  - (* heartbeat interval *)
    unfold onHeartbeatInterval.
    destruct (_ && _); [|done].
    destruct (ws t) as [k|]; [|done].
    destruct (currentSocket t) as [sock|]; [|done].
    destruct (ws_send ping sock) as [threw sock'].
    destruct threw; tsimpl; split; try done; by apply Hsame.
  - (* heartbeat timeout *)
    unfold onHeartbeatTimeout. case_bool_decide; [|done]. tsimpl.
    destruct (ws t) as [k|]; [rewrite onSocket_spec|]; split; try done; by apply Hsame.
  - (* connect() *)
    unfold connect. destruct (isConnected t); tsimpl; split; try done; by apply Hsame.
  - (* send *)
    unfold send. destruct (isConnected t).
    + destruct (ws t) as [k|]; [|done].
      destruct (currentSocket t) as [sock|]; [|done].
      destruct (ws_send m sock) as [threw sock']. tsimpl.
      split; [done|]. by apply Hsame.
    + tsimpl. destruct (isReconnecting t) eqn:Hir.
      * split; [done|]. by apply Hsame.
      * set (u := set_messageQueue _ t).
        assert (Hu : boundedAttempts u) by done.
        pose proof (reconnect_bounded u Hu) as [H1 H2].
        destruct (reconnect u) as [call u']. tsimpl. split; [done|].
        apply Hsame. by rewrite H2.
  - (* disconnect() *)
    unfold disconnect. rewrite stopHeartbeat_spec. tsimpl.
    destruct (ws t) as [k|]; [rewrite onSocket_spec|]; tsimpl;
      (split; [split; [tsimpl; lia|done]|by apply Hsame]).
Qed.

(** Whatever happens to a transport, its attempt counter never gets past 1
    and the fatal "Failed to reconnect" error is never emitted. *)
Lemma never_gives_up es :
  let t := run es initial in
  reconnectAttempts t <= 1 /\ ~ gaveUp t.
Proof.
  assert (H : forall t, boundedAttempts t -> ~ gaveUp t ->
                boundedAttempts (run es t) /\ ~ gaveUp (run es t)).
  { induction es as [|e es IH]; intros t Hb Hg; [done|].
    destruct (bounded_step e t Hb Hg) as [Hb' Hg']. by apply IH. }
  destruct (H initial) as [[Hle _] Hg].
  - split; [simpl; lia|done].
  - intros [n Hin]. simpl in Hin. by apply elem_of_nil in Hin.
  - done.
Qed.

(** C6. The retry chain, run on a connection that drops with code 1006
    and whose first reconnection attempt fails.  The first retry is
    scheduled after 1000 ms and the attempt counter goes to 1, as the claim
    says.  When that attempt fails, the [catch] block calls [reconnect()]
    again while [isReconnecting] is still set, so the call returns at
    once: no second attempt is scheduled although only 1 of the 5 attempts
    has been used, the fatal error is not emitted, and the transport stays
    in that state whatever abnormal closes, errors, timers or [send] calls
    follow.  More generally, whatever happens to a transport, its attempt
    counter never gets past 1 and the fatal error is never emitted. *)
Theorem C6_retry_chain_stops_after_first_failure :
  let dropped := run [SocketClose 0 1006] demo_open in
  let t := run demo_drop demo_open in
  (isConnected demo_open = true /\
   calls dropped !! 1 = Some (Sleeping 1000) /\ reconnectAttempts dropped = 1) /\
  (isReconnecting t = true /\ reconnectAttempts t = 1 /\
   reconnectAttempts t < maxReconnectAttempts /\
   noRetryPending t /\ ~ gaveUp t /\ isConnected t = false) /\
  (forall es, forallb quiet es = true ->
     let t' := run es t in
     isReconnecting t' = true /\ noRetryPending t' /\ ~ gaveUp t' /\
     length (sockets t') = length (sockets t) /\ reconnectAttempts t' = 1) /\
  (forall es,
     let t' := run es initial in
     reconnectAttempts t' <= 1 /\ ~ gaveUp t').
Proof.
  intros dropped t.
  assert (Hcalls : calls t = {[ 1 := Returned; 2 := Returned ]}) by by vm_compute.
  assert (Hnone : noRetryPending t).
  { intros call st. rewrite Hcalls. intros Hc.
    apply lookup_insert_Some in Hc as [[_ <-]|[_ Hc]]; [done|].
    by apply lookup_singleton_Some in Hc as [_ <-]. }
  assert (Hgave : ~ gaveUp t).
  { intros [n Hin]. vm_compute in Hin.
    repeat (apply elem_of_cons in Hin as [Hin|Hin]; [discriminate|]).
    by apply elem_of_nil in Hin. }
  assert (Hatt : reconnectAttempts t = 1) by (vm_compute; reflexivity).
  split; [|split; [|split]].
  - vm_compute. repeat split.
  - split; [vm_compute; reflexivity|]. split; [exact Hatt|].
    split; [rewrite Hatt; unfold maxReconnectAttempts; lia|].
    split; [exact Hnone|]. split; [exact Hgave|]. vm_compute; reflexivity.
  - intros es Hq t'. subst t'.
    destruct (stuck_forever es t eq_refl Hnone Hq) as (H1 & H2 & H3 & H4 & H5).
    split; [exact H1|]. split; [exact H2|]. split; [tauto|].
    split; [exact H3|]. rewrite H4. exact Hatt.
  - intros es. apply never_gives_up.
Qed.

(** The same end state when the [catch] block runs before the ['close']
    event of the failed socket is delivered. *)
Example demo_drop_other_order :
  run [SocketClose 0 1006; SleepElapsed 1; SocketError 1; CatchRuns 1;
       SocketClose 1 1006] demo_open
  = run demo_drop demo_open.
Proof. vm_compute. reflexivity. Qed.

(** ** What the ['open'] handler writes *)

Lemma onSocket_written k f t j :
  (forall sock, written (f sock) = written sock) ->
  written <$> sockets (onSocket k f t) !! j = written <$> sockets t !! j.
Proof.
  intros Hf. rewrite onSocket_spec. tsimpl.
  destruct (sockets t !! k) as [sock|] eqn:Hs; [|done].
  destruct (decide (j = k)) as [->|Hne].
  - rewrite list_lookup_insert_eq by (by eapply lookup_lt_Some).
    rewrite Hs. simpl. by rewrite Hf.
  - by rewrite list_lookup_insert_ne.
Qed.

(** [flushMessageQueue] writes a prefix of the queue, in order, to the
    socket [this.ws], and to no other socket. *)
Lemma flushMessageQueue_written t :
  exists flushed,
    messageQueue t = flushed ++ messageQueue (flushMessageQueue t) /\
    ws (flushMessageQueue t) = ws t /\
    forall j, written <$> sockets (flushMessageQueue t) !! j =
              (fun sock => written sock ++
                           (if decide (ws t = Some j) then flushed else []))
                <$> sockets t !! j.
Proof.
  unfold flushMessageQueue.
  assert (Hnone : forall j,
    written <$> sockets t !! j =
    (fun sock => written sock ++ (if decide (ws t = Some j) then [] else []))
       <$> sockets t !! j).
  { intros j. destruct (sockets t !! j); simpl; [|done].
    case_decide; by rewrite app_nil_r. }
  destruct (ws t) as [k|] eqn:Hws; [|by exists []].
  destruct (sockets t !! k) as [sock|] eqn:Hs; [|by exists []].
  destruct (flushLoop_prefix (messageQueue t) sock) as (flushed & Hq & Hw & _).
  destruct (flushLoop (messageQueue t) sock) as [queue' sock'] eqn:Hflush.
  simpl in Hq, Hw. exists flushed. tsimpl. split; [done|]. split; [done|].
  intros j. destruct (decide (j = k)) as [->|Hne].
  - rewrite list_lookup_insert_eq by (by eapply lookup_lt_Some).
    rewrite Hs. simpl. rewrite decide_True by done. by rewrite Hw.
  - rewrite list_lookup_insert_ne by done.
    destruct (sockets t !! j); simpl; [|done].
    rewrite decide_False by congruence. by rewrite app_nil_r.
Qed.

(** Whatever socket opens, the ['open'] handler writes nothing but a
    prefix of the pending queue, in queue order, to the socket [this.ws]. *)
Lemma onOpen_written k sc t :
  exists flushed,
    messageQueue t = flushed ++ messageQueue (onOpen k sc t) /\
    forall j, written <$> sockets (onOpen k sc t) !! j =
              (fun sock => written sock ++
                           (if decide (ws t = Some j) then flushed else []))
                <$> sockets t !! j.
Proof.
  unfold onOpen. destruct (sockets t !! k) as [sock0|] eqn:Hs.
  - set (t1 := startHeartbeat (set_isReconnecting false (set_reconnectAttempts 0
        (onSocket k (fun sock => set_script sc (set_readyState OPEN sock)) t)))).
    destruct (flushMessageQueue_written t1) as (flushed & Hq & Hws & Hw).
    assert (Hq1 : messageQueue t1 = messageQueue t).
    { subst t1. rewrite onSocket_spec. by tsimpl. }
    assert (Hws1 : ws t1 = ws t).
    { subst t1. rewrite onSocket_spec. by tsimpl. }
    assert (Hw1 : forall j, written <$> sockets t1 !! j = written <$> sockets t !! j).
    { intros j. subst t1. tsimpl. by apply onSocket_written. }
    exists flushed. split.
    + rewrite <- Hq1, Hq. f_equal. rewrite onSocket_spec. by tsimpl.
    + intros j. tsimpl.
      rewrite (onSocket_written k (settle Fulfilled)) by done. tsimpl.
      rewrite Hw, Hws1.
      specialize (Hw1 j).
      destruct (sockets t1 !! j), (sockets t !! j); simpl in *; try done.
      by injection Hw1 as ->.
  - exists []. split; [done|]. intros j.
    destruct (sockets t !! j); simpl; [|done].
    case_decide; by rewrite app_nil_r.
Qed.

(** ** C7: after [disconnect] *)






End TransportFacts.

(* ===================================================================== *)
(** * Facts about the client *)
(* ===================================================================== *)
Module ClientFacts.
Import Transport Client TransportFacts.

(** ** Dispatch of an update *)

(** One [emit('metadataUpdated', update)]: the listeners up to the first
    one that throws are called, each seeing the cache as it is; nothing
    else of the client changes. *)
Lemma emitMetadataUpdated_spec update ls : forall c,
  let r := emitMetadataUpdated ls update c in
  fst r = someThrows ls update /\
  observed (snd r) =
    observed c ++
    map (fun l => ListenerCalled (lid l) update (cached (upd_resourceId update) c))
        (calledListeners ls update) /\
  cache (snd r) = cache c /\
  subscriptions (snd r) = subscriptions c /\
  wsTransport (snd r) = wsTransport c.
Proof.
  induction ls as [|l ls IH]; intros c; simpl.
  - by rewrite app_nil_r.
  - destruct (throwsOn l update) eqn:Hthrow; simpl; [done|].
    specialize (IH (observe (ListenerCalled (lid l) update
                               (cached (upd_resourceId update) c)) c)).
    simpl in IH. destruct IH as (H1 & H2 & H3 & H4 & H5).
    rewrite H1, H2, H3, H4, H5. split_and!; try done.
    by rewrite <- app_assoc.
Qed.

(** C5. For an inbound [metadata_updated] message whose payload is
    present and passes the schema, with the cache enabled: the cache entry
    of the resource is written first; then the [metadataUpdated] listeners
    are called in registration order, each one seeing the new cache entry,
    up to and including the first listener that throws; the listeners
    after that one are not called, and the exception does not leave the
    handler: it is reported as an ['error'] event. *)
Theorem C5_cache_first_then_listeners_until_throw parse m c entries raw metadata :
  in_type m = "metadata_updated" ->
  in_metadata m = Some raw ->
  parse raw = Some metadata ->
  cache c = Some entries ->
  let update := {| upd_resourceId := in_resourceId m;
                   upd_changeType := in_changeType m;
                   upd_timestamp := in_timestamp m;
                   upd_metadata := Some metadata |} in
  let c' := onTransportMessage parse m c in
  cached (in_resourceId m) c' = Some metadata /\
  observed c' =
    observed c ++ [CacheSet (in_resourceId m) metadata] ++
    map (fun l => ListenerCalled (lid l) update (Some metadata))
        (calledListeners (listeners c) update) ++
    (if someThrows (listeners c) update
     then [EmittedError InvalidUpdateMessage] else []) /\
  (someThrows (listeners c) update = false ->
   calledListeners (listeners c) update = listeners c).
Proof.
  intros Htype Hraw Hparse Hcache update c'. subst c'.
  unfold onTransportMessage. rewrite decide_True by done.
  rewrite Hraw, Hparse, Hcache.
  set (c1 := observe (CacheSet (in_resourceId m) metadata)
               (set_cache (Some (<[in_resourceId m := metadata]> entries)) c)).
  assert (Hc1 : cached (in_resourceId m) c1 = Some metadata).
  { unfold cached. simpl. apply lookup_insert_eq. }
  pose proof (emitMetadataUpdated_spec update (listeners c1) c1) as Hspec.
  fold update. cbv zeta in Hspec.
  change (listeners c1) with (listeners c) in *.
  destruct (emitMetadataUpdated (listeners c) update c1) as [threw c2] eqn:Hemit.
  cbn [fst snd] in Hspec. destruct Hspec as (H1 & H2 & H3 & H4 & H5).
  change (upd_resourceId update) with (in_resourceId m) in H2.
  rewrite Hc1 in H2. rewrite H1. clear H1 Hemit.
  split; [|split].
  - destruct (someThrows (listeners c) update); unfold cached; simpl;
      rewrite H3; simpl; apply lookup_insert_eq.
  - destruct (someThrows (listeners c) update); simpl; rewrite H2; simpl.
    + by rewrite <- !app_assoc.
    + by rewrite app_nil_r, <- !app_assoc.
  - clear. induction (listeners c) as [|l ls IH]; simpl; [done|].
    intros H. apply orb_false_iff in H as [-> H]. by rewrite IH.
Qed.

Lemma C5_cache_first_then_listeners_until_throw_witness :
  let c := create (Some "http://localhost:3000") true demo_listeners in
  let c' := onTransportMessage demo_parse demo_update_message c in
  cached "r1" c' = Some "{...}" /\
  observed c' =
    observed c ++ [CacheSet "r1" "{...}"] ++
    map (fun l => ListenerCalled (lid l) demo_update (Some "{...}"))
        (calledListeners (listeners c) demo_update) ++
    (if someThrows (listeners c) demo_update
     then [EmittedError InvalidUpdateMessage] else []) /\
  (someThrows (listeners c) demo_update = false ->
   calledListeners (listeners c) demo_update = listeners c).
Proof.
  apply (C5_cache_first_then_listeners_until_throw demo_parse demo_update_message
           (create (Some "http://localhost:3000") true demo_listeners)
           ∅ "{...}" "{...}"); reflexivity.
Defined.

(** Counterexample to C5 as stated: with three listeners of which the
    second throws, the third is never called. *)
Lemma C5_listener_after_throw_not_called :
  let c := create (Some "http://localhost:3000") true demo_listeners in
  let c' := onTransportMessage demo_parse demo_update_message c in
  observed c' =
    [ CacheSet "r1" "{...}";
      ListenerCalled 1 demo_update (Some "{...}");
      ListenerCalled 2 demo_update (Some "{...}");
      EmittedError InvalidUpdateMessage ] /\
  ~ everyListenerCalled c' demo_update.
Proof.
  split; [reflexivity|].
  intros H.
  destruct (H {| lid := 3; throwsOn := fun _ => false |}) as [v Hin].
  - simpl. unfold demo_listeners. set_solver.
  - vm_compute in Hin.
    repeat (apply elem_of_cons in Hin as [Hin|Hin]; [discriminate|]).
    by apply elem_of_nil in Hin.
Qed.

(** ** Re-entering OPEN *)

(** The listeners the client installs on its transport leave the
    subscription set and the transport alone. *)
Lemma onTransportEvent_keeps parse e c :
  subscriptions (onTransportEvent parse e c) = subscriptions c /\
  wsTransport (onTransportEvent parse e c) = wsTransport c.
Proof.
  destruct e as [| |m|err]; simpl; try done.
  unfold onTransportMessage. case_decide; [|done].
  destruct (in_metadata m) as [raw|]; [destruct (parse raw) as [metadata|]|];
    [| done |].
  - destruct (cache c) as [entries|].
    + match goal with |- context [emitMetadataUpdated ?ls ?u ?c1] =>
        pose proof (emitMetadataUpdated_spec u ls c1) as Hspec;
        destruct (emitMetadataUpdated ls u c1) as [threw c2] end.
      cbv zeta in Hspec. cbn [fst snd] in Hspec.
      destruct Hspec as (_ & _ & _ & H4 & H5). by destruct threw.
    + match goal with |- context [emitMetadataUpdated ?ls ?u ?c1] =>
        pose proof (emitMetadataUpdated_spec u ls c1) as Hspec;
        destruct (emitMetadataUpdated ls u c1) as [threw c2] end.
      cbv zeta in Hspec. cbn [fst snd] in Hspec.
      destruct Hspec as (_ & _ & _ & H4 & H5). by destruct threw.
  - assert (Hsame : match cache c with
                    | Some _ | _ => c
                    end = c) by by destruct (cache c).
    rewrite Hsame.
    match goal with |- context [emitMetadataUpdated ?ls ?u ?c1] =>
      pose proof (emitMetadataUpdated_spec u ls c1) as Hspec;
      destruct (emitMetadataUpdated ls u c1) as [threw c2] end.
    cbv zeta in Hspec. cbn [fst snd] in Hspec.
    destruct Hspec as (_ & _ & _ & H4 & H5). by destruct threw.
Qed.

Lemma withTransport_keeps parse f c t :
  wsTransport c = Some t ->
  subscriptions (withTransport parse f c) = subscriptions c /\
  wsTransport (withTransport parse f c) = Some (f t).
Proof.
  intros Ht. unfold withTransport. rewrite Ht.
  generalize (drop (length (emitted t)) (emitted (f t))). intros es.
  assert (H0 : subscriptions (set_wsTransport (Some (f t)) c) = subscriptions c /\
               wsTransport (set_wsTransport (Some (f t)) c) = Some (f t)) by done.
  revert H0. generalize (set_wsTransport (Some (f t)) c). intros c0.
  revert c0. induction es as [|e es IH]; intros c0 [H1 H2]; simpl; [done|].
  apply IH. destruct (onTransportEvent_keeps parse e c0) as [H3 H4].
  split; congruence.
Qed.

(** C1. When a socket of the client's transport opens (after an abnormal
    close or otherwise), the client sends nothing on account of its
    subscription set: the messages written are a prefix of the transport's
    pending queue, in queue order, written to the socket [this.ws]; the
    subscription set is left as it is; and when the queue is empty nothing
    is written at all, however many resourceIds are subscribed. *)
Theorem C1_open_flushes_queue_without_resubscribing parse c t k sc :
  wsTransport c = Some t ->
  let c' := handle parse (OfTransport (SocketOpen k sc)) c in
  subscriptions c' = subscriptions c /\
  exists t' flushed,
    wsTransport c' = Some t' /\
    messageQueue t = flushed ++ messageQueue t' /\
    (forall j, written <$> sockets t' !! j =
               (fun sock => written sock ++
                            (if decide (ws t = Some j) then flushed else []))
                 <$> sockets t !! j) /\
    (messageQueue t = [] ->
     forall j, written <$> sockets t' !! j = written <$> sockets t !! j).
Proof.
  intros Ht c'. subst c'. simpl.
  destruct (withTransport_keeps parse (onOpen k sc) c t Ht) as [Hsub Hws].
  split; [exact Hsub|].
  destruct (onOpen_written k sc t) as (flushed & Hq & Hw).
  exists (onOpen k sc t), flushed. split; [exact Hws|]. split; [exact Hq|].
  split; [exact Hw|].
  intros Hempty j. rewrite Hw. rewrite Hempty in Hq.
  symmetry in Hq. apply app_eq_nil in Hq as [-> _].
  destruct (sockets t !! j); simpl; [|done].
  case_decide; by rewrite app_nil_r.
Qed.

Lemma demo_reconnecting_transport_eq :
  wsTransport demo_reconnecting = Some demo_reconnecting_transport.
Proof. vm_compute. reflexivity. Qed.

Lemma C1_open_flushes_queue_without_resubscribing_witness :
  let c' := handle demo_parse (OfTransport (SocketOpen 1 [])) demo_reconnecting in
  subscriptions c' = subscriptions demo_reconnecting /\
  exists t' flushed,
    wsTransport c' = Some t' /\
    messageQueue demo_reconnecting_transport = flushed ++ messageQueue t' /\
    (forall j, written <$> sockets t' !! j =
               (fun sock => written sock ++
                            (if decide (ws demo_reconnecting_transport = Some j)
                             then flushed else []))
                 <$> sockets demo_reconnecting_transport !! j) /\
    (messageQueue demo_reconnecting_transport = [] ->
     forall j, written <$> sockets t' !! j =
               written <$> sockets demo_reconnecting_transport !! j).
Proof.
  pose proof (C1_open_flushes_queue_without_resubscribing demo_parse
           demo_reconnecting demo_reconnecting_transport 1 []
           demo_reconnecting_transport_eq) as H.
  cbv zeta in H. cbv zeta. exact H.
Defined.

(** Counterexample to C1 as stated: three resourceIds are subscribed when
    socket 0 closes with code 1006; the client reconnects on socket 1, and
    no subscribe message is written to it. *)
Lemma C1_reconnect_resends_nothing :
  subscriptions demo_subscribed = {[ "r1"; "r2"; "r3" ]} /\
  writtenOn 0 demo_subscribed =
    [subscribeMessage "r1"; subscribeMessage "r2"; subscribeMessage "r3"] /\
  subscriptions demo_reconnected = {[ "r1"; "r2"; "r3" ]} /\
  (isConnected <$> wsTransport demo_reconnected) = Some true /\
  (ws <$> wsTransport demo_reconnected) = Some (Some 1) /\
  writtenOn 1 demo_reconnected = [] /\
  ~ resubscribed 1 demo_reconnected.
Proof.
  assert (Hsub : subscriptions demo_reconnected = {[ "r1"; "r2"; "r3" ]})
    by (vm_compute; reflexivity).
  assert (Hw : writtenOn 1 demo_reconnected = []) by (vm_compute; reflexivity).
  split; [vm_compute; reflexivity|]. split; [vm_compute; reflexivity|].
  split; [exact Hsub|].
  split; [vm_compute; reflexivity|]. split; [vm_compute; reflexivity|].
  split; [exact Hw|].
  intros H. specialize (H "r1"). rewrite Hw, Hsub in H.
  assert (Hin : "r1" ∈ ({[ "r1"; "r2"; "r3" ]} : gset string)) by set_solver.
  specialize (H Hin). vm_compute in H. discriminate H.
Qed.

(** ** [EAMPClient.subscribe] and [unsubscribe], called repeatedly *)

(** Three awaited [subscribe] calls for one resourceId on a transport that
    connects write one subscribe message; of the three [unsubscribe] calls
    that follow, the first writes the unsubscribe message and the others
    do nothing (the client keeps a set of resourceIds, not a count). *)
Example client_awaited_calls :
  let c := run demo_parse
             [ Subscribe "r1"; OfTransport (SocketOpen 0 []); Resume 0; Resume 0;
               Subscribe "r1"; Subscribe "r1";
               Unsubscribe "r1"; Resume 3; Unsubscribe "r1"; Unsubscribe "r1" ]
             (create (Some "http://localhost:3000") true []) in
  writtenOn 0 c = [subscribeMessage "r1"; unsubscribeMessage "r1"] /\
  subscriptions c = ∅.
Proof. vm_compute. split; reflexivity. Qed.

(** Two [subscribe] calls for one resourceId made before either has got
    past its first [await] both pass the [has] test: each creates a socket,
    and both subscribe messages are written (to the second socket, which
    [this.ws] ends up pointing to). *)
Example client_concurrent_calls :
  let c := run demo_parse
             [ Subscribe "r1"; Subscribe "r1";
               OfTransport (SocketOpen 0 []); OfTransport (SocketOpen 1 []);
               Resume 0; Resume 1; Resume 0; Resume 1 ]
             (create (Some "http://localhost:3000") true []) in
  writtenOn 0 c = [] /\
  writtenOn 1 c = [subscribeMessage "r1"; subscribeMessage "r1"] /\
  subscriptions c = {[ "r1" ]}.
Proof. vm_compute. repeat split; reflexivity. Qed.

End ClientFacts.

(* ===================================================================== *)
(** * Facts about the React provider *)
(* ===================================================================== *)
Module ProviderFacts.
Import Transport Provider.

Lemma provider_ext (a b : EAMPProvider) :
  ws a = ws b -> messageListeners a = messageListeners b ->
  heap a = heap b -> subscriptions a = subscriptions b ->
  trace a = trace b -> a = b.
Proof. destruct a, b; simpl; intros; by subst. Qed.

Lemma alter_is_insert {A} (f : A -> A) (l : list A) i x :
  l !! i = Some x -> alter f i l = <[i := f x]> l.
Proof.
  revert i. induction l as [|y l IH]; intros [|i] H; simpl in *; try done.
  - by injection H as ->.
  - f_equal. by apply IH.
Qed.

(** ** A provider whose client has no socket *)

(** The guarded [send] is skipped. *)
Lemma sendIfOpen_no_socket m p : ws p = None -> sendIfOpen m p = p.
Proof. intros Hws. unfold sendIfOpen. by rewrite Hws. Qed.

(** Registering, releasing and unsubscribing only touch the registry of
    callbacks. *)
Lemma subscribe_no_socket r callback p :
  ws p = None ->
  let p' := snd (subscribe r callback p) in
  ws p' = None /\ messageListeners p' = messageListeners p /\ trace p' = trace p.
Proof.
  intros Hws. unfold subscribe.
  destruct (subscriptions p !! r) as [a|] eqn:Hr.
  - rewrite Hr. done.
  - rewrite sendIfOpen_no_socket by done.
    cbn [subscriptions]. rewrite lookup_insert_eq. done.
Qed.

Lemma release_no_socket h p :
  ws p = None ->
  let p' := release h p in
  ws p' = None /\ messageListeners p' = messageListeners p /\ trace p' = trace p.
Proof.
  intros Hws. unfold release. cbn [ws messageListeners heap subscriptions trace].
  destruct (_ !! h_callbacks h) as [[|]|]; try done.
  by rewrite sendIfOpen_no_socket.
Qed.

Lemma unsubscribe_no_socket r p :
  ws p = None ->
  let p' := unsubscribe r p in
  ws p' = None /\ messageListeners p' = messageListeners p /\ trace p' = trace p.
Proof.
  intros Hws. unfold unsubscribe. destruct (subscriptions p !! r); [|done].
  by rewrite sendIfOpen_no_socket.
Qed.

(** Nothing that happens to the provider gives its client a socket, adds a
    listener or is seen from outside. *)
Lemma handle_no_socket throwsOn e p :
  ws p = None ->
  let p' := handle throwsOn e p in
  ws p' = None /\ messageListeners p' = messageListeners p /\ trace p' = trace p.
Proof.
  intros Hws. destruct e as [autoConnect|r callback|h|r|data]; cbn [handle].
  - unfold effect. rewrite Hws. by destruct autoConnect.
  - by apply subscribe_no_socket.
  - by apply release_no_socket.
  - by apply unsubscribe_no_socket.
  - unfold onMessage. by rewrite Hws.
Qed.

Lemma run_no_socket throwsOn events : forall p,
  ws p = None ->
  let p' := run throwsOn events p in
  ws p' = None /\ messageListeners p' = messageListeners p /\ trace p' = trace p.
Proof.
  induction events as [|e events IH]; intros p Hws; [done|].
  destruct (handle_no_socket throwsOn e p Hws) as (H1 & H2 & H3).
  destruct (IH _ H1) as (I1 & I2 & I3).
  change (run throwsOn (e :: events) p)
    with (run throwsOn events (handle throwsOn e p)).
  cbv zeta. rewrite I1, I2, I3. done.
Qed.

(** The provider as the repository builds it never has a socket, a
    ['message'] listener or anything in its trace. *)
Lemma provider_is_silent throwsOn events :
  let p := run throwsOn events initial in
  ws p = None /\ messageListeners p = 0 /\ trace p = [].
Proof. by apply run_no_socket. Qed.



(** ** The registry of callbacks *)

(** The first registration for a resource creates its [Set], at the next
    free address, and enters it in the registry. *)
Lemma subscribe_first r callback p :
  subscriptions p !! r = None ->
  let p' := snd (subscribe r callback p) in
  fst (subscribe r callback p) = handleOf r (length (heap p)) callback /\
  heap p' = heap p ++ [[callback]] /\
  subscriptions p' = <[r := length (heap p)]> (subscriptions p) /\
  ws p' = ws p.
Proof.
  intros Hr. unfold subscribe. rewrite Hr.
  set (q := {| ws := ws p; messageListeners := messageListeners p;
               heap := heap p ++ [[]];
               subscriptions := <[r := length (heap p)]> (subscriptions p);
               trace := trace p |}).
  assert (Hq : subscriptions (sendIfOpen (subscribeMessage r) q) = subscriptions q /\
               heap (sendIfOpen (subscribeMessage r) q) = heap q /\
               ws (sendIfOpen (subscribeMessage r) q) = ws q).
  { unfold sendIfOpen. subst q. cbn [ws]. by destruct (ws p) as [[]|]. }
  destruct Hq as (Hs & Hh & Hw). rewrite Hs. subst q.
  cbn [subscriptions]. rewrite lookup_insert_eq.
  cbn [fst snd ws heap subscriptions]. rewrite ?Hh, ?Hs, ?Hw.
  cbn [ws heap subscriptions]. split_and!; try done.
  rewrite (alter_is_insert _ _ _ ([] : CallbackSet)).
  - rewrite insert_app_r_alt by done. by rewrite Nat.sub_diag.
  - rewrite lookup_app_r by done. by rewrite Nat.sub_diag.
Qed.

(** [unsubscribe] removes the entry of the registry and leaves the [Set]
    objects alone. *)
Lemma unsubscribe_registry r p :
  let p' := unsubscribe r p in
  subscriptions p' = delete r (subscriptions p) /\ heap p' = heap p /\ ws p' = ws p.
Proof.
  unfold unsubscribe. destruct (subscriptions p !! r) eqn:Hr.
  - unfold sendIfOpen. cbn [ws]. by destruct (ws p) as [[]|].
  - split_and!; try done. symmetry. by apply delete_id.
Qed.

(** Releasing the last callback of a [Set] deletes the entry of the
    handle's resourceId, whichever [Set] that entry points to. *)
Lemma release_last h p callbacks :
  heap p !! h_callbacks h = Some callbacks ->
  set_delete (h_callback h) callbacks = [] ->
  let p' := release h p in
  subscriptions p' = delete (h_resourceId h) (subscriptions p) /\
  heap p' = <[h_callbacks h := []]> (heap p).
Proof.
  intros Ha Hempty. unfold release. cbn [ws messageListeners heap subscriptions trace].
  rewrite (alter_is_insert _ _ _ callbacks) by done. rewrite Hempty.
  rewrite list_lookup_insert_eq by (by eapply lookup_lt_Some).
  unfold sendIfOpen. cbn [ws]. by destruct (ws p) as [[]|].
Qed.

(** The provider's listener stops at the first callback that throws, too:
    of three callbacks registered for a resource, the second throwing, the
    third is not called. *)
Example provider_dispatch_stops_at_throw :
  let p1 := snd (subscribeAll "r" [1; 2; 3] initial) in
  let throwsOn := fun callback (_ : string) => bool_decide (callback = 2) in
  trace (messageListener throwsOn (Some ("metadata_updated", "r", "{...}")) p1) =
    trace p1 ++ [CallbackCalled 1 "{...}"; CallbackCalled 2 "{...}"; ConsoleError].
Proof. reflexivity. Qed.

End ProviderFacts.

(* ===================================================================== *)
(** * More facts about the server *)
(* ===================================================================== *)
Module ServerProperties.
Import Server ServerFacts.

(** ** The connection limit *)

Lemma handleDisconnection_size c s :
  size (clients (handleDisconnection c s)) <= size (clients s).
Proof.
  unfold handleDisconnection. destruct (clients s !! c); [|done]. simpl.
  apply map_subseteq_size, delete_subseteq.
Qed.

Lemma sendToClient_size c m s :
  size (clients (sendToClient c m s)) <= size (clients s).
Proof.
  rewrite sendToClient_spec. destruct (sendFails s c).
  - apply handleDisconnection_size.
  - by destruct (sendSucceeds s c).
Qed.

Lemma update_size c (client client' : ClientConnection) (m : gmap string ClientConnection) :
  m !! c = Some client -> size (<[c := client']> m) = size m.
Proof. intros H. by apply map_size_insert_Some. Qed.

Lemma handleMessage_size now c data s :
  size (clients (handleMessage now c data s)) <= size (clients s).
Proof.
  unfold handleMessage. destruct (clients s !! c) as [client|] eqn:Hc; [|done].
  assert (H1 : size (clients (touch now c client s)) = size (clients s)).
  { simpl. by apply (update_size c client). }
  assert (Ht : clients (touch now c client s) !! c =
               Some {| id := id client; ws := ws client;
                       client_subscriptions := client_subscriptions client;
                       lastSeen := now |}).
  { simpl. apply lookup_insert_eq. }
  rewrite <- H1.
  destruct data as [message|]; [|apply sendToClient_size].
  repeat case_decide; try apply sendToClient_size.
  - unfold handleSubscription. rewrite Ht.
    etrans; [apply sendToClient_size|]. simpl.
    rewrite insert_insert_eq. erewrite update_size; [|exact Hc].
    erewrite update_size; [done|exact Hc].
  - unfold handleUnsubscription. rewrite Ht.
    etrans; [apply sendToClient_size|]. simpl.
    rewrite insert_insert_eq. erewrite update_size; [|exact Hc].
    erewrite update_size; [done|exact Hc].
Qed.

Lemma fanOut_size m l : forall s, size (clients (fanOut m l s)) <= size (clients s).
Proof.
  induction l as [|c l IH]; intros s; [done|].
  unfold fanOut in *. simpl. etrans; [apply IH|apply sendToClient_size].
Qed.

Lemma heartbeatTick_size config now s :
  size (clients (heartbeatTick config now s)) <= size (clients s).
Proof.
  unfold heartbeatTick. generalize (map_to_list (clients s)). intros l.
  revert s. induction l as [|entry l IH]; intros s; [done|].
  simpl. etrans; [apply IH|]. case_decide; [apply handleDisconnection_size|done].
Qed.

Lemma handle_size config e s :
  size (clients s) <= maxConnections config ->
  size (clients (handle config e s)) <= maxConnections config.
Proof.
  intros H. destruct e; simpl.
  - unfold handleConnection. case_decide as Hfull; [done|].
    etrans; [apply sendToClient_size|]. simpl.
    rewrite map_size_insert. destruct (clients s !! clientId); simpl; lia.
  - etrans; [apply handleMessage_size|done].
  - etrans; [apply handleDisconnection_size|done].
  - etrans; [apply handleDisconnection_size|done].
  - unfold handlePong. destruct (clients s !! clientId) as [client|] eqn:Hc; [|done].
    simpl. by erewrite update_size.
  - rewrite broadcastMetadataUpdate_fanOut. etrans; [apply fanOut_size|done].
  - etrans; [apply heartbeatTick_size|done].
  - unfold socketChanged. destruct (clients s !! clientId) as [client|] eqn:Hc; [|done].
    simpl. by erewrite update_size.
Qed.

(** X1. The registry never holds more than [maxConnections] connections,
    whatever connects, disconnects, is sent or published. *)
Theorem connections_never_exceed_limit config s :
  reachable config s -> size (clients s) <= maxConnections config.
Proof.
  induction 1 as [|e s Hr IH Hadm]; [simpl; rewrite map_size_empty; lia|].
  by apply handle_size.
Qed.

Lemma connections_never_exceed_limit_witness :
  size (clients demo_state) <= maxConnections demo_config.
Proof.
  apply (connections_never_exceed_limit demo_config demo_state).
  exact demo_state_reachable.
Defined.

(** ** Subscribing and unsubscribing *)

Lemma client_eta (client : ClientConnection) :
  {| id := id client; ws := ws client;
     client_subscriptions := client_subscriptions client;
     lastSeen := lastSeen client |} = client.
Proof. by destruct client. Qed.

Lemma sendToClient_accepts c m s :
  sendSucceeds s c = true ->
  sendToClient c m s =
  {| clients := clients s; subscriptions := subscriptions s;
     sent := sent s ++ [(c, m)] |}.
Proof.
  intros Hok. rewrite sendToClient_spec, Hok.
  assert (sendFails s c = false) as ->; [|done].
  unfold sendFails, sendSucceeds in *. destruct (clients s !! c) as [client|]; [|done].
  apply andb_true_iff in Hok as [-> Hn]. apply negb_true_iff in Hn. by rewrite Hn.
Qed.

Lemma sendSucceeds_ext s s' c :
  ws <$> clients s' !! c = ws <$> clients s !! c ->
  sendSucceeds s' c = sendSucceeds s c.
Proof.
  intros H. unfold sendSucceeds.
  destruct (clients s' !! c) as [a|], (clients s !! c) as [b|];
    simpl in H; try discriminate; [|done].
  by injection H as ->.
Qed.

(** X2. Subscribing to a resource the connection is already subscribed to
    changes neither the registry nor the index; the connection is sent one
    more acknowledgement. *)
Theorem duplicate_subscribe_changes_nothing now c message s client :
  consistent s ->
  clients s !! c = Some client ->
  msg_resourceId message ∈ client_subscriptions client ->
  sendSucceeds s c = true ->
  handleSubscription now c message s =
  {| clients := clients s; subscriptions := subscriptions s;
     sent := sent s ++ [(c, msg_subscribed (msg_resourceId message) now)] |}.
Proof.
  intros [Hidx Hne] Hc Hin Hok. unfold handleSubscription. rewrite Hc.
  set (r := msg_resourceId message) in *.
  assert (Hsub : client_subscriptions client ∪ {[r]} = client_subscriptions client)
    by set_solver.
  rewrite Hsub, client_eta. rewrite (insert_id (clients s) c client Hc).
  assert (Hmem : c ∈ subscribersOf s r) by (apply Hidx; eauto).
  unfold subscribersOf in Hmem.
  destruct (subscriptions s !! r) as [subscribers|] eqn:Hr; [|set_solver].
  simpl in Hmem.
  assert (Halter : alter (fun subscribers : gset string => subscribers ∪ {[c]}) r
                     (subscriptions s) = subscriptions s).
  { apply map_eq. intros r'. rewrite lookup_alter.
    destruct (decide (r = r')) as [<-|Hd]; [|done].
    rewrite Hr. simpl. f_equal. set_solver. }
  rewrite Halter. rewrite sendToClient_accepts; [done|exact Hok].
Qed.

Lemma duplicate_subscribe_changes_nothing_witness :
  handleSubscription 9 "bob"
    {| type := "subscribe"; msg_resourceId := "sales-chart-2024" |} demo_state =
  {| clients := clients demo_state; subscriptions := subscriptions demo_state;
     sent := sent demo_state ++ [("bob", msg_subscribed "sales-chart-2024" 9)] |}.
Proof.
  eapply (duplicate_subscribe_changes_nothing 9 "bob"
            {| type := "subscribe"; msg_resourceId := "sales-chart-2024" |} demo_state).
  - exact (reachable_consistent _ _ demo_state_reachable).
  - vm_compute. reflexivity.
  - apply (bool_decide_unpack _). vm_compute. exact I.
  - vm_compute. reflexivity.
Defined.

(** X3. In a consistent state, for a connection whose socket is OPEN and
    accepts the writes: a subscription to a resource the connection was
    not subscribed to, followed by the matching unsubscription, puts
    registry and index back as they were (no empty index entry is left
    behind), and the connection is sent the two acknowledgements. *)
Theorem subscribe_then_unsubscribe_restores now now' c message message' s client :
  consistent s ->
  clients s !! c = Some client ->
  msg_resourceId message ∉ client_subscriptions client ->
  msg_resourceId message' = msg_resourceId message ->
  sendSucceeds s c = true ->
  handleUnsubscription now' c message' (handleSubscription now c message s) =
  {| clients := clients s; subscriptions := subscriptions s;
     sent := sent s ++ [(c, msg_subscribed (msg_resourceId message) now);
                        (c, msg_unsubscribed (msg_resourceId message) now')] |}.
Proof.
  intros [Hidx Hne] Hc Hnin Hsame Hok. unfold handleSubscription. rewrite Hc.
  set (r := msg_resourceId message) in *.
  set (client1 := {| id := id client; ws := ws client;
                     client_subscriptions := client_subscriptions client ∪ {[r]};
                     lastSeen := lastSeen client |}).
  set (index1 := alter _ r _).
  rewrite sendToClient_accepts; cycle 1.
  { rewrite <- Hok. apply sendSucceeds_ext. simpl. by rewrite lookup_insert_eq, Hc. }
  simpl. unfold handleUnsubscription. simpl. rewrite lookup_insert_eq.
  rewrite Hsame. fold r. simpl.
  assert (Hsub : (client_subscriptions client ∪ {[r]}) ∖ {[r]} = client_subscriptions client)
    by set_solver.
  rewrite Hsub, client_eta, insert_insert_eq, (insert_id (clients s) c client Hc).
  assert (Hnot : c ∉ subscribersOf s r).
  { intros Hm. apply Hidx in Hm as (x & Hx & Hin). congruence. }
  assert (Hindex : removeSubscriber c r index1 = subscriptions s).
  { subst index1. unfold removeSubscriber, subscribersOf in *. rewrite lookup_alter_eq.
    destruct (subscriptions s !! r) as [subscribers|] eqn:Hr.
    - rewrite Hr. cbn [fmap option_fmap option_map default] in *.
      assert (Hback : (subscribers ∪ {[c]}) ∖ {[c]} = subscribers) by set_solver.
      rewrite Hback. rewrite decide_False.
      + rewrite insert_alter_eq. by apply insert_id.
      + intros Hsz. apply size_empty_inv in Hsz. apply leibniz_equiv in Hsz.
        by apply (Hne r subscribers).
    - rewrite lookup_insert_eq. cbn [fmap option_fmap option_map].
      assert (Hback : ((∅ : gset string) ∪ {[c]}) ∖ {[c]} = ∅) by set_solver.
      rewrite Hback. rewrite decide_True by (by apply size_empty_iff).
      apply map_eq. intros r'. destruct (decide (r' = r)) as [->|Hd].
      + by rewrite lookup_delete_eq.
      + rewrite lookup_delete_ne by done. rewrite lookup_alter_ne by done.
        by rewrite lookup_insert_ne. }
  rewrite Hindex.
  rewrite sendToClient_accepts; cycle 1.
  { rewrite <- Hok. by apply sendSucceeds_ext. }
  simpl. by rewrite <- app_assoc.
Qed.

Lemma subscribe_then_unsubscribe_restores_witness :
  handleUnsubscription 10 "bob" {| type := "unsubscribe"; msg_resourceId := "pie-chart" |}
    (handleSubscription 9 "bob" {| type := "subscribe"; msg_resourceId := "pie-chart" |}
       demo_state) =
  {| clients := clients demo_state; subscriptions := subscriptions demo_state;
     sent := sent demo_state ++ [("bob", msg_subscribed "pie-chart" 9);
                                 ("bob", msg_unsubscribed "pie-chart" 10)] |}.
Proof.
  eapply (subscribe_then_unsubscribe_restores 9 10 "bob"
            {| type := "subscribe"; msg_resourceId := "pie-chart" |}
            {| type := "unsubscribe"; msg_resourceId := "pie-chart" |} demo_state).
  - exact (reachable_consistent _ _ demo_state_reachable).
  - vm_compute. reflexivity.
  - apply (bool_decide_unpack _). vm_compute. exact I.
  - reflexivity.
  - vm_compute. reflexivity.
Defined.

(** ** Messages that are not subscription requests *)

(** X4. For a sender whose socket is OPEN and accepts the write: a
    ping, a message of an unknown type and bytes that are not JSON leave
    the index and every subscription set alone; the sender's record only
    gets its [lastSeen] refreshed, and the sender is sent exactly one
    reply, [pong] for a ping and an [error] message otherwise. *)
Theorem other_messages_change_no_subscription now c data s client :
  clients s !! c = Some client ->
  sendSucceeds s c = true ->
  (forall message, data = Some message ->
     type message <> "subscribe" /\ type message <> "unsubscribe") ->
  let s' := handleMessage now c data s in
  subscriptions s' = subscriptions s /\
  clients s' = <[c := {| id := id client; ws := ws client;
                          client_subscriptions := client_subscriptions client;
                          lastSeen := now |}]> (clients s) /\
  sent s' = sent s ++
    [(c, match data with
         | None => msg_error "Invalid message format"
         | Some message =>
             if decide (type message = "ping") then msg_pong
             else msg_error ("Unknown message type: " +:+ type message)
         end)].
Proof.
  intros Hc Hok Hother s'. subst s'. unfold handleMessage. rewrite Hc.
  assert (Hok1 : sendSucceeds (touch now c client s) c = true).
  { rewrite <- Hok. apply sendSucceeds_ext. simpl. by rewrite lookup_insert_eq, Hc. }
  destruct data as [message|].
  - destruct (Hother message eq_refl) as [Hs Hu].
    case_decide.
    + by rewrite sendToClient_accepts.
    + rewrite decide_False by done. rewrite decide_False by done.
      by rewrite sendToClient_accepts.
  - by rewrite sendToClient_accepts.
Qed.

Lemma other_messages_change_no_subscription_witness :
  let data := Some {| type := "resubscribe"; msg_resourceId := "sales-chart-2024" |} in
  let s' := handleMessage 99 "bob" data demo_state in
  subscriptions s' = subscriptions demo_state /\
  clients s' = <[ "bob" := {| id := "bob"; ws := good_socket;
                              client_subscriptions := {[ "sales-chart-2024" ]};
                              lastSeen := 99 |}]> (clients demo_state) /\
  sent s' = sent demo_state ++
    [("bob", msg_error "Unknown message type: resubscribe")].
Proof.
  pose proof (other_messages_change_no_subscription 99 "bob"
    (Some {| type := "resubscribe"; msg_resourceId := "sales-chart-2024" |})
    demo_state
    {| id := "bob"; ws := good_socket;
       client_subscriptions := {[ "sales-chart-2024" ]}; lastSeen := 5 |}) as H.
  cbv zeta in H. cbv zeta. apply H.
  - vm_compute. reflexivity.
  - vm_compute. reflexivity.
  - intros message [= <-]. split; discriminate.
Defined.

(** ** Publishing *)

(** X5. A publish writes to subscribers of the published resource only, each
    at most once, and what it writes is the update itself; connections
    that are not subscribed to the resource keep their registry record and
    their index entries, and a publish for a resource without subscribers
    leaves the manager as it is. *)
Theorem publish_reaches_subscribers_only update s :
  let s' := broadcastMetadataUpdate update s in
  (exists receivers,
     sent s' = sent s ++ ((fun c => (c, msg_metadata_updated update)) <$> receivers) /\
     NoDup receivers /\
     forall c, c ∈ receivers <->
               c ∈ subscribersOf s (resourceId update) /\ sendSucceeds s c = true) /\
  (forall c, c ∉ subscribersOf s (resourceId update) ->
     clients s' !! c = clients s !! c /\
     forall r, c ∈ subscribersOf s' r <-> c ∈ subscribersOf s r) /\
  (subscribersOf s (resourceId update) = ∅ -> s' = s).
Proof.
  intros s'. subst s'. rewrite broadcastMetadataUpdate_fanOut.
  split; [|split].
  - eexists. split; [apply fanOut_sent|]. split.
    + apply NoDup_filter, NoDup_elements.
    + intros c. rewrite list_elem_of_filter, elem_of_elements. tauto.
  - intros c Hnot.
    assert (Hl : c ∉ elements (subscribersOf s (resourceId update)))
      by by rewrite elem_of_elements.
    split.
    + rewrite fanOut_clients. by rewrite bool_decide_eq_false_2.
    + intros r. rewrite fanOut_members. tauto.
  - intros ->. by rewrite elements_empty.
Qed.

(** ** The heartbeat sweep *)

Lemma sweep_gone config now c (l : list (string * ClientConnection)) : forall s,
  clients s !! c = None ->
  clients (foldl (fun s entry =>
                    if decide (heartbeatInterval config * 2 < now - lastSeen (snd entry))%Z
                    then handleDisconnection (fst entry) s else s) s l) !! c = None.
Proof.
  induction l as [|entry l IH]; intros s Hc; simpl; [done|].
  apply IH. case_decide; [|done].
  rewrite handleDisconnection_clients. by case_decide.
Qed.

Lemma sweep_removes config now c client (l : list (string * ClientConnection)) :
  forall s,
  (c, client) ∈ l ->
  (heartbeatInterval config * 2 < now - lastSeen client)%Z ->
  clients (foldl (fun s entry =>
                    if decide (heartbeatInterval config * 2 < now - lastSeen (snd entry))%Z
                    then handleDisconnection (fst entry) s else s) s l) !! c = None.
Proof.
  induction l as [|entry l IH]; intros s Hin Hstale; simpl.
  - by apply elem_of_nil in Hin.
  - apply elem_of_cons in Hin as [<-|Hin].
    + simpl. rewrite decide_True by done. apply sweep_gone.
      rewrite handleDisconnection_clients. by rewrite decide_True.
    + by apply IH.
Qed.

Lemma sweep_sent config now (l : list (string * ClientConnection)) : forall s,
  sent (foldl (fun s entry =>
                 if decide (heartbeatInterval config * 2 < now - lastSeen (snd entry))%Z
                 then handleDisconnection (fst entry) s else s) s l) = sent s.
Proof.
  induction l as [|entry l IH]; intros s; simpl; [done|].
  rewrite IH. case_decide; [apply handleDisconnection_sent|done].
Qed.

(** X6. One heartbeat sweep removes exactly the connections not heard from for
    more than twice the heartbeat interval: these are gone from the
    registry and from every index entry, every other connection keeps its
    record and its index entries, and the sweep writes to no socket. *)
Theorem heartbeat_removes_exactly_the_stale config now s :
  consistent s ->
  let s' := heartbeatTick config now s in
  (forall c client, clients s !! c = Some client ->
     clients s' !! c =
     if decide (heartbeatInterval config * 2 < now - lastSeen client)%Z
     then None else Some client) /\
  (forall c, clients s !! c = None -> clients s' !! c = None) /\
  (forall c r, c ∈ subscribersOf s' r <->
               c ∈ subscribersOf s r /\ is_Some (clients s' !! c)) /\
  sent s' = sent s.
Proof.
  intros Hcons s'.
  pose proof (heartbeatTick_consistent config now s Hcons) as [Hidx' _].
  destruct Hcons as [Hidx _]. fold s' in Hidx'.
  assert (Hkept : forall c client, clients s !! c = Some client ->
     clients s' !! c =
     if decide (heartbeatInterval config * 2 < now - lastSeen client)%Z
     then None else Some client).
  { intros c client Hc. subst s'. case_decide as Hstale.
    - unfold heartbeatTick. apply (sweep_removes config now c client); [|done].
      by apply elem_of_map_to_list.
    - rewrite heartbeatTick_keeps; [done|].
      intros client' Hc'. assert (client' = client) as -> by congruence. lia. }
  assert (Hgone : forall c, clients s !! c = None -> clients s' !! c = None).
  { intros c Hc. subst s'. unfold heartbeatTick. by apply sweep_gone. }
  split; [exact Hkept|]. split; [exact Hgone|]. split.
  - intros c r. rewrite (Hidx' r c), (Hidx r c). split.
    + intros (client & Hc' & Hin).
      destruct (clients s !! c) as [client0|] eqn:Hc.
      * rewrite (Hkept c client0 Hc) in Hc'. case_decide; [done|].
        injection Hc' as <-. split; [eauto|].
        rewrite (Hkept c client0 Hc). rewrite decide_False by done. eauto.
      * rewrite (Hgone c Hc) in Hc'. done.
    + intros [(client & Hc & Hin) [client' Hc']].
      rewrite (Hkept c client Hc) in Hc'. case_decide; [done|].
      injection Hc' as <-. exists client. split; [|done].
      rewrite (Hkept c client Hc). by rewrite decide_False.
  - subst s'. unfold heartbeatTick. apply sweep_sent.
Qed.

Lemma heartbeat_removes_exactly_the_stale_witness :
  let s' := heartbeatTick demo_config 60005 demo_state in
  (forall c client, clients demo_state !! c = Some client ->
     clients s' !! c =
     if decide (heartbeatInterval demo_config * 2 < 60005 - lastSeen client)%Z
     then None else Some client) /\
  (forall c, clients demo_state !! c = None -> clients s' !! c = None) /\
  (forall c r, c ∈ subscribersOf s' r <->
               c ∈ subscribersOf demo_state r /\ is_Some (clients s' !! c)) /\
  sent s' = sent demo_state.
Proof.
  apply (heartbeat_removes_exactly_the_stale demo_config 60005 demo_state).
  exact (reachable_consistent _ _ demo_state_reachable).
Defined.

(** On the concrete registry, at time 60005: [alice] (last heard at 4) is
    removed, [bob] (5) and [carol] (6) stay. *)
Example demo_sweep :
  dom (clients (heartbeatTick demo_config 60005 demo_state)) = {[ "bob"; "carol" ]} /\
  subscribersOf (heartbeatTick demo_config 60005 demo_state) "sales-chart-2024"
  = {[ "bob"; "carol" ]}.
Proof. vm_compute. split; reflexivity. Qed.

End ServerProperties.

(* ===================================================================== *)
(** * Facts about [getStats] *)
(* ===================================================================== *)
Module StatsFacts.
Import Server ServerFacts ServerStats.

(** ** Counting pairs *)

Lemma size_set_map_inj `{Countable A, Countable B} (f : A -> B) `{!Inj (=) (=) f}
    (X : gset A) :
  size (set_map f X : gset B) = size X.
Proof.
  induction X as [|x X Hx IH] using set_ind_L.
  - by rewrite set_map_empty, !size_empty.
  - rewrite set_map_union_L, set_map_singleton_L.
    rewrite !size_union, !size_singleton, IH; [done|set_solver|].
    intros y Hy1 Hy2. apply elem_of_singleton in Hy1 as ->.
    apply elem_of_map in Hy2 as (x' & Heq & Hx'). apply (inj f) in Heq. by subst.
Qed.

(** The sum of the sizes of the sets a map holds is the number of
    (key, member) pairs. *)
Lemma sum_of_sizes_counts_pairs {A} (f : A -> gset string) (m : gmap string A) :
  exists X : gset (string * string),
    (forall k x, (k, x) ∈ X <-> exists a, m !! k = Some a /\ x ∈ f a) /\
    size X = map_fold (fun _ a total => total + size (f a)) 0 m.
Proof.
  apply (map_fold_weak_ind
    (fun (r : nat) (m : gmap string A) =>
       exists X : gset (string * string),
         (forall k x, (k, x) ∈ X <-> exists a, m !! k = Some a /\ x ∈ f a) /\
         size X = r)).
  - exists ∅. split; [|apply size_empty].
    intros k x. rewrite lookup_empty. split; [set_solver|]. by intros (a & [=] & _).
  - intros i a m' r Hi (X & Hmem & Hsize).
    exists (X ∪ set_map (fun x => (i, x)) (f a)). split.
    + intros k x. rewrite elem_of_union, Hmem, elem_of_map.
      destruct (decide (k = i)) as [->|Hne].
      * rewrite lookup_insert_eq, Hi. split.
        -- intros [(b & [=] & _)|(y & [= ->] & Hy)]. eauto.
        -- intros (b & [= <-] & Hx). right. eauto.
      * rewrite lookup_insert_ne by done. split.
        -- intros [H|(y & [= ? ?] & _)]; [done|congruence].
        -- intros H. by left.
    + rewrite size_union.
      * rewrite Hsize. f_equal. apply size_set_map_inj. by intros x y [=].
      * intros [k x] Hin1 Hin2. apply Hmem in Hin1 as (b & Hb & _).
        apply elem_of_map in Hin2 as (y & [= -> ->] & _). congruence.
Qed.

Lemma entries_bound_pairs (m : gmap string (gset string)) :
  (forall k S, m !! k = Some S -> S <> ∅) ->
  size m <= map_fold (fun _ (S : gset string) total => total + size S) 0 m.
Proof.
  apply (map_fold_weak_ind
    (fun (r : nat) (m : gmap string (gset string)) =>
       (forall k S, m !! k = Some S -> S <> ∅) -> size m <= r)).
  - intros _. by rewrite map_size_empty.
  - intros i S m' r Hi IH Hne. rewrite map_size_insert_None by done.
    assert (Hpos : size S <> 0).
    { intros Hz. apply size_empty_inv in Hz. apply leibniz_equiv in Hz.
      apply (Hne i S); [apply lookup_insert_eq|done]. }
    assert (size m' <= r); [|lia].
    apply IH. intros k S' Hk. apply (Hne k).
    rewrite lookup_insert_ne; [done|]. intros <-. congruence.
Qed.

(** X7. At every reachable state the figures of [getStats] agree with the
    index: [totalSubscriptions], which is summed over the connections, is
    the number of (resource, subscriber) pairs the index holds; no more
    resources have subscribers than there are subscriptions; and there are
    subscriptions exactly when some resource has subscribers. *)
Theorem stats_agree_with_the_index config s :
  reachable config s ->
  totalSubscriptions (getStats s) = indexedPairs s /\
  resourcesWithSubscriptions (getStats s) <= totalSubscriptions (getStats s) /\
  (totalSubscriptions (getStats s) = 0 <-> resourcesWithSubscriptions (getStats s) = 0).
Proof.
  intros Hr. destruct (reachable_consistent _ _ Hr) as [Hidx Hne].
  assert (Htotal : totalSubscriptions (getStats s) = indexedPairs s).
  { unfold getStats, indexedPairs. cbn [totalSubscriptions].
    destruct (sum_of_sizes_counts_pairs client_subscriptions (clients s))
      as (Xc & Hc & <-).
    destruct (sum_of_sizes_counts_pairs (fun S : gset string => S) (subscriptions s))
      as (Xi & Hi & <-).
    assert (Hswap : Xi = set_map (fun p : string * string => (snd p, fst p)) Xc).
    { apply set_eq. intros [r c]. rewrite Hi, elem_of_map. split.
      - intros (S & HS & Hin). exists (c, r). split; [done|]. apply Hc.
        apply Hidx. unfold subscribersOf. by rewrite HS.
      - intros ([c' r'] & [= -> ->] & Hin). apply Hc in Hin.
        apply Hidx in Hin. unfold subscribersOf in Hin.
        destruct (subscriptions s !! r') as [S|]; [eauto|set_solver]. }
    rewrite Hswap. symmetry. apply size_set_map_inj.
    intros [a b] [a' b'] [=]. by subst. }
  assert (Hle : resourcesWithSubscriptions (getStats s) <= totalSubscriptions (getStats s)).
  { rewrite Htotal. unfold getStats, indexedPairs. cbn [resourcesWithSubscriptions].
    apply entries_bound_pairs. exact Hne. }
  split; [exact Htotal|]. split; [exact Hle|]. split; [lia|].
  intros Hzero. rewrite Htotal. unfold getStats in Hzero.
  cbn [resourcesWithSubscriptions] in Hzero. apply map_size_empty_inv in Hzero.
  unfold indexedPairs. rewrite Hzero. apply map_fold_empty.
Qed.

Lemma stats_agree_with_the_index_witness :
  totalSubscriptions (getStats demo_state) = indexedPairs demo_state /\
  resourcesWithSubscriptions (getStats demo_state)
    <= totalSubscriptions (getStats demo_state) /\
  (totalSubscriptions (getStats demo_state) = 0 <->
   resourcesWithSubscriptions (getStats demo_state) = 0).
Proof.
  apply (stats_agree_with_the_index demo_config demo_state).
  exact demo_state_reachable.
Defined.

Example demo_stats :
  getStats demo_state =
  {| connectedClients := 3; totalSubscriptions := 3; resourcesWithSubscriptions := 1 |}.
Proof. vm_compute. reflexivity. Qed.

End StatsFacts.

(* ===================================================================== *)
(** * More facts about the client transport *)
(* ===================================================================== *)
Module TransportProperties.
Import Transport TransportFacts TransportScenario.

(** ** The delay of a retry *)

Lemma settleCalls_sleeping k outcome cs call d :
  (forall d', outcome <> Sleeping d') ->
  settleCalls k outcome cs !! call = Some (Sleeping d) ->
  cs !! call = Some (Sleeping d).
Proof.
  intros Hout. unfold settleCalls. rewrite lookup_fmap.
  destruct (cs !! call) as [st|]; [|done]. simpl.
  destruct st as [d'|k'| |]; try done.
  case_bool_decide; [|done]. intros [= Heq]. by destruct (Hout d).
Qed.

Lemma reconnect_sleeping t call d :
  boundedAttempts t ->
  calls (snd (reconnect t)) !! call = Some (Sleeping d) ->
  d = 1000%Z \/ calls t !! call = Some (Sleeping d).
Proof.
  intros [Hle Hzero]. unfold reconnect. tsimpl.
  destruct (isReconnecting t) eqn:Hir; cbn [orb]; tsimpl.
  - intros H. apply lookup_insert_Some in H as [[_ [=]]|[_ H]]. by right.
  - specialize (Hzero eq_refl). case_bool_decide as Hmax; tsimpl.
    + intros H. apply lookup_insert_Some in H as [[_ [=]]|[_ H]]. by right.
    + intros H. apply lookup_insert_Some in H as [[_ H]|[_ H]]; [|by right].
      left. injection H as <-. rewrite Hzero. reflexivity.
Qed.

Lemma flushMessageQueue_calls t : calls (flushMessageQueue t) = calls t.
Proof.
  unfold flushMessageQueue. destruct (ws t) as [k|]; [|done].
  destruct (sockets t !! k) as [sock|]; [|done].
  by destruct (flushLoop (messageQueue t) sock).
Qed.

Lemma sleeping_step e t call d :
  boundedAttempts t ->
  calls (handle e t) !! call = Some (Sleeping d) ->
  d = 1000%Z \/ calls t !! call = Some (Sleeping d).
Proof.
  intros Hb. destruct e; simpl.
  - (* open *)
    unfold onOpen. destruct (sockets t !! k) as [sock|] eqn:Hs; [|by right].
    rewrite !onSocket_spec. tsimpl. intros H.
    apply settleCalls_sleeping in H; [|done].
    rewrite flushMessageQueue_calls in H. tsimpl. by right.
  - (* message *)
    unfold onMessage. destruct (sockets t !! k); [|by right].
    destruct data as [m|]; [|by right].
    case_decide; [|by right].
    unfold resetHeartbeatTimeout. destruct (heartbeatTimeoutId t); by right.
  - (* error *)
    unfold onError. destruct (sockets t !! k) as [sock|] eqn:Hs; [|by right].
    destruct (opened sock); try by right.
    rewrite onSocket_spec. tsimpl. intros H.
    apply settleCalls_sleeping in H; [by right|done].
  - (* close *)
    unfold onClose. destruct (sockets t !! k) as [sock|] eqn:Hs; [|by right].
    set (u := emit ev_disconnected _).
    assert (Hu : boundedAttempts u).
    { subst u. rewrite stopHeartbeat_spec, onSocket_spec. done. }
    assert (Hc : calls u = calls t).
    { subst u. rewrite stopHeartbeat_spec, onSocket_spec. done. }
    destruct (_ && _).
    + intros H. apply (reconnect_sleeping u) in H; [|done]. by rewrite <- Hc.
    + rewrite Hc. by right.
  - (* sleep elapsed *)
    unfold afterSleep. destruct (calls t !! call0) as [[| | |]|] eqn:Hc0; try by right.
    unfold connect. destruct (isConnected t); tsimpl; intros H;
      apply lookup_insert_Some in H as [[_ [=]]|[_ H]]; by right.
  - (* catch block *)
    unfold afterConnectFailed.
    destruct (calls t !! call0) as [[| | |]|] eqn:Hc0; try by right.
    tsimpl. destruct Hb as [Hle Hzero].
    rewrite bool_decide_eq_false_2 by (unfold maxReconnectAttempts; lia).
    set (u := set_calls _ t). intros H.
    apply (reconnect_sleeping u) in H; [|done].
    destruct H as [H|H]; [by left|]. subst u. tsimpl.
    apply lookup_insert_Some in H as [[_ [=]]|[_ H]]. by right.
  - (* heartbeat interval *)
    unfold onHeartbeatInterval.
    destruct (_ && _); [|by right].
    destruct (ws t) as [k|]; [|by right].
    destruct (currentSocket t) as [sock|]; [|by right].
    destruct (ws_send ping sock) as [threw sock'].
    destruct threw; tsimpl; by right.
  - (* heartbeat timeout *)
    unfold onHeartbeatTimeout. case_bool_decide; [|by right]. tsimpl.
    destruct (ws t) as [k|]; [rewrite onSocket_spec|]; by right.
  - (* connect() *)
    unfold connect. destruct (isConnected t); tsimpl; by right.
  - (* send *)
    unfold send. destruct (isConnected t).
    + destruct (ws t) as [k|]; [|by right].
      destruct (currentSocket t) as [sock|]; [|by right].
      destruct (ws_send m sock) as [threw sock']. tsimpl. by right.
    + tsimpl. destruct (isReconnecting t) eqn:Hir; [by right|].
      set (u := set_messageQueue _ t).
      assert (Hu : boundedAttempts u) by done.
      pose proof (reconnect_sleeping u call d Hu) as Hrec.
      destruct (reconnect u) as [call' u']. tsimpl. exact Hrec.
  - (* disconnect() *)
    unfold disconnect. rewrite stopHeartbeat_spec. tsimpl.
    destruct (ws t) as [k|]; [rewrite onSocket_spec|]; tsimpl; by right.
Qed.

Lemma run_snoc es e t : run (es ++ [e]) t = handle e (run es t).
Proof. unfold run. by rewrite foldl_app. Qed.

Lemma run_bounded es :
  boundedAttempts (run es initial) /\ ~ gaveUp (run es initial).
Proof.
  induction es as [|e es IH] using rev_ind.
  - split; [split; [simpl; lia|done]|].
    intros [n Hin]. simpl in Hin. by apply elem_of_nil in Hin.
  - rewrite run_snoc. destruct IH as [Hb Hg]. by apply bounded_step.
Qed.

(** X8. Whatever happens to a transport, every retry it schedules sleeps for
    the base delay of 1000 ms: the delay never doubles. *)
Theorem every_retry_sleeps_base_delay es call delay :
  calls (run es initial) !! call = Some (Sleeping delay) ->
  delay = reconnectDelay.
Proof.
  revert call delay. induction es as [|e es IH] using rev_ind; intros call delay.
  - simpl. by rewrite lookup_empty.
  - rewrite run_snoc. intros H.
    apply sleeping_step in H as [H|H]; [done| |by apply run_bounded].
    by apply (IH call).
Qed.

Lemma every_retry_sleeps_base_delay_witness :
  calls (run [CallConnect; SocketOpen 0 []; SocketClose 0 1006] initial) !! 1
    = Some (Sleeping 1000) /\
  1000%Z = reconnectDelay.
Proof.
  split; [vm_compute; reflexivity|].
  apply (every_retry_sleeps_base_delay
           [CallConnect; SocketOpen 0 []; SocketClose 0 1006] 1 1000).
  vm_compute. reflexivity.
Defined.

(** ** [send] *)

Lemma reconnect_frame t :
  ws (snd (reconnect t)) = ws t /\ sockets (snd (reconnect t)) = sockets t /\
  messageQueue (snd (reconnect t)) = messageQueue t /\
  emitted (snd (reconnect t)) = emitted t /\
  timers (snd (reconnect t)) = timers t /\
  heartbeatInterval (snd (reconnect t)) = heartbeatInterval t /\
  heartbeatTimeoutId (snd (reconnect t)) = heartbeatTimeoutId t.
Proof.
  unfold reconnect. tsimpl. destruct (_ || _); by tsimpl.
Qed.

(** A call of [reconnect()] is entered in the record of calls. *)
Lemma reconnect_registers t :
  is_Some (calls (snd (reconnect t)) !! fst (reconnect t)).
Proof.
  unfold reconnect. tsimpl.
  destruct (isReconnecting t || bool_decide (maxReconnectAttempts ≤ reconnectAttempts t));
    tsimpl; rewrite lookup_insert_eq; by eexists.
Qed.

(** X9. What one [send] call does.  On a connected transport the message
    is written to the current socket, or the write throws and [send]
    throws; the queue is not touched.  On a transport that is not
    connected the message goes to the end of the queue, no socket is
    written to and [send] does not throw.  There [send] starts a
    [reconnect()] call of its own only when [isReconnecting] is not set,
    and leaves the flag set unless the attempt counter has reached its
    maximum; when the flag was set already it starts nothing. *)
Theorem send_writes_or_queues m t :
  let result := fst (send m t) in
  let t' := snd (send m t) in
  (isConnected t = true ->
     messageQueue t' = messageQueue t /\ ws t' = ws t /\
     exists k sock sock',
       ws t = Some k /\ sockets t !! k = Some sock /\ sockets t' !! k = Some sock' /\
       ((result = SendReturned /\ written sock' = written sock ++ [m]) \/
        (result = SendThrew /\ written sock' = written sock))) /\
  (isConnected t = false ->
     messageQueue t' = messageQueue t ++ [m] /\
     sockets t' = sockets t /\ ws t' = ws t /\
     result <> SendThrew /\
     (reconnectAttempts t < maxReconnectAttempts -> isReconnecting t' = true) /\
     (isReconnecting t = true -> result = SendReturned /\ calls t' = calls t) /\
     (isReconnecting t = false ->
        exists call, result = SendAwaits call /\ is_Some (calls t' !! call))).
Proof.
  intros result t'. subst result t'. unfold send. split; intros Hconn; rewrite Hconn.
  - unfold isConnected, currentSocket in *.
    destruct (ws t) as [k|] eqn:Hws; [|done].
    destruct (sockets t !! k) as [sock|] eqn:Hs; [|done].
    assert (Hlen : k < length (sockets t)) by (by eapply lookup_lt_Some).
    unfold ws_send. destruct (script sock) as [|outcome rest].
    + tsimpl. split; [done|]. split; [done|]. eexists k, sock, _.
      split; [done|]. split; [done|].
      split; [by apply list_lookup_insert_eq|]. left. done.
    + destruct (throws outcome); tsimpl.
      * split; [done|]. split; [done|]. eexists k, sock, _.
        split; [done|]. split; [done|].
        split; [by apply list_lookup_insert_eq|]. right. done.
      * split; [done|]. split; [done|]. eexists k, sock, _.
        split; [done|]. split; [done|].
        split; [by apply list_lookup_insert_eq|]. left. done.
  - tsimpl. destruct (isReconnecting t) eqn:Hir.
    + tsimpl. split_and!; try done.
    + set (u := set_messageQueue _ t).
      destruct (reconnect_frame u) as (H1 & H2 & H3 & _).
      assert (Hrec : reconnectAttempts u < maxReconnectAttempts ->
                     isReconnecting (snd (reconnect u)) = true).
      { intros Hlt. by apply reconnect_schedules. }
      pose proof (reconnect_registers u) as Hreg.
      destruct (reconnect u) as [call u']. tsimpl.
      split_and!; try done. intros _. by exists call.
Qed.

(** ** Messages sent while the socket is not open *)

Lemma send_disconnected m t :
  isConnected t = false ->
  messageQueue (snd (send m t)) = messageQueue t ++ [m] /\
  sockets (snd (send m t)) = sockets t /\ ws (snd (send m t)) = ws t.
Proof.
  intros Hconn. unfold send. rewrite Hconn. tsimpl.
  destruct (isReconnecting t) eqn:Hir; [done|].
  set (u := set_messageQueue _ t).
  destruct (reconnect_frame u) as (H1 & H2 & H3 & _).
  by destruct (reconnect u) as [call u'].
Qed.

Lemma sends_disconnected ms : forall t,
  isConnected t = false ->
  messageQueue (run (CallSend <$> ms) t) = messageQueue t ++ ms /\
  sockets (run (CallSend <$> ms) t) = sockets t /\
  ws (run (CallSend <$> ms) t) = ws t.
Proof.
  induction ms as [|m ms IH]; intros t Hconn.
  - simpl. by rewrite app_nil_r.
  - destruct (send_disconnected m t Hconn) as (H1 & H2 & H3).
    assert (Hconn' : isConnected (snd (send m t)) = false).
    { unfold isConnected, currentSocket in *. by rewrite H3, H2. }
    destruct (IH _ Hconn') as (I1 & I2 & I3).
    unfold run in *. cbn [fmap list_fmap foldl handle].
    rewrite I1, I2, I3, H1, H2, H3. by rewrite <- app_assoc.
Qed.

(** X10. Messages passed to [send] while the current socket is not open are
    queued in call order behind what the queue already holds, and when
    that socket opens and accepts the writes they are all written to it, in
    that order, and the queue is empty. *)
Theorem queued_sends_are_flushed_in_order ms t k sock rest :
  ws t = Some k -> sockets t !! k = Some sock -> readyState sock <> OPEN ->
  let queued := run (CallSend <$> ms) t in
  let opened := onOpen k (replicate (length (messageQueue t ++ ms)) accepted ++ rest)
                  queued in
  messageQueue queued = messageQueue t ++ ms /\
  sockets queued = sockets t /\
  messageQueue opened = [] /\
  written <$> sockets opened !! k = Some (written sock ++ messageQueue t ++ ms).
Proof.
  intros Hws Hs Hstate queued opened'.
  assert (Hconn : isConnected t = false).
  { unfold isConnected, currentSocket. rewrite Hws, Hs. by apply bool_decide_eq_false_2. }
  destruct (sends_disconnected ms t Hconn) as (H1 & H2 & H3). fold queued in H1, H2, H3.
  split; [done|]. split; [done|].
  assert (Hlen : k < length (sockets t)) by (by eapply lookup_lt_Some).
  subst opened'. rewrite (onOpen_current queued k _ sock); [|congruence|congruence].
  cbv zeta. tsimpl. rewrite H1, H2.
  pose proof (flushLoop_accepted (messageQueue t ++ ms) []
                (set_script (replicate (length (messageQueue t ++ ms)) accepted ++ rest)
                            (set_readyState OPEN sock)) rest eq_refl eq_refl) as Hflush.
  rewrite app_nil_r in Hflush. rewrite Hflush.
  simpl. split; [done|]. by rewrite list_lookup_insert_eq.
Qed.

Lemma queued_sends_are_flushed_in_order_witness :
  let ms := [demo_message "d"; demo_message "e"] in
  let queued := run (CallSend <$> ms) demo_connecting in
  let opened := onOpen 0 (replicate (length (messageQueue demo_connecting ++ ms)) accepted
                          ++ []) queued in
  messageQueue queued = messageQueue demo_connecting ++ ms /\
  sockets queued = sockets demo_connecting /\
  messageQueue opened = [] /\
  written <$> sockets opened !! 0 =
    Some (written newSocket ++ messageQueue demo_connecting ++ ms).
Proof.
  pose proof (queued_sends_are_flushed_in_order
                [demo_message "d"; demo_message "e"] demo_connecting 0 newSocket []) as H.
  cbv zeta in H. cbv zeta. apply H.
  - vm_compute. reflexivity.
  - vm_compute. reflexivity.
  - simpl. discriminate.
Defined.

(** ** The heartbeat *)

(** X11. One heartbeat round on a connected transport whose socket accepts the
    write: the interval callback writes one [ping] and arms the pong
    timeout.  A [pong] that arrives cancels the timeout, is not passed on
    to the listeners, and the timeout callback does nothing afterwards.
    Without a pong the timeout callback closes the socket with code 1001,
    and the ['close'] event that follows schedules a retry when none is
    under way. *)
Theorem heartbeat_round t k sock h :
  ws t = Some k -> sockets t !! k = Some sock ->
  readyState sock = OPEN -> script sock = [] ->
  h ∈ timers t -> nextId t ∉ timers t ->
  let h' := nextId t in
  let pinged := onHeartbeatInterval h t in
  (written <$> sockets pinged !! k = Some (written sock ++ [ping]) /\
   heartbeatTimeoutId pinged = Some h' /\ h' ∈ timers pinged) /\
  (forall m, in_type m = "pong" ->
     let t' := onMessage k (Some m) pinged in
     heartbeatTimeoutId t' = None /\ (h' ∉ timers t') /\
     emitted t' = emitted t /\ onHeartbeatTimeout h' t' = t') /\
  (let t' := onHeartbeatTimeout h' pinged in
   closeCalls <$> sockets t' !! k = Some (closeCalls sock ++ [1001%Z]) /\
   isConnected t' = false /\
   (isReconnecting t = false -> reconnectAttempts t < maxReconnectAttempts ->
    exists delay, calls (onClose k 1001 t') !! S (nextId t) = Some (Sleeping delay))).
Proof.
  intros Hws Hs Hopen Hscript Hh Hfresh h' pinged.
  assert (Hlen : k < length (sockets t)) by (by eapply lookup_lt_Some).
  assert (Hconn : isConnected t = true).
  { unfold isConnected, currentSocket. rewrite Hws, Hs. by apply bool_decide_eq_true_2. }
  set (sock1 := {| readyState := OPEN; script := []; written := written sock ++ [ping];
                   closeCalls := closeCalls sock; opened := opened sock |}).
  assert (Hpinged : pinged =
    {| ws := Some k; sockets := <[k := sock1]> (sockets t);
       reconnectAttempts := reconnectAttempts t; isReconnecting := isReconnecting t;
       messageQueue := messageQueue t; heartbeatInterval := heartbeatInterval t;
       heartbeatTimeoutId := Some h'; timers := timers t ∪ {[h']};
       calls := calls t; nextId := S h'; emitted := emitted t |}).
  { subst pinged. unfold onHeartbeatInterval. rewrite Hconn.
    rewrite bool_decide_eq_true_2 by done. cbn [andb].
    unfold currentSocket. rewrite Hws, Hs. unfold ws_send. rewrite Hscript.
    tsimpl. subst sock1. rewrite Hopen. apply transport_ext; by tsimpl. }
  assert (Hs1 : sockets pinged !! k = Some sock1).
  { rewrite Hpinged. tsimpl. by apply list_lookup_insert_eq. }
  split; [|split].
  - rewrite Hs1. rewrite Hpinged. tsimpl. split; [done|]. split; [done|]. set_solver.
  - intros m Hpong t'. subst t'. unfold onMessage. rewrite Hs1.
    rewrite decide_True by done. unfold resetHeartbeatTimeout.
    rewrite Hpinged. tsimpl. split; [done|]. split; [set_solver|]. split; [done|].
    unfold onHeartbeatTimeout. tsimpl. rewrite bool_decide_eq_false_2; [done|set_solver].
  - intros t'.
    assert (Ht' : t' =
      {| ws := Some k; sockets := <[k := ws_close 1001 sock1]> (sockets t);
         reconnectAttempts := reconnectAttempts t; isReconnecting := isReconnecting t;
         messageQueue := messageQueue t; heartbeatInterval := heartbeatInterval t;
         heartbeatTimeoutId := Some h'; timers := (timers t ∪ {[h']}) ∖ {[h']};
         calls := calls t; nextId := S h'; emitted := emitted t |}).
    { subst t'. unfold onHeartbeatTimeout. rewrite Hpinged. tsimpl.
      rewrite bool_decide_eq_true_2 by set_solver. rewrite onSocket_spec. tsimpl.
      rewrite list_lookup_insert_eq by done. rewrite list_insert_insert_eq.
      apply transport_ext; by tsimpl. }
    assert (Hs2 : sockets t' !! k = Some (ws_close 1001 sock1)).
    { rewrite Ht'. tsimpl. by apply list_lookup_insert_eq. }
    split; [by rewrite Hs2|]. split.
    + unfold isConnected, currentSocket. rewrite Ht' at 1. tsimpl. rewrite Hs2.
      by apply bool_decide_eq_false_2.
    + intros Hir Hatt. unfold onClose. rewrite Hs2.
      rewrite stopHeartbeat_spec, onSocket_spec. rewrite Ht'. tsimpl.
      rewrite Hir. rewrite (bool_decide_eq_true_2 (1001%Z <> 1000%Z)) by done.
      rewrite bool_decide_eq_true_2 by done. cbn [andb negb].
      unfold reconnect. tsimpl. cbn [orb].
      rewrite bool_decide_eq_false_2 by lia. tsimpl.
      eexists. apply lookup_insert_eq.
Qed.

Lemma heartbeat_round_witness :
  let h' := nextId demo_open in
  let pinged := onHeartbeatInterval 0 demo_open in
  (written <$> sockets pinged !! 0 = Some (written (settle Fulfilled
       (set_readyState OPEN newSocket)) ++ [ping]) /\
   heartbeatTimeoutId pinged = Some h' /\ h' ∈ timers pinged) /\
  (forall m, in_type m = "pong" ->
     let t' := onMessage 0 (Some m) pinged in
     heartbeatTimeoutId t' = None /\ (h' ∉ timers t') /\
     emitted t' = emitted demo_open /\ onHeartbeatTimeout h' t' = t') /\
  (let t' := onHeartbeatTimeout h' pinged in
   closeCalls <$> sockets t' !! 0 = Some (closeCalls (settle Fulfilled
       (set_readyState OPEN newSocket)) ++ [1001%Z]) /\
   isConnected t' = false /\
   (isReconnecting demo_open = false ->
    reconnectAttempts demo_open < maxReconnectAttempts ->
    exists delay, calls (onClose 0 1001 t') !! S (nextId demo_open)
                  = Some (Sleeping delay))).
Proof.
  pose proof (heartbeat_round demo_open 0
                (settle Fulfilled (set_readyState OPEN newSocket)) 0) as H.
  cbv zeta in H. cbv zeta. apply H.
  - vm_compute. reflexivity.
  - vm_compute. reflexivity.
  - reflexivity.
  - reflexivity.
  - apply (bool_decide_unpack _). vm_compute. exact I.
  - apply (bool_decide_unpack _). vm_compute. exact I.
Defined.

(** ** Events of a socket that has been replaced *)

(** X12. The handlers installed on a socket act on the transport, not on that
    socket: when a socket that is no longer the current one closes, the
    timers the transport holds for the current, open connection (its
    heartbeat interval and a pending pong timeout) are cleared, so that
    they do nothing when they would have fired, and ['disconnected'] is
    emitted, while the transport stays connected. *)
Theorem close_of_replaced_socket_stops_heartbeat t k k' sock sock' code :
  ws t = Some k -> sockets t !! k = Some sock -> readyState sock = OPEN ->
  k' <> k -> sockets t !! k' = Some sock' ->
  let t' := onClose k' code t in
  isConnected t' = true /\
  heartbeatInterval t' = None /\ heartbeatTimeoutId t' = None /\
  heldTimers t ## timers t' /\
  (forall h, onHeartbeatInterval h t' = t' \/ h ∉ heldTimers t) /\
  ev_disconnected ∈ emitted t'.
Proof.
  intros Hws Hs Hopen Hne Hs' t'.
  set (u := emit ev_disconnected (stopHeartbeat (onSocket k' (set_readyState CLOSED) t))).
  assert (Hu : u =
    {| ws := Some k; sockets := <[k' := set_readyState CLOSED sock']> (sockets t);
       reconnectAttempts := reconnectAttempts t; isReconnecting := isReconnecting t;
       messageQueue := messageQueue t; heartbeatInterval := None;
       heartbeatTimeoutId := None; timers := timers t ∖ heldTimers t;
       calls := calls t; nextId := nextId t;
       emitted := emitted t ++ [ev_disconnected] |}).
  { subst u. rewrite stopHeartbeat_spec, onSocket_spec. tsimpl. rewrite Hs'.
    apply transport_ext; tsimpl; try done. }
  assert (Hframe : ws t' = Some k /\ sockets t' = sockets u /\
                   heartbeatInterval t' = None /\ heartbeatTimeoutId t' = None /\
                   timers t' = timers t ∖ heldTimers t /\
                   emitted t' = emitted t ++ [ev_disconnected]).
  { subst t'. unfold onClose. rewrite Hs'. fold u.
    destruct (reconnect_frame u) as (R1 & R2 & R3 & R4 & R5 & R6 & R7).
    destruct (_ && _).
    - rewrite R1, R2, R4, R5, R6, R7, Hu. by tsimpl.
    - rewrite Hu. by tsimpl. }
  destruct Hframe as (F1 & F2 & F3 & F4 & F5 & F6).
  assert (Hcur : sockets t' !! k = Some sock).
  { rewrite F2, Hu. tsimpl. by rewrite list_lookup_insert_ne. }
  split; [|split; [done|split; [done|split; [|split]]]].
  - unfold isConnected, currentSocket. rewrite F1, Hcur. by apply bool_decide_eq_true_2.
  - rewrite F5. set_solver.
  - intros h. destruct (decide (h ∈ heldTimers t)) as [Hin|Hnin]; [|by right].
    left. unfold onHeartbeatInterval. rewrite bool_decide_eq_false_2; [done|].
    rewrite F5. set_solver.
  - rewrite F6. set_solver.
Qed.

Lemma close_of_replaced_socket_stops_heartbeat_witness :
  let t' := onClose 0 1001 demo_replaced in
  isConnected t' = true /\
  heartbeatInterval t' = None /\ heartbeatTimeoutId t' = None /\
  heldTimers demo_replaced ## timers t' /\
  (forall h, onHeartbeatInterval h t' = t' \/ h ∉ heldTimers demo_replaced) /\
  ev_disconnected ∈ emitted t'.
Proof.
  pose proof (close_of_replaced_socket_stops_heartbeat demo_replaced 1 0
    {| readyState := OPEN; script := []; written := [demo_message "a"];
       closeCalls := []; opened := Fulfilled |}
    {| readyState := CLOSING; script := []; written := [ping];
       closeCalls := [1001%Z]; opened := Fulfilled |} 1001) as H.
  cbv zeta in H. cbv zeta. apply H.
  - vm_compute. reflexivity.
  - vm_compute. reflexivity.
  - reflexivity.
  - discriminate.
  - vm_compute. reflexivity.
Defined.

(** The scenario end to end: the heartbeat interval of the new connection
    (timer 3) is held before the stale ['close'] and gone after it, while
    the transport is connected throughout. *)
Example demo_replaced_outcome :
  isConnected demo_replaced = true /\
  heartbeatInterval demo_replaced = Some 3 /\ 3 ∈ timers demo_replaced /\
  let t' := run [SocketClose 0 1001; SleepElapsed 4] demo_replaced in
  isConnected t' = true /\ heartbeatInterval t' = None /\ 3 ∉ timers t'.
Proof.
  split; [vm_compute; reflexivity|]. split; [vm_compute; reflexivity|].
  split; [apply (bool_decide_unpack _); vm_compute; exact I|].
  split; [vm_compute; reflexivity|]. split; [vm_compute; reflexivity|].
  apply (bool_decide_unpack _). vm_compute. exact I.
Qed.

(** ** A second ['open'] *)

Lemma flushMessageQueue_timers t :
  timers (flushMessageQueue t) = timers t /\
  heartbeatInterval (flushMessageQueue t) = heartbeatInterval t /\
  heartbeatTimeoutId (flushMessageQueue t) = heartbeatTimeoutId t.
Proof.
  unfold flushMessageQueue. destruct (ws t) as [k|]; [|done].
  destruct (sockets t !! k) as [sock|]; [|done].
  by destruct (flushLoop (messageQueue t) sock).
Qed.

Lemma onOpen_timers k sc t sock :
  sockets t !! k = Some sock ->
  timers (onOpen k sc t) = timers t ∪ {[nextId t]} /\
  heartbeatInterval (onOpen k sc t) = Some (nextId t) /\
  heartbeatTimeoutId (onOpen k sc t) = heartbeatTimeoutId t.
Proof.
  intros Hs. unfold onOpen. rewrite Hs. rewrite !onSocket_spec. tsimpl.
  match goal with |- context [flushMessageQueue ?u] =>
    destruct (flushMessageQueue_timers u) as (H1 & H2 & H3) end.
  rewrite H1, H2, H3. by tsimpl.
Qed.

(** X13. Every ['open'] starts a heartbeat interval and overwrites the handle of
    the one already running without clearing it.  When a socket opens
    while an interval is running, that interval stays armed and the
    transport no longer holds its handle: neither a ['close'] event nor
    [disconnect()] clears it. *)
Theorem second_open_leaks_heartbeat_interval t k sc sock h :
  sockets t !! k = Some sock ->
  heartbeatInterval t = Some h -> h ∈ timers t ->
  h <> nextId t -> heartbeatTimeoutId t <> Some h ->
  let t' := onOpen k sc t in
  heartbeatInterval t' = Some (nextId t) /\
  h ∈ timers t' /\ (h ∉ heldTimers t') /\
  h ∈ timers (disconnect t') /\
  (forall j code, h ∈ timers (onClose j code t')).
Proof.
  intros Hs Hh Hin Hfresh Hto t'.
  destruct (onOpen_timers k sc t sock Hs) as (H1 & H2 & H3). fold t' in H1, H2, H3.
  assert (Hheld : h ∉ heldTimers t').
  { unfold heldTimers. rewrite H2, H3.
    destruct (heartbeatTimeoutId t) as [h'|]; [|set_solver].
    assert (h' <> h) by congruence. set_solver. }
  assert (Harmed : h ∈ timers t') by (rewrite H1; set_solver).
  split; [done|]. split; [done|]. split; [done|]. split.
  - unfold disconnect. rewrite stopHeartbeat_spec. tsimpl.
    destruct (ws t') as [j|]; [rewrite onSocket_spec|]; tsimpl; set_solver.
  - intros j code. unfold onClose. destruct (sockets t' !! j) as [sockj|] eqn:Hj; [|done].
    set (u := emit ev_disconnected _).
    assert (Hu : timers u = timers t' ∖ heldTimers t').
    { subst u. rewrite stopHeartbeat_spec, onSocket_spec. done. }
    destruct (reconnect_frame u) as (_ & _ & _ & _ & R5 & _).
    destruct (_ && _); [rewrite R5|]; rewrite Hu; set_solver.
Qed.

Lemma second_open_leaks_heartbeat_interval_witness :
  let t' := onOpen 1 [] demo_two_connects in
  heartbeatInterval t' = Some (nextId demo_two_connects) /\
  0 ∈ timers t' /\ (0 ∉ heldTimers t') /\
  0 ∈ timers (disconnect t') /\
  (forall j code, 0 ∈ timers (onClose j code t')).
Proof.
  pose proof (second_open_leaks_heartbeat_interval demo_two_connects 1 [] newSocket 0) as H.
  cbv zeta in H. cbv zeta. apply H.
  - vm_compute. reflexivity.
  - vm_compute. reflexivity.
  - apply (bool_decide_unpack _). vm_compute. exact I.
  - vm_compute. discriminate.
  - vm_compute. discriminate.
Defined.

End TransportProperties.

(* ===================================================================== *)
(** * More facts about the client *)
(* ===================================================================== *)
Module ClientProperties.
Import Transport Client TransportFacts ClientFacts.

(** ** What the transport can and cannot do to the client *)

Lemma transport_step_keeps_subscriptions parse e c :
  subscriptions (handle parse (OfTransport e) c) = subscriptions c.
Proof.
  simpl. destruct (wsTransport c) as [t|] eqn:Ht.
  - by destruct (withTransport_keeps parse (Transport.handle e) c t Ht).
  - unfold withTransport. by rewrite Ht.
Qed.

(** X14. Nothing that happens to the transport (a socket that opens, closes or
    fails, a message, a retry, a heartbeat) changes the client's
    subscription set: a dropped connection does not clear it, and only
    [subscribe] and [unsubscribe] calls change it. *)
Theorem transport_events_keep_subscription_set parse es c :
  subscriptions (run parse (OfTransport <$> es) c) = subscriptions c.
Proof.
  revert c. induction es as [|e es IH]; intros c; [done|].
  unfold run in *. cbn [fmap list_fmap foldl].
  rewrite IH. apply transport_step_keeps_subscriptions.
Qed.

(** ** The cache *)

Lemma emitMetadataUpdated_cached ls update c r :
  cached r (snd (emitMetadataUpdated ls update c)) = cached r c.
Proof.
  destruct (emitMetadataUpdated_spec update ls c) as (_ & _ & Hcache & _).
  cbv zeta in Hcache. unfold cached. by rewrite Hcache.
Qed.

(** X15. An inbound message changes a cache entry only if it is a
    [metadata_updated] message for that resource whose payload is present
    and passes the schema, and then the entry is that payload; every
    other message (another type, another resource, no payload, a payload
    the schema rejects) leaves the entry as it is, whether the listeners
    return or throw.  (A listener acts on the client by returning or
    throwing only; one that itself calls a method of the client, such as
    [clearCache()], is not covered.) *)
Theorem cache_changes_only_on_valid_update parse m c r :
  let c' := onTransportMessage parse m c in
  cached r c' = cached r c \/
  (in_type m = "metadata_updated" /\ in_resourceId m = r /\
   exists raw metadata,
     in_metadata m = Some raw /\ parse raw = Some metadata /\
     cached r c' = Some metadata).
Proof.
  intros c'. subst c'. unfold onTransportMessage.
  case_decide as Htype; [|by left].
  destruct (in_metadata m) as [raw|] eqn:Hraw.
  - destruct (parse raw) as [metadata|] eqn:Hparse; [|by left].
    destruct (cache c) as [entries|] eqn:Hcache.
    + match goal with |- context [emitMetadataUpdated ?ls ?u ?c1] =>
        pose proof (emitMetadataUpdated_cached ls u c1 r) as Hkeep;
        destruct (emitMetadataUpdated ls u c1) as [threw c2] end.
      cbn [snd] in Hkeep.
      assert (Hc2 : cached r (if threw then observe (EmittedError InvalidUpdateMessage) c2
                              else c2) = cached r c2) by by destruct threw.
      destruct (decide (in_resourceId m = r)) as [Heq|Hne].
      * right. split; [done|]. split; [done|]. exists raw, metadata.
        split; [done|]. split; [done|].
        rewrite Hc2, Hkeep. unfold cached. cbn [cache observe set_cache].
        rewrite Heq. apply lookup_insert_eq.
      * left. rewrite Hc2, Hkeep. unfold cached.
        cbn [cache observe set_cache]. rewrite Hcache.
        by rewrite lookup_insert_ne.
    + left.
      match goal with |- context [emitMetadataUpdated ?ls ?u ?c1] =>
        pose proof (emitMetadataUpdated_cached ls u c1 r) as Hkeep;
        destruct (emitMetadataUpdated ls u c1) as [threw c2] end.
      cbn [snd] in Hkeep. by destruct threw.
  - left.
    assert (Hsame : match cache c with
                    | Some _ | _ => c
                    end = c) by by destruct (cache c).
    rewrite Hsame.
    match goal with |- context [emitMetadataUpdated ?ls ?u ?c1] =>
      pose proof (emitMetadataUpdated_cached ls u c1 r) as Hkeep;
      destruct (emitMetadataUpdated ls u c1) as [threw c2] end.
    cbn [snd] in Hkeep. by destruct threw.
Qed.

End ClientProperties.

(* ===================================================================== *)
(** * Facts about [EAMPClient.disconnect] *)
(* ===================================================================== *)
Module LifecycleFacts.
Import Transport Client ClientLifecycle TransportFacts ClientFacts TransportProperties.

Section WithSchema.

Variable parse : string -> option string.

(** ** What [unsubscribeAll] leaves alone *)

Lemma connectionUntouched_refl c : connectionUntouched c c.
Proof. unfold connectionUntouched. by destruct (wsTransport c). Qed.

Lemma connectionUntouched_trans c1 c2 c3 :
  connectionUntouched c1 c2 -> connectionUntouched c2 c3 -> connectionUntouched c1 c3.
Proof.
  unfold connectionUntouched.
  destruct (wsTransport c1), (wsTransport c2), (wsTransport c3); try done.
  intros (A1 & A2 & A3 & A4) (B1 & B2 & B3 & B4). split_and!; congruence.
Qed.

Lemma untouched_of_fields c c' :
  wsTransport c' = wsTransport c -> listeners c' = listeners c ->
  observed c' = observed c ->
  connectionUntouched c c' /\ listeners c' = listeners c /\ observed c' = observed c.
Proof.
  intros Ht Hl Ho. split_and!; try done.
  unfold connectionUntouched. rewrite Ht. by destruct (wsTransport c).
Qed.

(** A step of the transport that emits nothing only replaces the
    transport. *)
Lemma withTransport_silent f c t :
  wsTransport c = Some t -> emitted (f t) = emitted t ->
  withTransport parse f c = set_wsTransport (Some (f t)) c.
Proof.
  intros Ht He. unfold withTransport. rewrite Ht, He. by rewrite drop_all.
Qed.

Lemma send_untouched m t :
  let t' := snd (send m t) in
  ws t' = ws t /\ closeCalls <$> sockets t' = closeCalls <$> sockets t /\
  heartbeatInterval t' = heartbeatInterval t /\ timers t' = timers t /\
  emitted t' = emitted t.
Proof.
  unfold send. destruct (isConnected t) eqn:Hconn.
  - unfold isConnected, currentSocket in *.
    destruct (ws t) as [k|] eqn:Hws; [|done].
    destruct (sockets t !! k) as [sock|] eqn:Hs; [|done].
    assert (Hclose : closeCalls (snd (ws_send m sock)) = closeCalls sock).
    { unfold ws_send. destruct (script sock) as [|o rest]; [done|]. by destruct (throws o). }
    destruct (ws_send m sock) as [threw sock']. tsimpl. simpl in Hclose.
    split_and!; try done.
    rewrite list_fmap_insert, Hclose. apply list_insert_id.
    by rewrite list_lookup_fmap, Hs.
  - tsimpl. destruct (isReconnecting t) eqn:Hir; [done|].
    set (u := set_messageQueue _ t).
    destruct (reconnect_frame u) as (R1 & R2 & R3 & R4 & R5 & R6 & R7).
    destruct (reconnect u) as [call u']. tsimpl. split_and!; try done. by rewrite R2.
Qed.

Lemma after_send_untouched m c t :
  wsTransport c = Some t ->
  let c' := withTransport parse (fun _ => snd (send m t)) c in
  connectionUntouched c c' /\ listeners c' = listeners c /\ observed c' = observed c /\
  subscriptions c' = subscriptions c /\ calls c' = calls c /\ nextCall c' = nextCall c.
Proof.
  intros Ht c'. destruct (send_untouched m t) as (S1 & S2 & S3 & S4 & S5).
  subst c'. rewrite (withTransport_silent _ c t Ht S5).
  unfold connectionUntouched. rewrite Ht. cbn [wsTransport set_wsTransport].
  split_and!; done.
Qed.

Lemma unsubscribe_untouched r c :
  let c' := snd (unsubscribe parse r c) in
  connectionUntouched c c' /\ listeners c' = listeners c /\ observed c' = observed c.
Proof.
  unfold unsubscribe.
  case_decide; [by apply untouched_of_fields|].
  case_decide; [|by apply untouched_of_fields].
  destruct (wsTransport c) as [t|] eqn:Ht.
  - destruct (isConnected t).
    + destruct (after_send_untouched (unsubscribeMessage r) c t Ht)
        as (H1 & H2 & H3 & _).
      destruct (send (unsubscribeMessage r) t) as [result t']. cbn [snd] in *.
      split_and!; done.
    + by apply untouched_of_fields.
  - by apply untouched_of_fields.
Qed.

Lemma subscribeSend_untouched call r c :
  let c' := subscribeSend parse call r c in
  connectionUntouched c c' /\ listeners c' = listeners c /\ observed c' = observed c.
Proof.
  unfold subscribeSend. destruct (wsTransport c) as [t|] eqn:Ht.
  - set (c0 := set_call call (SubscribeAtSend r (fst (send (subscribeMessage r) t))) c).
    assert (Ht0 : wsTransport c0 = Some t) by done.
    destruct (after_send_untouched (subscribeMessage r) c0 t Ht0) as (H1 & H2 & H3 & _).
    subst c0. destruct (send (subscribeMessage r) t) as [result t']. simpl in *.
    split_and!; done.
  - by apply untouched_of_fields.
Qed.

Lemma resume_untouched call c :
  let c' := resume parse call c in
  connectionUntouched c c' /\ listeners c' = listeners c /\ observed c' = observed c.
Proof.
  unfold resume.
  destruct (calls c !! call) as [[r [k|]|r result|r result| |]|];
    try (by apply untouched_of_fields).
  - destruct (wsTransport c) as [t|] eqn:Ht; [|by apply untouched_of_fields].
    destruct (opened <$> sockets t !! k) as [[| |]|];
      try (by apply untouched_of_fields).
    apply subscribeSend_untouched.
  - apply subscribeSend_untouched.
  - destruct (sendSettled result c) as [[|]|]; by apply untouched_of_fields.
  - destruct (sendSettled result c) as [[|]|]; by apply untouched_of_fields.
Qed.

Lemma startAll_untouched ids : forall started c,
  let r := foldl (fun acc r =>
                    let (call, c') := unsubscribe parse r (snd acc) in
                    (fst acc ++ [call], c')) (started, c) ids in
  connectionUntouched c (snd r) /\ listeners (snd r) = listeners c /\
  observed (snd r) = observed c.
Proof.
  induction ids as [|r ids IH]; intros started c.
  - simpl. split_and!; try done. apply connectionUntouched_refl.
  - cbn [foldl snd fst].
    destruct (unsubscribe_untouched r c) as (U1 & U2 & U3).
    destruct (unsubscribe parse r c) as [call c1]. cbn [snd] in *.
    destruct (IH (started ++ [call]) c1) as (I1 & I2 & I3).
    split_and!; [by eapply connectionUntouched_trans|congruence|congruence].
Qed.

Lemma resumeAll_untouched started : forall c,
  let c' := foldl (fun c call => resume parse call c) c started in
  connectionUntouched c c' /\ listeners c' = listeners c /\ observed c' = observed c.
Proof.
  induction started as [|call started IH]; intros c.
  - simpl. split_and!; try done. apply connectionUntouched_refl.
  - cbn [foldl]. destruct (resume_untouched call c) as (U1 & U2 & U3).
    destruct (IH (resume parse call c)) as (I1 & I2 & I3).
    split_and!; [by eapply connectionUntouched_trans|congruence|congruence].
Qed.

Lemma unsubscribeAll_untouched c :
  let c' := snd (unsubscribeAll parse c) in
  connectionUntouched c c' /\ listeners c' = listeners c /\ observed c' = observed c.
Proof.
  unfold unsubscribeAll, startAll.
  destruct (startAll_untouched (elements (subscriptions c)) [] c) as (S1 & S2 & S3).
  destruct (foldl _ ([], c) (elements (subscriptions c))) as [started c1].
  cbn [snd] in *.
  destruct (resumeAll_untouched started c1) as (R1 & R2 & R3).
  split_and!; [by eapply connectionUntouched_trans|congruence|congruence].
Qed.

(** X16. When an [unsubscribe] call made by [disconnect()] throws (the write of
    its message throws), [disconnect()] rejects at its first [await] and
    does none of its clean-up: the transport still points to the same
    socket, no socket has been closed, the heartbeat timers are still
    armed, the listeners are still registered and nothing is emitted. *)
Theorem failed_unsubscribe_aborts_disconnect c :
  fst (disconnect parse c) = Some false ->
  let c' := snd (disconnect parse c) in
  connectionUntouched c c' /\ listeners c' = listeners c /\ observed c' = observed c.
Proof.
  unfold disconnect. pose proof (unsubscribeAll_untouched c) as Hframe.
  destruct (unsubscribeAll parse c) as [outcome c1]. cbn [snd] in Hframe.
  destruct outcome as [[|]|]; simpl; intros [=]. exact Hframe.
Qed.

(** ** A [disconnect()] that goes through *)

Lemma unsubscribe_connected r c t k sock :
  wsTransport c = Some t -> ws t = Some k -> sockets t !! k = Some sock ->
  readyState sock = OPEN -> script sock = [] ->
  r <> "" -> r ∈ subscriptions c ->
  unsubscribe parse r c =
  (nextCall c,
   {| baseURL := baseURL c;
      wsTransport :=
        Some (set_sockets
                (<[k := {| readyState := OPEN; script := [];
                           written := written sock ++ [unsubscribeMessage r];
                           closeCalls := closeCalls sock; opened := opened sock |}]>
                   (sockets t)) t);
      cache := cache c; subscriptions := subscriptions c; listeners := listeners c;
      calls := <[nextCall c := UnsubscribeAtSend r SendReturned]> (calls c);
      nextCall := S (nextCall c); observed := observed c |}).
Proof.
  intros Ht Hws Hs Hopen Hscript Hr Hin.
  assert (Hconn : isConnected t = true).
  { unfold isConnected, currentSocket. rewrite Hws, Hs. by apply bool_decide_eq_true_2. }
  assert (Hsend : send (unsubscribeMessage r) t =
    (SendReturned,
     set_sockets
       (<[k := {| readyState := OPEN; script := [];
                  written := written sock ++ [unsubscribeMessage r];
                  closeCalls := closeCalls sock; opened := opened sock |}]>
          (sockets t)) t)).
  { unfold send. rewrite Hconn. unfold currentSocket. rewrite Hws, Hs.
    unfold ws_send. rewrite Hscript, Hopen. done. }
  unfold unsubscribe. rewrite decide_False by done. rewrite decide_True by done.
  rewrite Ht, Hconn, Hsend.
  rewrite (withTransport_silent _ c t Ht) by done. done.
Qed.

Lemma startAll_connected ids : forall started c t sock k,
  wsTransport c = Some t -> ws t = Some k -> sockets t !! k = Some sock ->
  readyState sock = OPEN -> script sock = [] ->
  (forall r, r ∈ ids -> r <> "" /\ r ∈ subscriptions c) ->
  exists c1,
    foldl (fun acc r =>
             let (call, c') := unsubscribe parse r (snd acc) in
             (fst acc ++ [call], c')) (started, c) ids
    = (started ++ seq (nextCall c) (length ids), c1) /\
    subscriptions c1 = subscriptions c /\ listeners c1 = listeners c /\
    observed c1 = observed c /\
    wsTransport c1 =
      Some (set_sockets
              (<[k := {| readyState := OPEN; script := [];
                         written := written sock ++ (unsubscribeMessage <$> ids);
                         closeCalls := closeCalls sock; opened := opened sock |}]>
                 (sockets t)) t) /\
    (forall i r, ids !! i = Some r ->
       calls c1 !! (nextCall c + i) = Some (UnsubscribeAtSend r SendReturned)) /\
    (forall j, j < nextCall c -> calls c1 !! j = calls c !! j).
Proof.
  induction ids as [|r ids IH]; intros started c t sock k Ht Hws Hs Hopen Hscript Hids.
  - exists c. cbn [foldl length seq fmap list_fmap]. rewrite !app_nil_r.
    split; [done|]. split; [done|]. split; [done|]. split; [done|]. split.
    + rewrite Ht. f_equal. apply transport_ext; tsimpl; try done.
      rewrite list_insert_id; [done|]. rewrite Hs. f_equal.
      destruct sock; simpl in *. by subst.
    + split; [|done]. intros i r Hi. by rewrite lookup_nil in Hi.
  - destruct (Hids r) as [Hr Hin]; [apply elem_of_cons; by left|].
    cbn [foldl snd fst].
    rewrite (unsubscribe_connected r c t k sock Ht Hws Hs Hopen Hscript Hr Hin).
    set (sock1 := {| readyState := OPEN; script := [];
                     written := written sock ++ [unsubscribeMessage r];
                     closeCalls := closeCalls sock; opened := opened sock |}).
    set (t1 := set_sockets (<[k := sock1]> (sockets t)) t).
    set (c' := {| baseURL := baseURL c; wsTransport := Some t1; cache := cache c;
                  subscriptions := subscriptions c; listeners := listeners c;
                  calls := <[nextCall c := UnsubscribeAtSend r SendReturned]> (calls c);
                  nextCall := S (nextCall c); observed := observed c |}).
    assert (Hlen : k < length (sockets t)) by (by eapply lookup_lt_Some).
    destruct (IH (started ++ [nextCall c]) c' t1 sock1 k) as
      (c1 & Hfold & H1 & H2 & H3 & H4 & H5 & H6); try done.
    { subst t1. tsimpl. by apply list_lookup_insert_eq. }
    { intros r' Hr'. apply Hids. apply elem_of_cons. by right. }
    exists c1. split; [|split; [done|split; [done|split; [done|split; [|split]]]]].
    + rewrite Hfold. cbn [nextCall c' length seq]. by rewrite <- app_assoc.
    + rewrite H4. f_equal. subst t1 sock1. apply transport_ext; tsimpl; try done.
      rewrite list_insert_insert_eq. cbn [closeCalls opened written fmap list_fmap].
      by rewrite <- app_assoc.
    + intros i r' Hi. destruct i as [|i].
      * injection Hi as <-. rewrite Nat.add_0_r. rewrite H6 by (cbn; lia).
        cbn [calls c']. apply lookup_insert_eq.
      * replace (nextCall c + S i) with (nextCall c' + i) by (cbn; lia).
        by apply H5.
    + intros j Hj. rewrite H6 by (cbn; lia). cbn [calls c'].
      rewrite lookup_insert_ne; [done|lia].
Qed.

Lemma resumeAll_returned ids : forall n c1,
  (forall i r, ids !! i = Some r ->
     calls c1 !! (n + i) = Some (UnsubscribeAtSend r SendReturned)) ->
  let c2 := foldl (fun c call => resume parse call c) c1 (seq n (length ids)) in
  subscriptions c2 = subscriptions c1 ∖ list_to_set ids /\
  wsTransport c2 = wsTransport c1 /\ listeners c2 = listeners c1 /\
  observed c2 = observed c1 /\
  (forall i, i < length ids -> calls c2 !! (n + i) = Some Resolved) /\
  (forall j, j < n -> calls c2 !! j = calls c1 !! j).
Proof.
  induction ids as [|r ids IH]; intros n c1 Hcalls.
  - cbn [length seq foldl]. split; [set_solver|]. split_and!; try done. cbn. lia.
  - cbn [length seq foldl].
    assert (Hn : calls c1 !! n = Some (UnsubscribeAtSend r SendReturned)).
    { rewrite <- (Nat.add_0_r n). by apply Hcalls. }
    assert (Hres : resume parse n c1 =
                   set_call n Resolved
                     (set_subscriptions (subscriptions c1 ∖ {[r]}) c1)).
    { unfold resume. by rewrite Hn. }
    rewrite Hres. set (c1' := set_call n Resolved _).
    destruct (IH (S n) c1') as (H1 & H2 & H3 & H4 & H5 & H6).
    { intros i r' Hi. subst c1'. cbn [calls set_call set_subscriptions].
      rewrite lookup_insert_ne by lia.
      replace (S n + i) with (n + S i) by lia. by apply Hcalls. }
    split; [|split; [done|split; [done|split; [done|split]]]].
    + rewrite H1. subst c1'. cbn [subscriptions set_call set_subscriptions].
      set_solver.
    + intros i Hi. destruct i as [|i].
      * rewrite Nat.add_0_r. rewrite H6 by lia. subst c1'.
        cbn [calls set_call set_subscriptions]. apply lookup_insert_eq.
      * replace (n + S i) with (S n + i) by lia. apply H5. lia.
    + intros j Hj. rewrite H6 by lia. subst c1'.
      cbn [calls set_call set_subscriptions]. rewrite lookup_insert_ne; [done|lia].
Qed.

Lemma allSettled_resolved n len c :
  (forall i, i < len -> calls c !! (n + i) = Some Resolved) ->
  allSettled (seq n len) c = Some true.
Proof.
  intros Hall. unfold allSettled.
  assert (Hlook : forall call, In call (seq n len) -> calls c !! call = Some Resolved).
  { intros call Hin. apply in_seq in Hin.
    replace call with (n + (call - n)) by lia. apply Hall. lia. }
  assert (Hex : existsb (fun call => match calls c !! call with
                                     | Some Threw => true
                                     | _ => false
                                     end) (seq n len) = false).
  { apply not_true_is_false. intros Hex. apply existsb_exists in Hex as (call & Hin & Hc).
    by rewrite (Hlook call Hin) in Hc. }
  rewrite Hex.
  assert (Hfa : forallb (fun call => match calls c !! call with
                                     | Some Resolved => true
                                     | _ => false
                                     end) (seq n len) = true).
  { apply forallb_forall. intros call Hin. by rewrite (Hlook call Hin). }
  by rewrite Hfa.
Qed.

(** X17. On a connected client whose socket accepts the writes, [disconnect()]
    resolves after sending one unsubscribe message for every subscribed
    resourceId, emptying the subscription set, closing the socket with code
    1000 (the transport drops its socket, its queue and its heartbeat),
    removing every listener and only then emitting ['disconnected']. *)
Theorem disconnect_unsubscribes_then_closes c t k sock :
  wsTransport c = Some t -> ws t = Some k -> sockets t !! k = Some sock ->
  readyState sock = OPEN -> script sock = [] ->
  "" ∉ subscriptions c ->
  let c' := snd (disconnect parse c) in
  fst (disconnect parse c) = Some true /\
  subscriptions c' = ∅ /\ listeners c' = [] /\
  observed c' = observed c ++ [EmittedDisconnected] /\
  writtenOn k c' =
    written sock ++ (unsubscribeMessage <$> elements (subscriptions c)) /\
  exists t',
    wsTransport c' = Some t' /\ ws t' = None /\ messageQueue t' = [] /\
    heartbeatInterval t' = None /\
    closeCalls <$> sockets t' !! k = Some (closeCalls sock ++ [1000%Z]).
Proof.
  intros Ht Hws Hs Hopen Hscript Hempty.
  set (ids := elements (subscriptions c)).
  destruct (startAll_connected ids [] c t sock k Ht Hws Hs Hopen Hscript)
    as (c1 & Hfold & S1 & S2 & S3 & S4 & S5 & _).
  { intros r Hr. apply elem_of_elements in Hr. split; [|done]. by intros ->. }
  destruct (resumeAll_returned ids (nextCall c) c1 S5) as (R1 & R2 & R3 & R4 & R5 & _).
  set (c2 := foldl (fun c call => resume parse call c) c1
                   (seq (nextCall c) (length ids))) in *.
  assert (Hall : unsubscribeAll parse c = (Some true, c2)).
  { unfold unsubscribeAll, startAll. fold ids. rewrite Hfold. cbn [app].
    fold c2. by rewrite (allSettled_resolved _ _ c2 R5). }
  set (sockW := {| readyState := OPEN; script := [];
                   written := written sock ++ (unsubscribeMessage <$> ids);
                   closeCalls := closeCalls sock; opened := opened sock |}) in *.
  set (tW := set_sockets (<[k := sockW]> (sockets t)) t) in *.
  assert (Ht2 : wsTransport c2 = Some tW) by congruence.
  assert (Hlen : k < length (sockets t)) by (by eapply lookup_lt_Some).
  assert (Hdisc : Transport.disconnect tW =
    {| ws := None; sockets := <[k := ws_close 1000 sockW]> (sockets t);
       reconnectAttempts := 0; isReconnecting := false; messageQueue := [];
       heartbeatInterval := None; heartbeatTimeoutId := None;
       timers := timers t ∖ heldTimers t;
       Transport.calls := Transport.calls t; nextId := nextId t;
       emitted := emitted t |}).
  { unfold Transport.disconnect. rewrite stopHeartbeat_spec. subst tW. tsimpl.
    rewrite Hws. rewrite onSocket_spec. tsimpl.
    rewrite list_lookup_insert_eq by done. rewrite list_insert_insert_eq.
    apply transport_ext; by tsimpl. }
  unfold disconnect. rewrite Hall. cbv zeta.
  rewrite (withTransport_silent _ c2 tW Ht2) by (by rewrite Hdisc).
  cbn [fst snd]. split; [done|].
  cbn [subscriptions listeners observed observe set_listeners set_wsTransport wsTransport].
  split; [|split; [done|split; [congruence|split]]].
  - rewrite R1, S1. subst ids. rewrite list_to_set_elements_L. set_solver.
  - unfold writtenOn. cbn [wsTransport observe set_listeners set_wsTransport].
    rewrite Hdisc. tsimpl. rewrite list_lookup_insert_eq by done. done.
  - eexists. split; [reflexivity|]. rewrite Hdisc. tsimpl.
    split; [done|]. split; [done|]. split; [done|].
    rewrite list_lookup_insert_eq by done. done.
Qed.

End WithSchema.

Lemma failed_unsubscribe_aborts_disconnect_witness :
  let c' := snd (disconnect demo_parse demo_failing_write) in
  connectionUntouched demo_failing_write c' /\
  listeners c' = listeners demo_failing_write /\
  observed c' = observed demo_failing_write.
Proof.
  apply (failed_unsubscribe_aborts_disconnect demo_parse demo_failing_write).
  vm_compute. reflexivity.
Defined.

(** On the concrete client: the write for ["r3"] throws, so ["r3"] stays
    subscribed while ["r1"] and ["r2"] are unsubscribed, and the socket is
    not closed. *)
Example demo_failed_disconnect :
  let c' := snd (disconnect demo_parse demo_failing_write) in
  fst (disconnect demo_parse demo_failing_write) = Some false /\
  subscriptions c' = {[ "r3" ]} /\
  (isConnected <$> wsTransport c') = Some true /\
  writtenOn 0 c' = writtenOn 0 demo_failing_write ++
                   [unsubscribeMessage "r1"; unsubscribeMessage "r2"].
Proof. vm_compute. repeat split. Qed.

Lemma disconnect_unsubscribes_then_closes_witness :
  let sock := {| readyState := OPEN; script := [];
                 written := [subscribeMessage "r1"; subscribeMessage "r2";
                             subscribeMessage "r3"];
                 closeCalls := []; opened := Fulfilled |} in
  let c' := snd (disconnect demo_parse demo_subscribed) in
  fst (disconnect demo_parse demo_subscribed) = Some true /\
  subscriptions c' = ∅ /\ listeners c' = [] /\
  observed c' = observed demo_subscribed ++ [EmittedDisconnected] /\
  writtenOn 0 c' =
    written sock ++ (unsubscribeMessage <$> elements (subscriptions demo_subscribed)) /\
  exists t',
    wsTransport c' = Some t' /\ ws t' = None /\ messageQueue t' = [] /\
    heartbeatInterval t' = None /\
    closeCalls <$> sockets t' !! 0 = Some (closeCalls sock ++ [1000%Z]).
Proof.
  pose proof (disconnect_unsubscribes_then_closes demo_parse demo_subscribed
    (default Transport.initial (wsTransport demo_subscribed)) 0
    {| readyState := OPEN; script := [];
       written := [subscribeMessage "r1"; subscribeMessage "r2"; subscribeMessage "r3"];
       closeCalls := []; opened := Fulfilled |}) as H.
  cbv zeta in H. cbv zeta. apply H.
  - vm_compute. reflexivity.
  - vm_compute. reflexivity.
  - vm_compute. reflexivity.
  - reflexivity.
  - reflexivity.
  - apply (bool_decide_unpack _). vm_compute. exact I.
Defined.

End LifecycleFacts.

(* ===================================================================== *)
(** * Facts about repeated [subscribe] and [unsubscribe] calls *)
(* ===================================================================== *)
Module IdempotenceFacts.
Import Transport Client ClientLifecycle TransportFacts ClientFacts LifecycleFacts.

Section WithSchema.

Variable parse : string -> option string.

(** ** [EAMPClient]: calls that are awaited *)






End WithSchema.




End IdempotenceFacts.

(* ===================================================================== *)
(** * More facts about the React provider *)
(* ===================================================================== *)
Module ProviderProperties.
Import Transport Provider ProviderFacts.

(** ** Updates *)

(** X18. With the [EAMPClient] the provider builds, the callbacks handed
    to the provider's [subscribe] are never called and its effect adds no
    ['message'] listener: [client.ws] is [undefined], so the effect skips
    the listeners (l.42) and every guarded [send] is skipped too.  This
    holds whatever is registered, released or unsubscribed, however often
    the effect runs, and whatever message events are offered. *)
Theorem provider_never_calls_a_callback throwsOn events :
  let p := run throwsOn events initial in
  noCallbackCalled p /\ messageListeners p = 0 /\
  (forall data, onMessage throwsOn data p = p).
Proof.
  destruct (provider_is_silent throwsOn events) as (Hws & Hl & Htr).
  cbv zeta. split_and!.
  - intros callback metadata. rewrite Htr. apply not_elem_of_nil.
  - done.
  - intros data. unfold onMessage. by rewrite Hws.
Qed.

(** ** A handle that outlives [unsubscribe] *)

(** X19. [unsubscribe(resourceId)] drops the entry of the registry but
    leaves the handles of its callbacks usable.  When such a handle is
    released after a new registration for the same resourceId, it finds
    its own, abandoned [Set] empty and deletes the registry entry of the
    new registration, whose callback is still in its [Set] and whose
    handle was never released. *)
Theorem stale_handle_removes_newer_registration r f g p :
  subscriptions p !! r = None ->
  let h1 := fst (subscribe r f p) in
  let p1 := snd (subscribe r f p) in
  let p2 := unsubscribe r p1 in
  let h2 := fst (subscribe r g p2) in
  let p3 := snd (subscribe r g p2) in
  let p4 := release h1 p3 in
  (h_callbacks h2 <> h_callbacks h1 /\
   subscriptions p3 !! r = Some (h_callbacks h2) /\
   heap p3 !! h_callbacks h2 = Some [g]) /\
  subscriptions p4 !! r = None /\
  heap p4 !! h_callbacks h2 = Some [g].
Proof.
  intros Hr h1 p1 p2 h2 p3 p4.
  destruct (subscribe_first r f p Hr) as (Hh1 & Hheap1 & Hsub1 & _).
  fold h1 p1 in Hh1, Hheap1, Hsub1.
  destruct (unsubscribe_registry r p1) as (Hsub2 & Hheap2 & _).
  fold p2 in Hsub2, Hheap2.
  assert (Hr2 : subscriptions p2 !! r = None).
  { rewrite Hsub2. apply lookup_delete_eq. }
  destruct (subscribe_first r g p2 Hr2) as (Hh2 & Hheap3 & Hsub3 & _).
  fold h2 p3 in Hh2, Hheap3, Hsub3.
  assert (Hlen2 : length (heap p2) = S (length (heap p))).
  { rewrite Hheap2, Hheap1, length_app. simpl. lia. }
  assert (Ha1 : h_callbacks h1 = length (heap p)) by by rewrite Hh1.
  assert (Ha2 : h_callbacks h2 = S (length (heap p))) by by rewrite Hh2, <- Hlen2.
  assert (Hold : heap p3 !! h_callbacks h1 = Some [f]).
  { rewrite Ha1, Hheap3, Hheap2, Hheap1.
    rewrite lookup_app_l by (rewrite length_app; simpl; lia).
    rewrite lookup_app_r by done. by rewrite Nat.sub_diag. }
  assert (Hnew : heap p3 !! h_callbacks h2 = Some [g]).
  { rewrite Ha2, Hheap3, <- Hlen2.
    rewrite lookup_app_r by done. by rewrite Nat.sub_diag. }
  assert (Hdel : set_delete (h_callback h1) [f] = []).
  { rewrite Hh1. unfold set_delete. cbn [h_callback handleOf]. rewrite filter_cons.
    by rewrite decide_False by (intros H; by apply H). }
  destruct (release_last h1 p3 [f] Hold Hdel) as (Hsub4 & Hheap4).
  fold p4 in Hsub4, Hheap4.
  split_and!.
  - rewrite Ha1, Ha2. lia.
  - rewrite Hsub3, Hh2. apply lookup_insert_eq.
  - done.
  - rewrite Hsub4, Hh1. cbn [h_resourceId handleOf]. apply lookup_delete_eq.
  - rewrite Hheap4. rewrite list_lookup_insert_ne by (rewrite Ha1, Ha2; lia). done.
Qed.

Lemma stale_handle_removes_newer_registration_witness :
  let p := initial in
  let h1 := fst (subscribe "r" 1 p) in
  let p1 := snd (subscribe "r" 1 p) in
  let p2 := unsubscribe "r" p1 in
  let h2 := fst (subscribe "r" 2 p2) in
  let p3 := snd (subscribe "r" 2 p2) in
  let p4 := release h1 p3 in
  (h_callbacks h2 <> h_callbacks h1 /\
   subscriptions p3 !! "r" = Some (h_callbacks h2) /\
   heap p3 !! h_callbacks h2 = Some [2]) /\
  subscriptions p4 !! "r" = None /\
  heap p4 !! h_callbacks h2 = Some [2].
Proof.
  pose proof (stale_handle_removes_newer_registration "r" 1 2 initial) as H.
  cbv zeta in H. cbv zeta. apply H. reflexivity.
Defined.

End ProviderProperties.

(* ===================================================================== *)
(** * Facts about [MemoryCache] *)
(* ===================================================================== *)
Module CacheFacts.
Import MemoryCache.

Section WithValue.

Context {T : Type}.

Implicit Types (c : MemoryCache T) (entry : CacheEntry T).

Lemma get_live now key c entry :
  cache c !! key = Some entry -> (now <= expiresAt entry)%Z ->
  get now key c =
  (Some (value entry),
   {| cache := <[key := {| value := value entry; expiresAt := expiresAt entry;
                           createdAt := createdAt entry; lastAccessed := now;
                           accessCount := S (accessCount entry) |}]> (cache c);
      ttl := ttl c |}).
Proof.
  intros Hc Hlive. unfold get. rewrite Hc. rewrite decide_False by lia. done.
Qed.

Lemma get_expired now key c entry :
  cache c !! key = Some entry -> (expiresAt entry < now)%Z ->
  get now key c = (None, {| cache := base.delete key (cache c); ttl := ttl c |}).
Proof.
  intros Hc Hexp. unfold get. rewrite Hc. by rewrite decide_True.
Qed.

Lemma get_absent now key c :
  cache c !! key = None -> get now key c = (None, c).
Proof. intros Hc. unfold get. by rewrite Hc. Qed.

Lemma get_other now key key' c :
  key' <> key -> cache (snd (get now key c)) !! key' = cache c !! key'.
Proof.
  intros Hne. unfold get. destruct (cache c !! key) as [entry|]; [|done].
  case_decide; simpl.
  - by rewrite lookup_delete_ne.
  - by rewrite lookup_insert_ne.
Qed.

(** X20. A value stored with [set] is returned by [get] up to and including
    the instant [now + ttl] (the custom TTL if one is given, the default
    otherwise) and not after it; the [get] that finds the entry expired
    deletes it, and a [get] never touches the entry of another key. *)
Theorem entry_lives_until_expiry now now' key (v : T) customTTL c :
  let c1 := set now key v customTTL c in
  let c2 := snd (get now' key c1) in
  fst (get now' key c1) =
    (if decide (now' <= now + default (ttl c) customTTL)%Z then Some v else None) /\
  ((now + default (ttl c) customTTL < now')%Z ->
   cache c2 !! key = None /\ forall t, get t key c2 = (None, c2)) /\
  (forall key', key' <> key -> cache c2 !! key' = cache c !! key').
Proof.
  intros c1 c2.
  assert (Hc1 : cache c1 !! key =
                Some {| value := v; expiresAt := (now + default (ttl c) customTTL)%Z;
                        createdAt := now; lastAccessed := now; accessCount := 0 |}).
  { subst c1. unfold set. simpl. apply lookup_insert_eq. }
  split; [|split].
  - case_decide as Hlive.
    + by rewrite (get_live _ _ _ _ Hc1 Hlive).
    + rewrite (get_expired _ _ _ _ Hc1); [done|simpl; lia].
  - intros Hexp. subst c2. rewrite (get_expired _ _ _ _ Hc1 Hexp). simpl.
    split; [apply lookup_delete_eq|]. intros t. apply get_absent.
    simpl. apply lookup_delete_eq.
  - intros key' Hne. subst c2. rewrite get_other by done.
    subst c1. unfold set. simpl. by rewrite lookup_insert_ne.
Qed.

Lemma getMany_live times : forall key c entry,
  cache c !! key = Some entry ->
  Forall (fun t => (t <= expiresAt entry)%Z) times ->
  cache (getMany times key c) !! key =
  Some {| value := value entry; expiresAt := expiresAt entry;
          createdAt := createdAt entry;
          lastAccessed := default (lastAccessed entry) (last times);
          accessCount := accessCount entry + length times |}.
Proof.
  induction times as [|t times IH]; intros key c entry Hc Hall.
  - simpl. rewrite Hc. f_equal. destruct entry; simpl. f_equal. lia.
  - apply Forall_cons in Hall as [Ht Hall]. cbn [getMany].
    rewrite (get_live _ _ _ _ Hc Ht). cbn [snd].
    erewrite IH; [|simpl; apply lookup_insert_eq|exact Hall].
    rewrite last_cons. cbn [value expiresAt createdAt lastAccessed accessCount length].
    destruct (last times); cbn [default]; f_equal; f_equal; lia.
Qed.

(** X21. Between two [set]s the access counter counts the hits: after [set] and
    any number of [get]s that find the entry alive, the counter is the
    number of those calls, [lastAccessed] is the time of the last one, and
    the expiry time is still the one fixed by [set] (reading an entry does
    not prolong its life). *)
Theorem access_count_counts_hits now key (v : T) customTTL c times :
  Forall (fun t => (t <= now + default (ttl c) customTTL)%Z) times ->
  cache (getMany times key (set now key v customTTL c)) !! key =
  Some {| value := v; expiresAt := (now + default (ttl c) customTTL)%Z;
          createdAt := now;
          lastAccessed := default now (last times);
          accessCount := length times |}.
Proof.
  intros Hall.
  rewrite (getMany_live times key _
             {| value := v; expiresAt := (now + default (ttl c) customTTL)%Z;
                createdAt := now; lastAccessed := now; accessCount := 0 |}).
  - done.
  - unfold set. simpl. apply lookup_insert_eq.
  - exact Hall.
Qed.

(** ** [cleanup] *)

Lemma cleanup_spec now c :
  (forall key, cache (snd (cleanup now c)) !! key =
     match cache c !! key with
     | Some entry => if decide (expiresAt entry < now)%Z then None else Some entry
     | None => None
     end) /\
  fst (cleanup now c) + base.size (cache (snd (cleanup now c))) = base.size (cache c) /\
  ttl (snd (cleanup now c)) = ttl c.
Proof.
  unfold cleanup.
  assert (H : forall m,
    (forall key, cache (snd (map_fold (cleanupStep now) (0, c) m)) !! key =
       match m !! key with
       | Some entry => if decide (expiresAt entry < now)%Z then None
                       else cache c !! key
       | None => cache c !! key
       end) /\
    fst (map_fold (cleanupStep now) (0, c) m) =
      base.size (filter (fun kv => (expiresAt (snd kv) < now)%Z) m) /\
    ttl (snd (map_fold (cleanupStep now) (0, c) m)) = ttl c).
  { apply (map_fold_weak_ind
      (fun (r : nat * MemoryCache T) (m : gmap string (CacheEntry T)) =>
         (forall key, cache (snd r) !! key =
            match m !! key with
            | Some entry => if decide (expiresAt entry < now)%Z then None
                            else cache c !! key
            | None => cache c !! key
            end) /\
         fst r = base.size (filter (fun kv => (expiresAt (snd kv) < now)%Z) m) /\
         ttl (snd r) = ttl c)).
    - split; [|split]; [|by rewrite map_filter_empty, map_size_empty|done].
      intros key. by rewrite lookup_empty.
    - intros i x m r Hi (IH1 & IH2 & IH3). unfold cleanupStep.
      case_decide as Hexp; simpl.
      + split; [|split]; [| |done].
        * intros key. destruct (decide (key = i)) as [->|Hne].
          -- rewrite lookup_delete_eq, lookup_insert_eq. by rewrite decide_True.
          -- rewrite lookup_delete_ne, lookup_insert_ne by done. apply IH1.
        * rewrite map_filter_insert_True by done.
          rewrite map_size_insert_None; [by rewrite IH2|].
          apply map_lookup_filter_None. by left.
      + split; [|split]; [| |done].
        * intros key. destruct (decide (key = i)) as [->|Hne].
          -- rewrite lookup_insert_eq. rewrite decide_False by done.
             rewrite IH1, Hi. done.
          -- rewrite lookup_insert_ne by done. apply IH1.
        * rewrite map_filter_insert_False by done.
          rewrite delete_id by done. exact IH2. }
  destruct (H (cache c)) as (H1 & H2 & H3).
  set (r := map_fold (cleanupStep now) (0, c) (cache c)) in *.
  assert (Hlookup : forall key, cache (snd r) !! key =
     match cache c !! key with
     | Some entry => if decide (expiresAt entry < now)%Z then None else Some entry
     | None => None
     end).
  { intros key. rewrite H1. destruct (cache c !! key) as [entry|] eqn:Hk; [|done].
    by case_decide. }
  split; [exact Hlookup|]. split; [|exact H3].
  assert (Hlive : cache (snd r) =
                  filter (fun kv => ~ (expiresAt (snd kv) < now)%Z) (cache c)).
  { apply map_eq. intros key. rewrite Hlookup, map_lookup_filter.
    destruct (cache c !! key) as [entry|]; [|done]. simpl.
    case_decide.
    - by rewrite option_guard_False by tauto.
    - by rewrite option_guard_True. }
  rewrite H2, Hlive.
  rewrite <- (map_size_disj_union _ _).
  - f_equal. apply map_filter_union_complement.
  - apply map_disjoint_filter_complement.
Qed.

(** X22. [cleanup] removes exactly the entries whose expiry time has passed and
    returns how many there were; the entries it leaves are all found by a
    [get] at that time, and a second [cleanup] at that time removes
    nothing. *)
Theorem cleanup_removes_exactly_the_expired now c :
  let removed := fst (cleanup now c) in
  let c' := snd (cleanup now c) in
  cache c' = filter (fun kv => (now <= expiresAt (snd kv))%Z) (cache c) /\
  removed + size c' = size c /\
  (forall key entry, cache c' !! key = Some entry ->
     fst (get now key c') = Some (value entry)) /\
  fst (cleanup now c') = 0.
Proof.
  intros removed c'. destruct (cleanup_spec now c) as (H1 & H2 & H3).
  fold c' in H1, H2, H3. fold removed in H2.
  assert (Hlive : forall key entry, cache c' !! key = Some entry ->
                    (now <= expiresAt entry)%Z).
  { intros key entry. rewrite H1. destruct (cache c !! key) as [e|]; [|done].
    case_decide; [done|]. intros [= <-]. lia. }
  split; [|split; [exact H2|split]].
  - apply map_eq. intros key. rewrite H1, map_lookup_filter.
    destruct (cache c !! key) as [entry|]; [|done]. simpl.
    case_decide.
    + by rewrite option_guard_False by lia.
    + by rewrite option_guard_True by lia.
  - intros key entry Hk. by rewrite (get_live _ _ _ _ Hk (Hlive _ _ Hk)).
  - destruct (cleanup_spec now c') as (G1 & G2 & G3).
    assert (Hsame : cache (snd (cleanup now c')) = cache c').
    { apply map_eq. intros key. rewrite G1.
      destruct (cache c' !! key) as [entry|] eqn:Hk; [|done].
      rewrite decide_False; [done|]. specialize (Hlive _ _ Hk). lia. }
    rewrite Hsame in G2. lia.
Qed.

(** X23. [cleanup] is invisible to [get]: at any later time a [get] returns the
    same value whether or not the cache was cleaned up before. *)
Theorem cleanup_does_not_change_answers now now' key c :
  (now <= now')%Z ->
  fst (get now' key (snd (cleanup now c))) = fst (get now' key c).
Proof.
  intros Hle. destruct (cleanup_spec now c) as (H1 & _ & _).
  unfold get. rewrite H1.
  destruct (cache c !! key) as [entry|]; [|done].
  case_decide as Hexp.
  - rewrite decide_True by lia. done.
  - by case_decide.
Qed.

End WithValue.

Lemma access_count_counts_hits_witness :
  cache (getMany [10; 20; 300000]%Z "k" (set 0 "k" "v" None (create string None))) !! "k" =
  Some {| value := "v"; expiresAt := (0 + default (ttl (create string None)) None)%Z;
          createdAt := 0;
          lastAccessed := default 0%Z (last [10; 20; 300000]%Z);
          accessCount := length [10; 20; 300000]%Z |}.
Proof.
  apply (access_count_counts_hits 0 "k" "v" None (create string None)
           [10; 20; 300000]%Z).
  repeat constructor; simpl; lia.
Defined.

Lemma cleanup_does_not_change_answers_witness :
  fst (get 2000 "b" (snd (cleanup 1600 demo_cache))) = fst (get 2000 "b" demo_cache).
Proof.
  apply (cleanup_does_not_change_answers 1600 2000 "b" demo_cache). lia.
Defined.

(** On the concrete cache: ["b"] expires at 1500, ["a"] at 300000. *)
Example demo_cache_expiry :
  fst (get 1500 "b" demo_cache) = Some "B" /\
  fst (get 1501 "b" demo_cache) = None /\
  fst (cleanup 1501 demo_cache) = 1 /\
  size (snd (cleanup 1501 demo_cache)) = 1 /\
  fst (get 300000 "a" demo_cache) = Some "A" /\
  fst (get 300001 "a" demo_cache) = None.
Proof. vm_compute. repeat split. Qed.

End CacheFacts.

(* ===================================================================== *)
(** * Facts about [HttpTransport] *)
(* ===================================================================== *)
Module HttpFacts.
Import Errors Http.

(** No error thrown by [makeRequest] passes the test for errors that are
    not retried. *)
Lemma makeRequest_is_retried options outcome error :
  makeRequest options outcome = inr error -> notRetried error = false.
Proof.
  unfold makeRequest. destruct (baseURL options) as [url|]; [|by intros [= <-]].
  case_decide; [by intros [= <-]|].
  destruct outcome; intros [= <-]; done.
Qed.

Lemma backoff_bounds attempt : (1000 <= backoff attempt <= 10000)%Z.
Proof.
  unfold backoff. split; [|lia].
  assert (1 <= 2 ^ Z.of_nat attempt)%Z; [|lia].
  apply (Z.pow_le_mono_r 2 0 (Z.of_nat attempt)); lia.
Qed.

Lemma requestLoop_spec options env remaining : forall attempt slept,
  exists n,
    n <= remaining /\
    requestLoop options env remaining attempt slept =
      (makeRequest options (env (attempt + n)),
       slept ++ (backoff <$> seq attempt n)) /\
    (forall i, i < n -> exists error,
       makeRequest options (env (attempt + i)) = inr error) /\
    ((exists error, makeRequest options (env (attempt + n)) = inr error) ->
     n = remaining).
Proof.
  induction remaining as [|remaining IH]; intros attempt slept.
  - exists 0. rewrite Nat.add_0_r. simpl. rewrite app_nil_r.
    split; [done|]. split; [|split; [lia|done]].
    destruct (makeRequest options (env attempt)) as [response|error] eqn:Hm; [done|].
    by rewrite (makeRequest_is_retried _ _ _ Hm).
  - cbn [requestLoop].
    destruct (makeRequest options (env attempt)) as [response|error] eqn:Hm.
    + exists 0. rewrite Nat.add_0_r, Hm. simpl. rewrite app_nil_r.
      split; [lia|]. split; [done|]. split; [lia|]. by intros [? [=]].
    + rewrite (makeRequest_is_retried _ _ _ Hm).
      destruct (IH (S attempt) (slept ++ [backoff attempt])) as (n & Hn & Hloop & Hfail & Hlast).
      exists (S n). replace (attempt + S n) with (S attempt + n) by lia.
      split; [lia|]. split; [|split].
      * rewrite Hloop. cbn [seq fmap list_fmap]. by rewrite <- app_assoc.
      * intros i Hi. destruct i as [|i].
        -- rewrite Nat.add_0_r. eauto.
        -- replace (attempt + S i) with (S attempt + i) by lia. apply Hfail. lia.
      * intros Herr. f_equal. by apply Hlast.
Qed.

(** X24. [request] makes the attempts 0, 1, ... in turn and stops at the first
    one that gets a response, or after attempt number [retryAttempts];
    what it returns or throws is the outcome of the attempt it stops at.
    Between attempt [i] and the next it sleeps [min(1000 * 2^i, 10000)] ms,
    so each pause is between one and ten seconds, and it never sleeps after
    its last attempt. *)
Theorem request_stops_at_first_response_or_last_attempt options env :
  exists n,
    n <= retryAttempts options /\
    request options env = (makeRequest options (env n), backoff <$> seq 0 n) /\
    (forall i, i < n -> exists error, makeRequest options (env i) = inr error) /\
    ((exists error, makeRequest options (env n) = inr error) ->
     n = retryAttempts options) /\
    Forall (fun delay => (1000 <= delay <= 10000)%Z) (snd (request options env)).
Proof.
  destruct (requestLoop_spec options env (retryAttempts options) 0 [])
    as (n & Hn & Hloop & Hfail & Hlast).
  exists n. unfold request. rewrite Hloop. simpl.
  split; [done|]. split; [done|]. split; [exact Hfail|]. split; [exact Hlast|].
  apply Forall_fmap, Forall_forall. intros i _. apply backoff_bounds.
Qed.

(** X25. Without a base URL no attempt can succeed, yet the error is retried
    like a network failure: [request] throws "Base URL is required" only
    after [retryAttempts] pauses (1000 + 2000 + 4000 ms with the default
    options), whatever the network would have answered. *)
Theorem missing_base_url_is_retried options env :
  baseURL options = None \/ baseURL options = Some "" ->
  request options env =
  (inr (defaultError "Base URL is required for HTTP transport"),
   backoff <$> seq 0 (retryAttempts options)).
Proof.
  intros Hurl.
  assert (Hfail : forall outcome,
    makeRequest options outcome =
    inr (defaultError "Base URL is required for HTTP transport")).
  { intros outcome. unfold makeRequest. destruct Hurl as [->| ->]; [done|].
    by rewrite decide_True. }
  destruct (requestLoop_spec options env (retryAttempts options) 0 [])
    as (n & Hn & Hloop & _ & Hlast).
  unfold request. rewrite Hloop, Hfail. simpl.
  rewrite Hlast; [done|]. rewrite Hfail. eauto.
Qed.

Lemma missing_base_url_is_retried_witness :
  request (defaultOptions None) demo_env =
  (inr (defaultError "Base URL is required for HTTP transport"),
   backoff <$> seq 0 (retryAttempts (defaultOptions None))).
Proof.
  apply (missing_base_url_is_retried (defaultOptions None) demo_env). by left.
Defined.

(** With the default options: two timeouts, then a response. *)
Example demo_request :
  request (defaultOptions (Some "http://localhost:3000")) demo_env =
    (inl demo_response, [1000; 2000]%Z) /\
  snd (request (defaultOptions None) demo_env) = [1000; 2000; 4000]%Z /\
  backoff <$> seq 0 6 = [1000; 2000; 4000; 8000; 10000; 10000]%Z.
Proof. vm_compute. repeat split. Qed.

End HttpFacts.

(* ===================================================================== *)
(** * Facts about [EAMPClient.getMetadata] *)
(* ===================================================================== *)
Module FetchFacts.
Import Errors Http Fetch HttpFacts.

Section WithSchemas.

Variable parse : string -> Result string.
Variable parseError : string -> Result (string * string).

(** The schema validator throws errors of its own, not
    [EAMPClientError]s. *)
Hypothesis parse_throws_foreign :
  forall data error, parse data = inr error -> isEAMPClientError error = false.

Lemma errorResponse_spec response :
  errorResponse parseError response =
  inr (NetworkError ("HTTP " +:+ pretty (status response) +:+ ": "
                     +:+ statusText response)).
Proof.
  unfold errorResponse, readJson.
  destruct (json response); simpl; try done.
  destruct (parseError data) as [[message code]|error]; done.
Qed.

Lemma request_errors options env error :
  fst (request options env) = inr error ->
  error = defaultError "Base URL is required for HTTP transport" \/
  (exists message, error = NetworkError message) \/
  (exists message, error = OtherError message).
Proof.
  destruct (requestLoop_spec options env (retryAttempts options) 0 [])
    as (n & _ & Hloop & _ & _).
  unfold request. rewrite Hloop. simpl. unfold makeRequest.
  destruct (baseURL options) as [url|]; [|intros [= <-]; by left].
  case_decide; [intros [= <-]; by left|].
  destruct (env n); intros [= <-]; eauto.
Qed.

Lemma rethrow_codes error :
  (exists message code, error = EAMPClientError message code /\ code ∈ getMetadataCodes) \/
  isEAMPClientError error = false ->
  exists message code,
    rethrow error = inr (EAMPClientError message code) /\ code ∈ getMetadataCodes.
Proof.
  unfold rethrow, getMetadataCodes.
  intros [(message & code & -> & Hcode)|Hforeign].
  - simpl. eauto.
  - rewrite Hforeign. destruct error; try discriminate.
    + eexists _, _. split; [reflexivity|]. set_solver.
    + eexists _, _. split; [reflexivity|]. set_solver.
Qed.

Lemma lookupCache_options now r c : options (snd (lookupCache now r c)) = options c.
Proof.
  unfold lookupCache. destruct (cache c) as [entries|]; [|done].
  by destruct (MemoryCache.get now r entries).
Qed.

Lemma lookupCache_cache now r c entries :
  cache c = Some entries ->
  exists entries', cache (snd (lookupCache now r c)) = Some entries' /\
                   MemoryCache.ttl entries' = MemoryCache.ttl entries.
Proof.
  intros Hc. unfold lookupCache. rewrite Hc. unfold MemoryCache.get.
  destruct (MemoryCache.cache entries !! r) as [entry|]; [|eauto].
  case_decide; eauto.
Qed.

Lemma lookup_after_store now now2 r metadata c entries :
  cache c = Some entries -> (now2 <= now + MemoryCache.ttl entries)%Z ->
  fst (lookupCache now2 r (storeInCache now r metadata c)) = Some metadata.
Proof.
  intros Hc Hlive. unfold storeInCache, lookupCache. rewrite Hc. cbn [cache options].
  unfold MemoryCache.get, MemoryCache.set.
  cbn [MemoryCache.cache MemoryCache.ttl default].
  rewrite lookup_insert_eq. cbn [MemoryCache.expiresAt].
  rewrite decide_False by lia. done.
Qed.

(** [getMetadata] when the cache does not answer. *)
Lemma getMetadata_miss now now' r env c :
  r <> "" -> fst (lookupCache now r c) = None ->
  getMetadata parse parseError now now' r env c =
  let c1 := snd (lookupCache now r c) in
  match try_catch (match fst (request (options c) env) with
                   | inr error => inr error
                   | inl response => readMetadata parse parseError r response
                   end) rethrow with
  | inl metadata =>
      (inl metadata, snd (request (options c) env), storeInCache now' r metadata c1)
  | inr error => (inr error, snd (request (options c) env), c1)
  end.
Proof.
  intros Hr Hmiss. unfold getMetadata. rewrite decide_False by done.
  pose proof (lookupCache_options now r c) as Hopt.
  destruct (lookupCache now r c) as [hit c1]. simpl in *. subst hit.
  unfold get. rewrite Hopt. by destruct (request (options c) env).
Qed.

Lemma readMetadata_errors r response error :
  readMetadata parse parseError r response = inr error ->
  (exists message code, error = EAMPClientError message code /\ code ∈ getMetadataCodes) \/
  isEAMPClientError error = false.
Proof.
  unfold readMetadata, getMetadataCodes. destruct (ok response); simpl.
  - unfold readJson. destruct (json response).
    + intros H. right. by eapply parse_throws_foreign.
    + intros [= <-]. by right.
    + intros [= <-]. by right.
  - case_decide.
    + intros [= <-]. left. eexists _, _. split; [reflexivity|]. set_solver.
    + rewrite errorResponse_spec. intros [= <-]. left.
      eexists _, _. split; [reflexivity|]. set_solver.
Qed.

(** X26. Whatever the network and the server do, an error thrown by
    [getMetadata] is an [EAMPClientError] whose code is one of
    [EAMP_ERROR], [RESOURCE_NOT_FOUND], [NETWORK_ERROR] and
    [VALIDATION_ERROR]; and a call that throws writes nothing to the
    cache. *)
Theorem getMetadata_throws_client_errors_only now now' r env c error :
  fst (fst (getMetadata parse parseError now now' r env c)) = inr error ->
  (exists message code,
     error = EAMPClientError message code /\ code ∈ getMetadataCodes) /\
  snd (getMetadata parse parseError now now' r env c) =
    (if decide (r = "") then c else snd (lookupCache now r c)).
Proof.
  destruct (decide (r = "")) as [->|Hr].
  - unfold getMetadata. simpl. intros [= <-]. split; [|done].
    eexists _, _. split; [reflexivity|]. unfold getMetadataCodes. set_solver.
  - destruct (fst (lookupCache now r c)) as [cached|] eqn:Hhit.
    + unfold getMetadata. rewrite decide_False by done.
      destruct (lookupCache now r c) as [hit c1]. simpl in Hhit. subst hit. done.
    + rewrite getMetadata_miss by done. cbv zeta.
      destruct (try_catch _ rethrow) as [metadata|error'] eqn:Htry; [done|].
      simpl. intros [= ->]. split; [|done].
      unfold try_catch in Htry.
      destruct (fst (request (options c) env)) as [response|error0] eqn:Hreq.
      * destruct (readMetadata parse parseError r response) as [m|error1] eqn:Hread;
          [done|].
        apply readMetadata_errors in Hread.
        destruct (rethrow_codes error1 Hread) as (message & code & Hre & Hcode).
        rewrite Hre in Htry. injection Htry as <-. eauto.
      * assert (Hkind : (exists message code,
                  error0 = EAMPClientError message code /\ code ∈ getMetadataCodes) \/
                  isEAMPClientError error0 = false).
        { apply request_errors in Hreq as [->|[[message ->]|[message ->]]].
          - left. eexists _, _. split; [reflexivity|]. unfold getMetadataCodes. set_solver.
          - left. eexists _, _. split; [reflexivity|]. unfold getMetadataCodes. set_solver.
          - by right. }
        destruct (rethrow_codes error0 Hkind) as (message & code & Hre & Hcode).
        rewrite Hre in Htry. injection Htry as <-. eauto.
Qed.

(** X27. For a response that is not [ok] and not a 404, [getMetadata] throws a
    [NetworkError] that names the HTTP status, whatever the body says: the
    error the server put in the body (its code and message) does not
    reach the caller, because the [catch] around the parsing of the body
    also catches the error built from it. *)
Theorem server_error_body_is_discarded now now' r env c response :
  r <> "" -> fst (lookupCache now r c) = None ->
  fst (request (options c) env) = inl response ->
  ok response = false -> status response <> 404%Z ->
  fst (fst (getMetadata parse parseError now now' r env c)) =
  inr (NetworkError ("HTTP " +:+ pretty (status response) +:+ ": "
                     +:+ statusText response)).
Proof.
  intros Hr Hmiss Hreq Hok Hstatus. rewrite getMetadata_miss by done. cbv zeta.
  rewrite Hreq. unfold readMetadata. rewrite Hok. simpl.
  rewrite decide_False by done. rewrite errorResponse_spec. done.
Qed.

(** ** The cache *)

(** X28. A value that [getMetadata] fetched is served from the cache, without
    any request, by every later call for the same resource made up to
    [cacheTTL] after the value was stored. *)
Theorem fetched_metadata_is_served_from_cache
    now now' now2 now3 r env env' c entries metadata :
  cache c = Some entries ->
  fst (lookupCache now r c) = None ->
  fst (fst (getMetadata parse parseError now now' r env c)) = inl metadata ->
  (now2 <= now' + MemoryCache.ttl entries)%Z ->
  let c1 := snd (getMetadata parse parseError now now' r env c) in
  fst (getMetadata parse parseError now2 now3 r env' c1) = (inl metadata, []).
Proof.
  intros Hcache Hmiss Hres Hlive c1.
  assert (Hr : r <> "").
  { intros ->. unfold getMetadata in Hres. simpl in Hres. discriminate. }
  subst c1. rewrite (getMetadata_miss now now' r env c Hr Hmiss) in *. cbv zeta in *.
  destruct (try_catch _ rethrow) as [m|error]; [|done].
  simpl in Hres. injection Hres as ->. cbn [snd].
  unfold getMetadata. rewrite decide_False by done.
  assert (Hlook : lookupCache now r c =
                  (None, {| options := options c;
                            cache := Some (snd (MemoryCache.get now r entries)) |})).
  { unfold lookupCache in *. rewrite Hcache in *.
    destruct (MemoryCache.get now r entries) as [cached entries']. simpl in *.
    by subst cached. }
  rewrite Hlook. cbn [snd]. unfold storeInCache, lookupCache. cbn [cache options].
  set (entries1 := snd (MemoryCache.get now r entries)).
  assert (Httl : MemoryCache.ttl entries1 = MemoryCache.ttl entries).
  { subst entries1. unfold MemoryCache.get.
    destruct (MemoryCache.cache entries !! r) as [entry|]; [|done].
    by case_decide. }
  assert (Hget : MemoryCache.get now2 r (MemoryCache.set now' r metadata None entries1) =
    (Some metadata,
     {| MemoryCache.cache :=
          <[r := {| MemoryCache.value := metadata;
                    MemoryCache.expiresAt := (now' + MemoryCache.ttl entries1)%Z;
                    MemoryCache.createdAt := now';
                    MemoryCache.lastAccessed := now2;
                    MemoryCache.accessCount := 1 |}]>
            (MemoryCache.cache (MemoryCache.set now' r metadata None entries1));
        MemoryCache.ttl := MemoryCache.ttl entries1 |})).
  { unfold MemoryCache.get, MemoryCache.set. cbn [MemoryCache.cache MemoryCache.ttl default].
    rewrite lookup_insert_eq. cbn [MemoryCache.expiresAt].
    rewrite decide_False by lia. done. }
  rewrite Hget. done.
Qed.

(** X29. [refreshMetadata] does not read the cache: what it returns or throws,
    and what it sleeps, is what a client without a cache gets from
    [getMetadata]; and when it returns a value, that value is what the
    cache holds for the resource afterwards. *)
Theorem refreshMetadata_bypasses_cache now now' r env c :
  fst (refreshMetadata parse parseError now now' r env c) =
  fst (getMetadata parse parseError now now' r env
         {| options := options c; cache := None |}) /\
  (forall metadata entries,
     fst (fst (refreshMetadata parse parseError now now' r env c)) = inl metadata ->
     cache c = Some entries -> (0 <= MemoryCache.ttl entries)%Z ->
     fst (lookupCache now' r (snd (refreshMetadata parse parseError now now' r env c)))
     = Some metadata).
Proof.
  unfold refreshMetadata.
  set (c0 := {| options := options c; cache := _ |}).
  set (cn := {| options := options c; cache := None |}).
  destruct (decide (r = "")) as [->|Hr].
  { unfold getMetadata. simpl. split; [done|]. intros metadata entries [=]. }
  assert (Hmiss0 : fst (lookupCache now r c0) = None).
  { subst c0. unfold lookupCache. cbn [cache].
    destruct (cache c) as [entries|]; [|done].
    unfold MemoryCache.delete, MemoryCache.get. cbn [snd MemoryCache.cache].
    by rewrite lookup_delete_eq. }
  assert (Hmissn : fst (lookupCache now r cn) = None) by done.
  rewrite !getMetadata_miss by done. cbv zeta.
  assert (Hopt : options c0 = options cn) by done. rewrite Hopt.
  destruct (try_catch _ rethrow) as [m|error] eqn:Htry.
  - split; [done|]. intros metadata entries [= ->] Hcache Httl.
    cbn [snd].
    assert (Hc0 : cache c0 = Some (snd (MemoryCache.delete r entries))).
    { subst c0. cbn [cache]. by rewrite Hcache. }
    destruct (lookupCache_cache now r c0 _ Hc0) as (entries' & Hc1 & Httl').
    apply (lookup_after_store now' now' r metadata _ entries' Hc1).
    rewrite Httl'. unfold MemoryCache.delete. cbn [snd MemoryCache.ttl]. lia.
  - split; [done|]. intros metadata entries [=].
Qed.

End WithSchemas.

Lemma demo_parse_throws_foreign data error :
  demo_parse data = inr error -> isEAMPClientError error = false.
Proof. unfold demo_parse. case_decide; intros [= <-]. reflexivity. Qed.

Lemma getMetadata_throws_client_errors_only_witness :
  (exists message code,
     NetworkError "HTTP 429: Too Many Requests" = EAMPClientError message code /\
     code ∈ getMetadataCodes) /\
  snd (getMetadata demo_parse demo_parseError 0 0 "chart"
         (fun _ => Responds demo_rate_limited) demo_client) =
    (if decide ("chart" = "") then demo_client
     else snd (lookupCache 0 "chart" demo_client)).
Proof.
  apply (getMetadata_throws_client_errors_only demo_parse demo_parseError
           demo_parse_throws_foreign 0 0 "chart"
           (fun _ => Responds demo_rate_limited) demo_client).
  vm_compute. reflexivity.
Defined.

Lemma server_error_body_is_discarded_witness :
  fst (fst (getMetadata demo_parse demo_parseError 0 0 "chart"
              (fun _ => Responds demo_rate_limited) demo_client)) =
  inr (NetworkError ("HTTP " +:+ pretty (status demo_rate_limited) +:+ ": "
                     +:+ statusText demo_rate_limited)).
Proof.
  apply (server_error_body_is_discarded demo_parse demo_parseError 0 0 "chart"
           (fun _ => Responds demo_rate_limited) demo_client demo_rate_limited).
  - discriminate.
  - vm_compute. reflexivity.
  - vm_compute. reflexivity.
  - reflexivity.
  - discriminate.
Defined.

Lemma fetched_metadata_is_served_from_cache_witness :
  fst (getMetadata demo_parse demo_parseError 303000 303000 "chart"
         (fun _ => Aborted)
         (snd (getMetadata demo_parse demo_parseError 0 3000 "chart" demo_env
                 demo_client)))
  = (inl "{...}", []).
Proof.
  pose proof (fetched_metadata_is_served_from_cache demo_parse demo_parseError
                0 3000 303000 303000 "chart" demo_env (fun _ => Aborted) demo_client
                (MemoryCache.create string None) "{...}") as H.
  cbv zeta in H. apply H.
  - reflexivity.
  - vm_compute. reflexivity.
  - vm_compute. reflexivity.
  - vm_compute. discriminate.
Defined.

(** The 429 answer on the concrete client: the caller sees the HTTP status
    with code [NETWORK_ERROR], not the server's [RATE_LIMIT_ERROR]; one
    millisecond after the TTL the cached value is fetched again. *)
Example demo_getMetadata :
  fst (fst (getMetadata demo_parse demo_parseError 0 0 "chart"
              (fun _ => Responds demo_rate_limited) demo_client))
  = inr (EAMPClientError "HTTP 429: Too Many Requests" "NETWORK_ERROR") /\
  fst (getMetadata demo_parse demo_parseError 303001 303001 "chart"
         (fun _ => Aborted)
         (snd (getMetadata demo_parse demo_parseError 0 3000 "chart" demo_env
                 demo_client)))
  = (inr (EAMPClientError "Request timeout after 30000ms" "NETWORK_ERROR"),
     [1000; 2000; 4000]%Z).
Proof. vm_compute. split; reflexivity. Qed.

End FetchFacts.

(* ===================================================================== *)
(** * Facts about the utility functions *)
(* ===================================================================== *)
Module UtilsFacts.
Import Utils.

Lemma length_append (s1 s2 : string) :
  String.length (s1 +:+ s2) = String.length s1 + String.length s2.
Proof. induction s1 as [|a s1 IH]; simpl; [done|]. by rewrite IH. Qed.

Lemma length_substring (n : nat) : forall s,
  String.length (String.substring 0 n s) = n `min` String.length s.
Proof.
  induction n as [|n IH]; intros [|a s]; simpl; try done. by rewrite IH.
Qed.

Lemma prefix_substring (n : nat) : forall s,
  String.prefix (String.substring 0 n s) s = true.
Proof.
  induction n as [|n IH]; intros [|a s]; simpl; try done.
  destruct (Ascii.ascii_dec a a); [apply IH|done].
Qed.

(** X30. [truncateText] returns a text that fits the limit as it is, and
    cuts a longer one to its first [maxLength - 3] characters (none when
    [maxLength < 3]) followed by three dots.  So for a limit of at least 3
    the result is never longer than the limit (a cut text has exactly
    [maxLength] characters), whereas for a limit below 3 every longer text
    comes back as three dots, which is more than the limit. *)
Theorem truncateText_cuts_to_the_limit text maxLength :
  ((Z.of_nat (String.length text) <= maxLength)%Z ->
   truncateText text maxLength = text) /\
  ((maxLength < Z.of_nat (String.length text))%Z ->
   (exists kept,
      truncateText text maxLength = kept +:+ "..." /\
      String.prefix kept text = true /\
      Z.of_nat (String.length kept) = Z.max 0 (maxLength - 3)) /\
   Z.of_nat (String.length (truncateText text maxLength)) = Z.max maxLength 3) /\
  ((3 <= maxLength)%Z ->
   (Z.of_nat (String.length (truncateText text maxLength)) <= maxLength)%Z) /\
  ((maxLength < 3)%Z -> (maxLength < Z.of_nat (String.length text))%Z ->
   truncateText text maxLength = "...").
Proof.
  unfold truncateText, substring0.
  assert (Hlen : (maxLength < Z.of_nat (String.length text))%Z ->
    String.length (String.substring 0 (Z.to_nat (maxLength - 3)) text)
    = Z.to_nat (maxLength - 3)).
  { intros Hlong. rewrite length_substring. lia. }
  split; [|split; [|split]].
  - intros Hfit. by rewrite decide_True.
  - intros Hlong. rewrite decide_False by lia. split.
    + eexists. split; [reflexivity|]. split; [apply prefix_substring|].
      rewrite Hlen by done. lia.
    + rewrite length_append, Hlen by done. simpl. lia.
  - intros Hmax. case_decide as Hfit; [done|].
    rewrite length_append, Hlen by lia. simpl. lia.
  - intros Hsmall Hlong. rewrite decide_False by lia.
    replace (Z.to_nat (maxLength - 3)) with 0 by lia.
    assert (Hempty : String.substring 0 0 text = "") by by destruct text.
    by rewrite Hempty.
Qed.

Example demo_truncateText :
  truncateText "accessibility" 8 = "acces..." /\
  truncateText "chart" 5 = "chart" /\
  truncateText "chart" 3 = "..." /\
  truncateText "chart" 2 = "...".
Proof. vm_compute. repeat split. Qed.

End UtilsFacts.
